(** * Structured Ex commands: a model of [src/nvim/api/command.c]

    The file embeds the API functions of [command.c] that translate between
    command lines and structured descriptors ([nvim_parse_cmd], [nvim_cmd]
    with [string_iswhite] and [build_cmdline_str]) and those of the registry
    of user commands ([create_user_command], [nvim_buf_get_commands]), then
    states and proves properties of them.

    Machine integers are [Z] with their wrap-around written out, flag words are
    [Z] tested with [Z.land], C strings are [string], API dictionaries are
    association lists and the generated key sets are finite maps from field
    names to objects.  Functions of other files that [command.c] only calls are
    fields of the records [editor], [tokenizer] and [definer]; the few helpers
    and constants that are written out instead say so in their comment. *)

From Stdlib Require Import ZArith Lia Bool List String Ascii DecimalString DecimalZ.
From stdpp Require Import base option list strings gmap.

Local Open Scope Z_scope.
Set Warnings "-register-all".

(** ** Errors and results ([api/private/defs.h]) *)

Inductive ErrorType := kErrorTypeException | kErrorTypeValidation.

(** An [Error] that has been set: [api_set_error (err, type, msg)]. *)
Record Error := api_set_error { err_type : ErrorType; err_msg : string }.

(** A computation that either goes on with a value or jumps to [end:] with the
    error set. *)
Inductive Result (A : Type) : Type :=
| Ok (a : A)
| Err (e : Error).
Arguments Ok {A} a.
Arguments Err {A} e.

#[global] Instance Result_bind : MBind Result := fun A B k r =>
  match r with
  | Ok a => k a
  | Err e => Err e
  end.

Definition VALIDATION_ERROR {A} (msg : string) : Result A :=
  Err (api_set_error kErrorTypeValidation msg).

Definition is_ok {A} (r : Result A) : bool :=
  match r with Ok _ => true | Err _ => false end.

Definition is_validation_error {A} (r : Result A) : Prop :=
  exists msg, r = VALIDATION_ERROR msg.

(** ** API objects *)

Inductive Object :=
| NIL
| BOOLEAN_OBJ (b : bool)
| INTEGER_OBJ (i : Z)
| FLOAT_OBJ (bits : Z)
| STRING_OBJ (s : string)
| ARRAY_OBJ (items : list Object)
| DICTIONARY_OBJ (items : list (string * Object))
| LUAREF_OBJ (ref : Z)
| BUFFER_OBJ (handle : Z)
| WINDOW_OBJ (handle : Z)
| TABPAGE_OBJ (handle : Z).

#[global] Instance Object_inhabited : Inhabited Object := populate NIL.

(** [HAS_KEY(o)]: the field was given, [o.type != kObjectTypeNil]. *)
Definition HAS_KEY (o : Object) : bool :=
  match o with NIL => false | _ => true end.

(** Modelled from the spec: [api_object_to_bool] lives in
    [api/private/helpers.c], which is not part of [command.c].  A boolean is
    itself, an integer is true when it is not zero, a missing value is the
    default the caller passes, anything else is the validation error
    "<what> is not a boolean". *)
Definition api_object_to_bool (obj : Object) (what : string) (nil_value : bool)
  : Result bool :=
  match obj with
  | BOOLEAN_OBJ b => Ok b
  | INTEGER_OBJ i => Ok (negb (i =? 0))
  | NIL => Ok nil_value
  | _ => VALIDATION_ERROR (what +:+ " is not a boolean")
  end.

(** A generated key set ([Dict(cmd_mods)] and the like): field name to value,
    a field never set reads as [NIL]. *)
Abbreviation KeyDict := (gmap string Object).

Definition field (d : KeyDict) (k : string) : Object := default NIL (d !! k).

(** Modelled from the spec: [api_dict_to_keydict] lives in
    [api/private/helpers.c].  It stores every item of the dictionary in the
    field its key names, in order, and fails with "Invalid key" at the first
    key that names no field. *)
Fixpoint api_dict_to_keydict (fields : list string) (rv : KeyDict)
    (dict : list (string * Object)) : Result KeyDict :=
  match dict with
  | [] => Ok rv
  | (k, v) :: rest =>
      if bool_decide (k ∈ fields)
      then api_dict_to_keydict fields (<[k := v]> rv) rest
      else VALIDATION_ERROR ("Invalid key: '" +:+ k +:+ "'")
  end.

(** ** C strings and integers *)

Definition NUL : ascii := "000"%char.
Definition dquote : ascii := "034"%char.

(** The bytes of [s] up to its first NUL: what a C function sees through a
    [char *] to a copy of [s] ([string_to_cstr], [cstr_as_string]). *)
Fixpoint cstr (s : string) : string :=
  match s with
  | EmptyString => EmptyString
  | String c rest => if Ascii.eqb c NUL then EmptyString else String c (cstr rest)
  end.

(** [s.data[0]], NUL for the empty string. *)
Definition first_char (s : string) : ascii :=
  match s with
  | EmptyString => NUL
  | String c _ => c
  end.

(** Modelled from the spec: [ascii_iswhite] is declared in [nvim/ascii.h]:
    a space or a tab. *)
Definition ascii_iswhite (c : ascii) : bool :=
  Ascii.eqb c " "%char || Ascii.eqb c "009"%char.

(** Two's complement reading of the low [w] bits of [z]: the value of a cast to
    a signed [w]-bit integer. *)
Definition wrap (w : Z) (z : Z) : Z := (z + 2 ^ (w - 1)) mod 2 ^ w - 2 ^ (w - 1).

(** [(int)z] and [(linenr_T)z] for a 64-bit [z]; [linenr_T] is [int32_t]. *)
Definition to_int (z : Z) : Z := wrap 32 z.
Definition to_linenr (z : Z) : Z := wrap 32 z.

(** The text [printf] writes for a ["%d"] or ["%" PRId64] argument. *)
Definition decimal (z : Z) : string := NilZero.string_of_int (Z.to_int z).

(** A flag word tested against a mask: [(x & m) != 0]. *)
Definition has (x m : Z) : bool := negb (Z.land x m =? 0).

(** ** Command flags

    Modelled from the spec: the flags of a contract, the capability set of the
    specification, are declared in [ex_cmds_defs.h], which is not part of
    [command.c].  Each is one bit of [argt]. *)

Definition EX_RANGE : Z := 0x001.
Definition EX_BANG : Z := 0x002.
Definition EX_EXTRA : Z := 0x004.
Definition EX_XFILE : Z := 0x008.
Definition EX_NOSPC : Z := 0x010.
Definition EX_DFLALL : Z := 0x020.
Definition EX_NEEDARG : Z := 0x080.
Definition EX_TRLBAR : Z := 0x100.
Definition EX_REGSTR : Z := 0x200.
Definition EX_COUNT : Z := 0x400.
Definition EX_ZEROR : Z := 0x1000.
Definition EX_SBOXOK : Z := 0x40000.
Definition EX_KEEPSCRIPT : Z := 0x4000000.
Definition EX_PREVIEW : Z := 0x8000000.

(** Modelled from the spec: the flags of the boolean modifiers
    ([ex_cmds_defs.h]) and of the split direction ([window.h]), one bit
    each. *)
Definition CMOD_SANDBOX : Z := 0x0001.
Definition CMOD_SILENT : Z := 0x0002.
Definition CMOD_ERRSILENT : Z := 0x0004.
Definition CMOD_UNSILENT : Z := 0x0008.
Definition CMOD_NOAUTOCMD : Z := 0x0010.
Definition CMOD_HIDE : Z := 0x0020.
Definition CMOD_BROWSE : Z := 0x0040.
Definition CMOD_CONFIRM : Z := 0x0080.
Definition CMOD_KEEPALT : Z := 0x0100.
Definition CMOD_KEEPMARKS : Z := 0x0200.
Definition CMOD_KEEPJUMPS : Z := 0x0400.
Definition CMOD_LOCKMARKS : Z := 0x0800.
Definition CMOD_KEEPPATTERNS : Z := 0x1000.
Definition CMOD_NOSWAPFILE : Z := 0x2000.

Definition WSP_VERT : Z := 0x02.
Definition WSP_HOR : Z := 0x04.
Definition WSP_TOP : Z := 0x08.
Definition WSP_BOT : Z := 0x10.
Definition WSP_BELOW : Z := 0x40.
Definition WSP_ABOVE : Z := 0x80.

(** Modelled from the spec: the index of a command, an enumeration generated
    from the command table: a built-in command, of which [command.c] names
    [:put]; the end marker [CMD_SIZE] that [find_ex_command] leaves for an
    unknown name; or one of the two negative indices of user commands. *)
Inductive cmdidx_T :=
| CMD_put
| CMD_builtin (n : nat)
| CMD_SIZE
| CMD_USER
| CMD_USER_BUF.

Definition IS_USER_CMDIDX (idx : cmdidx_T) : bool :=
  match idx with
  | CMD_USER | CMD_USER_BUF => true
  | _ => false
  end.

(** Modelled from the spec: the address kinds ([ex_cmds_defs.h]). *)
Inductive cmd_addr_T :=
| ADDR_LINES
| ADDR_WINDOWS
| ADDR_ARGUMENTS
| ADDR_LOADED_BUFFERS
| ADDR_BUFFERS
| ADDR_TABS
| ADDR_TABS_RELATIVE
| ADDR_QUICKFIX_VALID
| ADDR_QUICKFIX
| ADDR_UNSIGNED
| ADDR_OTHER
| ADDR_NONE.

#[global] Instance cmd_addr_T_eq_dec : EqDecision cmd_addr_T.
Proof. solve_decision. Defined.

#[global] Instance cmdidx_T_eq_dec : EqDecision cmdidx_T.
Proof. solve_decision. Defined.

(** ** The argument-count policy of a contract

    [nvim_parse_cmd] reports the policy as the "nargs" character; the same
    three flags drive the argument-count check of [nvim_cmd]. *)

Inductive arity := exactlyOne | zeroOrOne | oneOrMore | zeroOrMore | none.

Definition arity_of (argt : Z) : arity :=
  if has argt EX_EXTRA then
    if has argt EX_NOSPC then
      if has argt EX_NEEDARG then exactlyOne else zeroOrOne
    else if has argt EX_NEEDARG then oneOrMore
    else zeroOrMore
  else none.

Definition nargs_char (a : arity) : string :=
  match a with
  | exactlyOne => "1"
  | zeroOrOne => "?"
  | oneOrMore => "+"
  | zeroOrMore => "*"
  | none => "0"
  end.

(** ** [nvim_cmd]: the arguments (lines 398-462) *)

(** [string_iswhite]: the loop over the [size] bytes of the string. *)
Fixpoint string_iswhite (str : string) : bool :=
  match str with
  | EmptyString => true
  | String c rest =>
      if negb (ascii_iswhite c) then false
      else if Ascii.eqb c NUL then true
      else string_iswhite rest
  end.

(** One turn of the loop over [cmd->args]: the switch on the element type. *)
Definition arg_to_string (elem : Object) : Result string :=
  match elem with
  | BOOLEAN_OBJ b => Ok (if b then "1" else "0")
  | BUFFER_OBJ i | WINDOW_OBJ i | TABPAGE_OBJ i | INTEGER_OBJ i => Ok (decimal i)
  | STRING_OBJ s =>
      if string_iswhite s
      then VALIDATION_ERROR
             "String command argument must have at least one non-whitespace character"
      else Ok (cstr s)
  | _ => VALIDATION_ERROR "Invalid type for command argument"
  end.

Fixpoint args_to_strings (items : list Object) : Result (list string) :=
  match items with
  | [] => Ok []
  | elem :: rest =>
      data_str ← arg_to_string elem;
      args ← args_to_strings rest;
      Ok (data_str :: args)
  end.

(** The switch on [ea.argt & (EX_EXTRA | EX_NOSPC | EX_NEEDARG)]. *)
Definition argc_valid (argt : Z) (size : nat) : bool :=
  let m := Z.land argt (Z.lor EX_EXTRA (Z.lor EX_NOSPC EX_NEEDARG)) in
  if m =? Z.lor EX_EXTRA (Z.lor EX_NOSPC EX_NEEDARG) then (size =? 1)%nat
  else if m =? Z.lor EX_EXTRA EX_NOSPC then (size <=? 1)%nat
  else if m =? Z.lor EX_EXTRA EX_NEEDARG then (1 <=? size)%nat
  else if m =? EX_EXTRA then true
  else (size =? 0)%nat.

(** The block [if (HAS_KEY(cmd->args)) { ... }]. *)
Definition cmd_args (argt : Z) (args : Object) : Result (list string) :=
  if HAS_KEY args then
    match args with
    | ARRAY_OBJ items =>
        a ← args_to_strings items;
        if argc_valid argt (length a) then Ok a
        else VALIDATION_ERROR "Incorrect number of arguments supplied"
    | _ => VALIDATION_ERROR "'args' must be an Array"
    end
  else Ok [].

(** ** The parsed command [exarg_T] and the modifiers [cmdmod_T]
    ([ex_cmds_defs.h])

    A [char *] is the buffer it points into and the offset in it. *)

Inductive charptr :=
| NULLptr
| ptr (buf : string) (off : nat).

Fixpoint string_drop (n : nat) (s : string) : string :=
  match n, s with
  | O, _ => s
  | S n', String _ rest => string_drop n' rest
  | S _, EmptyString => EmptyString
  end.

(** The C string a pointer points to. *)
Definition cstr_at (p : charptr) : string :=
  match p with
  | NULLptr => EmptyString
  | ptr buf off => cstr (string_drop off buf)
  end.

Record exarg_T := mk_exarg {
  arg : charptr;
  args : list charptr;
  arglens : list nat;
  argc : nat;
  nextcmd : string;
  cmd : charptr;
  cmdidx : cmdidx_T;
  argt : Z;
  forceit : bool;
  addr_count : Z;
  line1 : Z;
  line2 : Z;
  addr_type : cmd_addr_T;
  regname : ascii;
  useridx : Z
}.

(** [CLEAR_FIELD(ea)]. *)
Definition ea_clear : exarg_T :=
  mk_exarg NULLptr [] [] 0 EmptyString NULLptr (CMD_builtin 0) 0 false 0 0 0
           ADDR_LINES NUL 0.

Definition with_cmd (ea : exarg_T) (p : charptr) : exarg_T :=
  mk_exarg (arg ea) (args ea) (arglens ea) (argc ea) (nextcmd ea) p (cmdidx ea)
           (argt ea) (forceit ea) (addr_count ea) (line1 ea) (line2 ea)
           (addr_type ea) (regname ea) (useridx ea).

(** The fields [find_ex_command] stores. *)
Definition with_found (ea : exarg_T) (f : cmdidx_T * Z * cmd_addr_T * Z)
  : exarg_T :=
  let '(idx, flags, addr, uidx) := f in
  mk_exarg (arg ea) (args ea) (arglens ea) (argc ea) (nextcmd ea) (cmd ea) idx
           flags (forceit ea) (addr_count ea) (line1 ea) (line2 ea) addr
           (regname ea) uidx.

Definition with_argt (ea : exarg_T) (a : Z) : exarg_T :=
  mk_exarg (arg ea) (args ea) (arglens ea) (argc ea) (nextcmd ea) (cmd ea)
           (cmdidx ea) a (forceit ea) (addr_count ea) (line1 ea) (line2 ea)
           (addr_type ea) (regname ea) (useridx ea).

Definition with_addr_type (ea : exarg_T) (t : cmd_addr_T) : exarg_T :=
  mk_exarg (arg ea) (args ea) (arglens ea) (argc ea) (nextcmd ea) (cmd ea)
           (cmdidx ea) (argt ea) (forceit ea) (addr_count ea) (line1 ea)
           (line2 ea) t (regname ea) (useridx ea).

Definition with_addr_count (ea : exarg_T) (n : Z) : exarg_T :=
  mk_exarg (arg ea) (args ea) (arglens ea) (argc ea) (nextcmd ea) (cmd ea)
           (cmdidx ea) (argt ea) (forceit ea) n (line1 ea) (line2 ea)
           (addr_type ea) (regname ea) (useridx ea).

Definition with_lines (ea : exarg_T) (l1 l2 : Z) : exarg_T :=
  mk_exarg (arg ea) (args ea) (arglens ea) (argc ea) (nextcmd ea) (cmd ea)
           (cmdidx ea) (argt ea) (forceit ea) (addr_count ea) l1 l2
           (addr_type ea) (regname ea) (useridx ea).

Definition with_regname (ea : exarg_T) (r : ascii) : exarg_T :=
  mk_exarg (arg ea) (args ea) (arglens ea) (argc ea) (nextcmd ea) (cmd ea)
           (cmdidx ea) (argt ea) (forceit ea) (addr_count ea) (line1 ea)
           (line2 ea) (addr_type ea) r (useridx ea).

Definition with_forceit (ea : exarg_T) (b : bool) : exarg_T :=
  mk_exarg (arg ea) (args ea) (arglens ea) (argc ea) (nextcmd ea) (cmd ea)
           (cmdidx ea) (argt ea) b (addr_count ea) (line1 ea) (line2 ea)
           (addr_type ea) (regname ea) (useridx ea).

(** The pointers [build_cmdline_str] sets: [cmd], [arg], [args], [arglens],
    [argc]. *)
Definition with_layout (ea : exarg_T) (c a : charptr) (ps : list charptr)
    (lens : list nat) (n : nat) : exarg_T :=
  mk_exarg a ps lens n (nextcmd ea) c (cmdidx ea) (argt ea) (forceit ea)
           (addr_count ea) (line1 ea) (line2 ea) (addr_type ea) (regname ea)
           (useridx ea).

Record cmdmod_T := mk_cmdmod {
  cmod_flags : Z;
  cmod_split : Z;
  cmod_tab : Z;
  cmod_filter_pat : option string;
  cmod_filter_regprog : option Z;
  cmod_filter_force : bool;
  cmod_verbose : Z
}.

Definition cmdmod_clear : cmdmod_T := mk_cmdmod 0 0 0 None None false 0.

Definition with_flags (cm : cmdmod_T) (f : Z) : cmdmod_T :=
  mk_cmdmod f (cmod_split cm) (cmod_tab cm) (cmod_filter_pat cm)
            (cmod_filter_regprog cm) (cmod_filter_force cm) (cmod_verbose cm).

Definition with_split (cm : cmdmod_T) (s : Z) : cmdmod_T :=
  mk_cmdmod (cmod_flags cm) s (cmod_tab cm) (cmod_filter_pat cm)
            (cmod_filter_regprog cm) (cmod_filter_force cm) (cmod_verbose cm).

Definition with_tab (cm : cmdmod_T) (t : Z) : cmdmod_T :=
  mk_cmdmod (cmod_flags cm) (cmod_split cm) t (cmod_filter_pat cm)
            (cmod_filter_regprog cm) (cmod_filter_force cm) (cmod_verbose cm).

Definition with_verbose (cm : cmdmod_T) (v : Z) : cmdmod_T :=
  mk_cmdmod (cmod_flags cm) (cmod_split cm) (cmod_tab cm) (cmod_filter_pat cm)
            (cmod_filter_regprog cm) (cmod_filter_force cm) v.

Definition with_filter (cm : cmdmod_T) (pat : option string) (prog : option Z)
    (force : bool) : cmdmod_T :=
  mk_cmdmod (cmod_flags cm) (cmod_split cm) (cmod_tab cm) pat prog force
            (cmod_verbose cm).

Record magic_T := mk_magic { magic_file : bool; magic_bar : bool }.

Record CmdParseInfo := mk_cmdinfo { cmdmod : cmdmod_T; magic : magic_T }.

(** ** The editor around [command.c]

    Functions of other files that [nvim_cmd] and [nvim_parse_cmd] call.  Each
    one is given the arguments the call passes and returns what the caller
    reads afterwards. *)

Record editor := {
  (** [find_ex_command(&ea, NULL)]: whether the result is not [NULL], and what
      it stores in [ea]: [cmdidx], and for a user command its [argt],
      [addr_type] and [useridx] (for another command the three are expected
      as they were). *)
  find_ex_command : exarg_T -> bool * (cmdidx_T * Z * cmd_addr_T * Z);
  (** [has_event(EVENT_CMDUNDEFINED)]. *)
  has_event_CMDUNDEFINED : bool;
  (** [apply_autocmds(EVENT_CMDUNDEFINED, p, p, true, NULL) && !aborting()]. *)
  apply_autocmds_CMDUNDEFINED : string -> bool;
  (** [find_ex_command] once those autocommands have run. *)
  find_ex_command_again : exarg_T -> bool * (cmdidx_T * Z * cmd_addr_T * Z);
  is_cmd_ni : cmdidx_T -> bool;
  get_cmd_argt : cmdidx_T -> Z;
  (** [set_cmd_addr_type(&ea, p)]: the address type it stores in [ea]. *)
  set_cmd_addr_type : exarg_T -> option string -> cmd_addr_T;
  (** [invalid_range(&ea) != NULL]. *)
  invalid_range : exarg_T -> bool;
  (** [set_cmd_dflall_range(&ea)]: the [line1] and [line2] it stores. *)
  set_cmd_dflall_range : exarg_T -> Z * Z;
  get_cmd_default_range : exarg_T -> Z;
  (** [set_cmd_count(&ea, count, true)]: the [line1], [line2] and
      [addr_count] it stores. *)
  set_cmd_count : exarg_T -> Z -> Z * Z * Z;
  (** [valid_yank_reg(regname, writing)]. *)
  valid_yank_reg : ascii -> bool -> bool;
  (** [vim_regcomp(pat, RE_MAGIC)]: the program, [None] for [NULL]. *)
  vim_regcomp : string -> option Z;
  (** [replace_makeprg(eap, eap->arg, cmdlinep)]: [None] when it returns
      [eap->arg] itself, else the pointer it returns and the new [*cmdlinep]. *)
  replace_makeprg : exarg_T -> string -> option (charptr * string)
}.

(** Modelled from the spec: [ASCII_ISUPPER(c)] is a macro of [macros.h]: an
    upper-case ASCII letter. *)
Definition ASCII_ISUPPER (c : ascii) : bool :=
  let n := Z.of_nat (nat_of_ascii c) in (65 <=? n) && (n <=? 90).

(** The descriptor [Dict(cmd)] as the API dispatcher hands it over. *)
Record Dict_cmd := mk_cmd {
  k_cmd : Object;
  k_range : Object;
  k_count : Object;
  k_reg : Object;
  k_bang : Object;
  k_args : Object;
  k_magic : Object;
  k_mods : Object;
  k_nargs : Object;
  k_addr : Object;
  k_nextcmd : Object
}.

Definition cmd_magic_keys : list string := ["file"; "bar"]%string.
Definition cmd_mods_filter_keys : list string := ["pattern"; "force"]%string.
Definition cmd_mods_keys : list string :=
  ["silent"; "emsg_silent"; "unsilent"; "filter"; "sandbox"; "noautocmd";
   "browse"; "confirm"; "hide"; "horizontal"; "keepalt"; "keepjumps";
   "keepmarks"; "keeppatterns"; "lockmarks"; "noswapfile"; "tab"; "verbose";
   "vertical"; "split"]%string.

(** ** [nvim_cmd]: the command name (lines 362-396) *)

Definition cmd_name (c : Object) : Result string :=
  match c with
  | STRING_OBJ s =>
      if Ascii.eqb (first_char s) NUL
      then VALIDATION_ERROR "'cmd' must be a non-empty String"
      else Ok (cstr s)
  | _ => VALIDATION_ERROR "'cmd' must be a non-empty String"
  end.

Definition resolve_cmd (ed : editor) (cmdname : string) : Result exarg_T :=
  let ea := with_cmd ea_clear (ptr cmdname 0) in
  let '(p, f) := find_ex_command ed ea in
  let ea := with_found ea f in
  let '(p, ea) :=
    if p && bool_decide (cmdidx ea = CMD_SIZE)
       && ASCII_ISUPPER (first_char (cstr_at (cmd ea)))
       && has_event_CMDUNDEFINED ed
    then
      if apply_autocmds_CMDUNDEFINED ed cmdname
      then let '(p', f') := find_ex_command_again ed ea in (p', with_found ea f')
      else (true, ea)
    else (p, ea) in
  if negb p || bool_decide (cmdidx ea = CMD_SIZE)
  then VALIDATION_ERROR ("Command not found: " +:+ cmdname)
  else if is_cmd_ni ed (cmdidx ea)
  then VALIDATION_ERROR ("Command not implemented: " +:+ cmdname)
  else if negb (IS_USER_CMDIDX (cmdidx ea))
  then Ok (with_argt ea (get_cmd_argt ed (cmdidx ea)))
  else Ok ea.

(** ** [nvim_cmd]: range, default range and count (lines 468-516) *)

Definition range_elem_ok (elem : Object) : bool :=
  match elem with
  | INTEGER_OBJ i => 0 <=? i
  | _ => false
  end.

Definition integer_of (o : Object) : Z :=
  match o with
  | INTEGER_OBJ i => i
  | _ => 0
  end.

Definition cmd_range (ed : editor) (ea : exarg_T) (range : Object)
  : Result exarg_T :=
  if HAS_KEY range then
    if negb (has (argt ea) EX_RANGE)
    then VALIDATION_ERROR "Command cannot accept a range"
    else
      match range with
      | ARRAY_OBJ items =>
          if (2 <? length items)%nat
          then VALIDATION_ERROR "'range' cannot contain more than two elements"
          else
            let ea := with_addr_count ea (to_int (Z.of_nat (length items))) in
            if negb (forallb range_elem_ok items)
            then VALIDATION_ERROR "'range' element must be a non-negative Integer"
            else
              let ea :=
                match items with
                | [] => ea
                | first :: _ =>
                    with_lines ea (to_linenr (integer_of first))
                               (to_linenr (integer_of (List.last items NIL)))
                end in
              if invalid_range ed ea
              then VALIDATION_ERROR "Invalid range provided"
              else Ok ea
      | _ => VALIDATION_ERROR "'range' must be an Array"
      end
  else Ok ea.

(** The block [if (ea.addr_count == 0) { ... }]. *)
Definition default_range (ed : editor) (ea : exarg_T) : exarg_T :=
  if addr_count ea =? 0 then
    if has (argt ea) EX_DFLALL then
      let '(l1, l2) := set_cmd_dflall_range ed ea in
      with_lines ea l1 l2
    else
      let d := get_cmd_default_range ed ea in
      let ea := with_lines ea d d in
      if bool_decide (addr_type ea = ADDR_OTHER)
      then with_lines ea (line1 ea) 1
      else ea
  else ea.

Definition cmd_count (ed : editor) (ea : exarg_T) (count : Object)
  : Result exarg_T :=
  if HAS_KEY count then
    if negb (has (argt ea) EX_COUNT)
    then VALIDATION_ERROR "Command cannot accept a count"
    else
      match count with
      | INTEGER_OBJ i =>
          if i <? 0
          then VALIDATION_ERROR "'count' must be a non-negative Integer"
          else
            let '(l1, l2, n) := set_cmd_count ed ea (to_linenr i) in
            Ok (with_addr_count (with_lines ea l1 l2) n)
      | _ => VALIDATION_ERROR "'count' must be a non-negative Integer"
      end
  else Ok ea.

(** ** [nvim_cmd]: register and bang (lines 518-536) *)

(** The second argument of [valid_yank_reg]: the register is to be written,
    unless the command is [:put] or a user command. *)
Definition reg_writing (idx : cmdidx_T) : bool :=
  negb (bool_decide (idx = CMD_put)) && negb (IS_USER_CMDIDX idx).

(** The message of an invalid register is formatted with [%c] into a C
    string: for the register NUL it ends at the quote before it. *)
Definition cmd_reg (ed : editor) (ea : exarg_T) (reg : Object) : Result exarg_T :=
  if HAS_KEY reg then
    if negb (has (argt ea) EX_REGSTR)
    then VALIDATION_ERROR "Command cannot accept a register"
    else
      match reg with
      | STRING_OBJ s =>
          if negb (String.length s =? 1)%nat
          then VALIDATION_ERROR "'reg' must be a single character"
          else
            let regname := first_char s in
            if Ascii.eqb regname "="%char
            then VALIDATION_ERROR ("Cannot use register " +:+ String dquote "=")
            else if negb (valid_yank_reg ed regname (reg_writing (cmdidx ea)))
            then VALIDATION_ERROR
                   (cstr ("Invalid register: "
                          +:+ String dquote (String regname EmptyString)))
            else Ok (with_regname ea regname)
      | _ => VALIDATION_ERROR "'reg' must be a single character"
      end
  else Ok ea.

Definition cmd_bang (ea : exarg_T) (bang : Object) : Result exarg_T :=
  b ← api_object_to_bool bang "'bang'" false;
  if b && negb (has (argt ea) EX_BANG)
  then VALIDATION_ERROR "Command cannot accept a bang"
  else Ok (with_forceit ea b).

(** ** [nvim_cmd]: magic (lines 538-559) *)

Definition cmd_magic (ea : exarg_T) (m : Object) : Result (exarg_T * magic_T) :=
  if HAS_KEY m then
    match m with
    | DICTIONARY_OBJ items =>
        mg ← api_dict_to_keydict cmd_magic_keys ∅ items;
        file ← api_object_to_bool (field mg "file") "'magic.file'"
                                  (has (argt ea) EX_XFILE);
        bar ← api_object_to_bool (field mg "bar") "'magic.bar'"
                                 (has (argt ea) EX_TRLBAR);
        Ok (with_argt ea (if file : bool then Z.lor (argt ea) EX_XFILE
                          else Z.ldiff (argt ea) EX_XFILE),
            mk_magic file bar)
    | _ => VALIDATION_ERROR "'magic' must be a Dictionary"
    end
  else Ok (ea, mk_magic (has (argt ea) EX_XFILE) (has (argt ea) EX_TRLBAR)).

(** ** [nvim_cmd]: modifiers (lines 561-672) *)

Definition mods_filter (ed : editor) (filter : Object) (cm : cmdmod_T)
  : Result cmdmod_T :=
  if HAS_KEY filter then
    match filter with
    | DICTIONARY_OBJ items =>
        f ← api_dict_to_keydict cmd_mods_filter_keys ∅ items;
        if HAS_KEY (field f "pattern") then
          match field f "pattern" with
          | STRING_OBJ pat =>
              force ← api_object_to_bool (field f "force") "'mods.filter.force'"
                                         false;
              if negb (Ascii.eqb (first_char pat) NUL) || force
              then Ok (with_filter cm (Some (cstr pat)) (vim_regcomp ed (cstr pat))
                                   force)
              else Ok (with_filter cm (cmod_filter_pat cm)
                                   (cmod_filter_regprog cm) force)
          | _ => VALIDATION_ERROR "'mods.filter.pattern' must be a String"
          end
        else Ok cm
    | _ => VALIDATION_ERROR "'mods.filter' must be a Dictionary"
    end
  else Ok cm.

(** [mods.tab]: a negative integer is ignored without an error. *)
Definition mods_tab (tab : Object) (cm : cmdmod_T) : Result cmdmod_T :=
  if HAS_KEY tab then
    match tab with
    | INTEGER_OBJ i =>
        if 0 <=? to_int i
        then Ok (with_tab cm (to_int (to_int i + 1)))
        else Ok cm
    | _ => VALIDATION_ERROR "'mods.tab' must be an Integer"
    end
  else Ok cm.

(** [mods.verbose]: a negative integer is ignored without an error. *)
Definition mods_verbose (verbose : Object) (cm : cmdmod_T) : Result cmdmod_T :=
  if HAS_KEY verbose then
    match verbose with
    | INTEGER_OBJ i =>
        if 0 <=? to_int i
        then Ok (with_verbose cm (to_int (to_int i + 1)))
        else Ok cm
    | _ => VALIDATION_ERROR "'mods.verbose' must be an Integer"
    end
  else Ok cm.

Definition or_split (cm : cmdmod_T) (f : Z) : cmdmod_T :=
  with_split cm (Z.lor (cmod_split cm) f).

Definition mods_split (split : Object) (cm : cmdmod_T) : Result cmdmod_T :=
  if HAS_KEY split then
    match split with
    | STRING_OBJ str =>
        let s := cstr str in
        if Ascii.eqb (first_char s) NUL then Ok cm
        else if String.eqb s "aboveleft" || String.eqb s "leftabove"
        then Ok (or_split cm WSP_ABOVE)
        else if String.eqb s "belowright" || String.eqb s "rightbelow"
        then Ok (or_split cm WSP_BELOW)
        else if String.eqb s "topleft" then Ok (or_split cm WSP_TOP)
        else if String.eqb s "botright" then Ok (or_split cm WSP_BOT)
        else VALIDATION_ERROR "Invalid value for 'mods.split'"
    | _ => VALIDATION_ERROR "'mods.split' must be a String"
    end
  else Ok cm.

(** The macro [OBJ_TO_CMOD_FLAG(flag, value, false, varname)]. *)
Definition OBJ_TO_CMOD_FLAG (flag : Z) (value : Object) (varname : string)
    (cm : cmdmod_T) : Result cmdmod_T :=
  b ← api_object_to_bool value varname false;
  Ok (if b : bool then with_flags cm (Z.lor (cmod_flags cm) flag) else cm).

(** [CMOD_ERRSILENT] must imply [CMOD_SILENT] (lines 663-667). *)
Definition errsilent_implies_silent (cm : cmdmod_T) : cmdmod_T :=
  if has (cmod_flags cm) CMOD_ERRSILENT
  then with_flags cm (Z.lor (cmod_flags cm) CMOD_SILENT)
  else cm.

(** The body of [if (HAS_KEY(cmd->mods))] once [mods] is a key set. *)
Definition cmd_mods_fields (ed : editor) (ea : exarg_T) (mods : KeyDict)
    (cm : cmdmod_T) : Result cmdmod_T :=
  cm ← mods_filter ed (field mods "filter") cm;
  cm ← mods_tab (field mods "tab") cm;
  cm ← mods_verbose (field mods "verbose") cm;
  vertical ← api_object_to_bool (field mods "vertical") "'mods.vertical'" false;
  cm ← Ok (or_split cm (if vertical : bool then WSP_VERT else 0));
  horizontal ← api_object_to_bool (field mods "horizontal") "'mods.horizontal'"
                                  false;
  cm ← Ok (or_split cm (if horizontal : bool then WSP_HOR else 0));
  cm ← mods_split (field mods "split") cm;
  cm ← OBJ_TO_CMOD_FLAG CMOD_SILENT (field mods "silent") "'mods.silent'" cm;
  cm ← OBJ_TO_CMOD_FLAG CMOD_ERRSILENT (field mods "emsg_silent")
                        "'mods.emsg_silent'" cm;
  cm ← OBJ_TO_CMOD_FLAG CMOD_UNSILENT (field mods "unsilent") "'mods.unsilent'" cm;
  cm ← OBJ_TO_CMOD_FLAG CMOD_SANDBOX (field mods "sandbox") "'mods.sandbox'" cm;
  cm ← OBJ_TO_CMOD_FLAG CMOD_NOAUTOCMD (field mods "noautocmd")
                        "'mods.noautocmd'" cm;
  cm ← OBJ_TO_CMOD_FLAG CMOD_BROWSE (field mods "browse") "'mods.browse'" cm;
  cm ← OBJ_TO_CMOD_FLAG CMOD_CONFIRM (field mods "confirm") "'mods.confirm'" cm;
  cm ← OBJ_TO_CMOD_FLAG CMOD_HIDE (field mods "hide") "'mods.hide'" cm;
  cm ← OBJ_TO_CMOD_FLAG CMOD_KEEPALT (field mods "keepalt") "'mods.keepalt'" cm;
  cm ← OBJ_TO_CMOD_FLAG CMOD_KEEPJUMPS (field mods "keepjumps")
                        "'mods.keepjumps'" cm;
  cm ← OBJ_TO_CMOD_FLAG CMOD_KEEPMARKS (field mods "keepmarks")
                        "'mods.keepmarks'" cm;
  cm ← OBJ_TO_CMOD_FLAG CMOD_KEEPPATTERNS (field mods "keeppatterns")
                        "'mods.keeppatterns'" cm;
  cm ← OBJ_TO_CMOD_FLAG CMOD_LOCKMARKS (field mods "lockmarks")
                        "'mods.lockmarks'" cm;
  cm ← OBJ_TO_CMOD_FLAG CMOD_NOSWAPFILE (field mods "noswapfile")
                        "'mods.noswapfile'" cm;
  let cm := errsilent_implies_silent cm in
  if has (cmod_flags cm) CMOD_SANDBOX && negb (has (argt ea) EX_SBOXOK)
  then VALIDATION_ERROR "Command cannot be run in sandbox"
  else Ok cm.

Definition cmd_mods (ed : editor) (ea : exarg_T) (m : Object) (cm : cmdmod_T)
  : Result cmdmod_T :=
  if HAS_KEY m then
    match m with
    | DICTIONARY_OBJ items =>
        mods ← api_dict_to_keydict cmd_mods_keys ∅ items;
        cmd_mods_fields ed ea mods cm
    | _ => VALIDATION_ERROR "'mods' must be a Dictionary"
    end
  else Ok cm.

(** ** [build_cmdline_str] (lines 760-889) *)

Definition APPEND_IF (cond : bool) (str : string) : list string :=
  if cond then [str] else [].

(** "Add command modifiers": the pieces appended to [cmdline], in order:
    [tab], [verbose], the silence modifier, then the others. *)
Definition cmdline_tab (cm : cmdmod_T) : list string :=
  APPEND_IF (negb (cmod_tab cm =? 0)) (decimal (to_int (cmod_tab cm - 1)) +:+ "tab ").

Definition cmdline_verbose (cm : cmdmod_T) : list string :=
  APPEND_IF (0 <? cmod_verbose cm)
            (decimal (to_int (cmod_verbose cm - 1)) +:+ "verbose ").

Definition cmdline_silent (cm : cmdmod_T) : list string :=
  if has (cmod_flags cm) CMOD_ERRSILENT then ["silent! "]
  else if has (cmod_flags cm) CMOD_SILENT then ["silent "]
  else [].

Definition cmdline_other_mods (cm : cmdmod_T) : list string :=
  let flags := cmod_flags cm in
  let split := cmod_split cm in
  let dir := Z.land split (Z.lor WSP_ABOVE (Z.lor WSP_BELOW (Z.lor WSP_TOP WSP_BOT))) in
  APPEND_IF (has flags CMOD_UNSILENT) "unsilent "
  ++ (if dir =? WSP_ABOVE then ["aboveleft "]
      else if dir =? WSP_BELOW then ["belowright "]
      else if dir =? WSP_TOP then ["topleft "]
      else if dir =? WSP_BOT then ["botright "]
      else [])
  ++ APPEND_IF (has split WSP_VERT) "vertical "
  ++ APPEND_IF (has split WSP_HOR) "horizontal "
  ++ APPEND_IF (has flags CMOD_SANDBOX) "sandbox "
  ++ APPEND_IF (has flags CMOD_NOAUTOCMD) "noautocmd "
  ++ APPEND_IF (has flags CMOD_BROWSE) "browse "
  ++ APPEND_IF (has flags CMOD_CONFIRM) "confirm "
  ++ APPEND_IF (has flags CMOD_HIDE) "hide "
  ++ APPEND_IF (has flags CMOD_KEEPALT) "keepalt "
  ++ APPEND_IF (has flags CMOD_KEEPJUMPS) "keepjumps "
  ++ APPEND_IF (has flags CMOD_KEEPMARKS) "keepmarks "
  ++ APPEND_IF (has flags CMOD_KEEPPATTERNS) "keeppatterns "
  ++ APPEND_IF (has flags CMOD_LOCKMARKS) "lockmarks "
  ++ APPEND_IF (has flags CMOD_NOSWAPFILE) "noswapfile ".

Definition cmdline_mods (cm : cmdmod_T) : list string :=
  cmdline_tab cm ++ cmdline_verbose cm ++ cmdline_silent cm ++ cmdline_other_mods cm.

(** [kv_concat] of each piece in turn. *)
Definition kv_concat_all (pieces : list string) : string :=
  fold_right String.append EmptyString pieces.

(** "Command range / count". *)
Definition cmdline_range (ea : exarg_T) : string :=
  if has (argt ea) EX_RANGE then
    if addr_count ea =? 1 then decimal (line2 ea)
    else if 1 <? addr_count ea
    then decimal (line1 ea) +:+ "," +:+ decimal (line2 ea)
    else EmptyString
  else EmptyString.

(** The command name, the bang and the register. *)
Definition cmdline_name (ea : exarg_T) : string :=
  cstr_at (cmd ea)
  +:+ (if has (argt ea) EX_BANG && forceit ea then "!" else EmptyString)
  +:+ (if has (argt ea) EX_REGSTR && negb (Ascii.eqb (regname ea) NUL)
       then String " " (String (regname ea) EmptyString) else EmptyString).

(** The first loop over the arguments: a space, then the argument. *)
Definition cmdline_args (a : list string) : string :=
  kv_concat_all (map (fun s => " " +:+ s) a).

(** The whole text appended to [cmdline], before the final NUL. *)
Definition cmdline_text (ea : exarg_T) (cmdinfo : CmdParseInfo) (a : list string)
  : string :=
  (kv_concat_all (cmdline_mods (cmdmod cmdinfo)) +:+ cmdline_range ea)
  +:+ cmdline_name ea +:+ cmdline_args a.

(** The second loop: [offset++; eap->args[i] = cmdline.items + offset;
    offset += eap->arglens[i]]. *)
Fixpoint arg_ptrs (cmdline : string) (offset : nat) (lens : list nat)
  : list charptr :=
  match lens with
  | [] => []
  | len :: rest =>
      ptr cmdline (S offset) :: arg_ptrs cmdline (S offset + len)%nat rest
  end.

Definition build_cmdline_str (ed : editor) (ea : exarg_T) (cmdinfo : CmdParseInfo)
    (a : list string) : string * exarg_T :=
  let cmdline := cmdline_text ea cmdinfo a in
  let cmdname_idx :=
    String.length (kv_concat_all (cmdline_mods (cmdmod cmdinfo)) +:+ cmdline_range ea) in
  let argstart_idx :=
    String.length ((kv_concat_all (cmdline_mods (cmdmod cmdinfo)) +:+ cmdline_range ea)
                   +:+ cmdline_name ea) in
  let ea :=
    if has (argt ea) EX_RANGE && (1 <? addr_count ea)
    then with_addr_count ea 2 else ea in
  let lens := map String.length a in
  let ps := arg_ptrs cmdline argstart_idx lens in
  let first :=
    match ps with
    | p :: _ => p
    | [] => ptr cmdline (String.length cmdline)
    end in
  let ea := with_layout ea (ptr cmdline cmdname_idx) first ps lens (length a) in
  match replace_makeprg ed ea cmdline with
  | None => (cmdline, ea)
  | Some (p, cmdline') => (cmdline', with_layout ea (cmd ea) p [] [] 0)
  end.

(** ** [nvim_cmd] up to the call of [execute_cmd] *)

Record validated := mk_validated {
  v_output : bool;
  v_ea : exarg_T;
  v_cmdinfo : CmdParseInfo;
  v_args : list string
}.

(** Lines 359-672: every check of [nvim_cmd]; an error is a [goto end] that
    skips [build_cmdline_str] and the execution. *)
Definition nvim_cmd_validate (ed : editor) (c : Dict_cmd) (opts_output : Object)
  : Result validated :=
  output ← api_object_to_bool opts_output "'output'" false;
  cmdname ← cmd_name (k_cmd c);
  ea ← resolve_cmd ed cmdname;
  a ← cmd_args (argt ea) (k_args c);
  ea ← Ok (with_addr_type ea (set_cmd_addr_type ed ea (head a)));
  ea ← cmd_range ed ea (k_range c);
  ea ← Ok (default_range ed ea);
  ea ← cmd_count ed ea (k_count c);
  ea ← cmd_reg ed ea (k_reg c);
  ea ← cmd_bang ea (k_bang c);
  '(ea, mg) ← cmd_magic ea (k_magic c);
  cm ← cmd_mods ed ea (k_mods c) cmdmod_clear;
  Ok (mk_validated output ea (mk_cmdinfo cm mg) a).

Record prepared := mk_prepared {
  p_output : bool;
  p_ea : exarg_T;
  p_cmdinfo : CmdParseInfo;
  p_cmdline : string
}.

(** [nvim_cmd] from its entry to line 677, where [ea.cmdlinep] is set and the
    command is ready for [execute_cmd]. *)
Definition nvim_cmd (ed : editor) (c : Dict_cmd) (opts_output : Object)
  : Result prepared :=
  v ← nvim_cmd_validate ed c opts_output;
  let '(cmdline, ea) := build_cmdline_str ed (v_ea v) (v_cmdinfo v) (v_args v) in
  Ok (mk_prepared (v_output v) ea (v_cmdinfo v) cmdline).

(** ** User commands ([usercmd.h]) and the state of the registry *)

(** The completion kinds [create_user_command] names, and the others. *)
Inductive expand_T :=
| EXPAND_NOTHING
| EXPAND_USER_LUA
| EXPAND_kind (n : nat).

Record ucmd_T := mk_ucmd {
  uc_name : string;
  uc_argt : Z;
  uc_rep : string;
  uc_def : Z;
  uc_compl : expand_T;
  uc_addr_type : cmd_addr_T;
  uc_compl_arg : option string;
  uc_compl_luaref : option Z;
  uc_preview_luaref : option Z;
  uc_luaref : option Z
}.

(** The global table [ucmds], the table [b_ucmds] of every buffer by handle,
    and the handle of [curbuf]. *)
Record nvim_state := mk_state {
  ucmds : list ucmd_T;
  b_ucmds : gmap Z (list ucmd_T);
  curbuf : Z
}.

(** ** [nvim_parse_cmd] (lines 97-295)

    The tokenizer [parse_cmdline] and the splitter [uc_split_args_iter] belong
    to other files. *)

Record tokenizer := {
  (** [parse_cmdline(cmdline, &ea, &cmdinfo, &errormsg)]: the parsed command,
      or the error message (if any) when it fails. *)
  parse_cmdline : string -> (exarg_T * CmdParseInfo) + option string;
  (** [uc_split_args_iter(arg, arglen, &end, buf, &len)]: the result and the
      new [end], [buf] and [len]. *)
  uc_split_args_iter :
    string -> nat -> nat -> string -> nat -> bool * (nat * string * nat);
  (** [get_command_name(NULL, idx)]. *)
  get_command_name : cmdidx_T -> string
}.

Fixpoint string_take (n : nat) (s : string) : string :=
  match n, s with
  | S n', String c rest => String c (string_take n' rest)
  | _, _ => EmptyString
  end.

(** Modelled from the spec: [cstrn_to_string] lives in
    [api/private/helpers.c]: the bytes of [str] up to [maxsize] or to its first
    NUL. *)
Definition cstrn_to_string (str : string) (maxsize : nat) : string :=
  cstr (string_take maxsize str).

(** The loop [while (!done)] of lines 138-143, run for at most [fuel] turns;
    [None] when the turns do not suffice. *)
Fixpoint split_args (tk : tokenizer) (fuel : nat) (arg : string) (length : nat)
    (e : nat) (buf : string) (len : nat) : option (list string) :=
  match fuel with
  | O => None
  | S fuel' =>
      let '(done, (e', buf', len')) := uc_split_args_iter tk arg length e buf len in
      let added := if (0 <? len')%nat then [cstrn_to_string buf' len'] else [] in
      if done then Some added
      else
        match split_args tk fuel' arg length e' buf' len' with
        | Some rest => Some (added ++ rest)
        | None => None
        end
  end.

(** [xcalloc(length, sizeof(char))]. *)
Fixpoint zeroed (n : nat) : string :=
  match n with
  | O => EmptyString
  | S n' => String NUL (zeroed n')
  end.

(** "Parse arguments" (lines 122-146). *)
Definition parse_args (tk : tokenizer) (fuel : nat) (ea : exarg_T)
  : option (list string) :=
  let text := cstr_at (arg ea) in
  let length := String.length text in
  if has (argt ea) EX_NOSPC then
    if negb (Ascii.eqb (first_char text) NUL)
    then Some [cstrn_to_string text length]
    else Some []
  else split_args tk fuel text length 0 (zeroed length) 0.

(** The user command behind [ea], [None] for [cmd == NULL]. *)
Definition parsed_ucmd (st : nvim_state) (ea : exarg_T) : option ucmd_T :=
  match cmdidx ea with
  | CMD_USER => ucmds st !! Z.to_nat (useridx ea)
  | CMD_USER_BUF =>
      default [] (b_ucmds st !! curbuf st) !! Z.to_nat (useridx ea)
  | _ => None
  end.

Definition addr_name (t : cmd_addr_T) : string :=
  match t with
  | ADDR_LINES => "line"
  | ADDR_ARGUMENTS => "arg"
  | ADDR_BUFFERS => "buf"
  | ADDR_LOADED_BUFFERS => "load"
  | ADDR_WINDOWS => "win"
  | ADDR_TABS => "tab"
  | ADDR_QUICKFIX => "qf"
  | ADDR_NONE => "none"
  | _ => "?"
  end.

Definition split_name (split : Z) : string :=
  if has split WSP_BOT then "botright"
  else if has split WSP_TOP then "topleft"
  else if has split WSP_BELOW then "belowright"
  else if has split WSP_ABOVE then "aboveleft"
  else EmptyString.

(** The dictionary "mods" of the result (lines 242-284). *)
Definition parsed_mods (cm : cmdmod_T) : list (string * Object) :=
  let flag m := BOOLEAN_OBJ (has (cmod_flags cm) m) in
  [ ("filter",
     DICTIONARY_OBJ
       [ ("pattern", STRING_OBJ (default EmptyString (cmod_filter_pat cm)));
         ("force", BOOLEAN_OBJ (cmod_filter_force cm)) ]);
    ("silent", flag CMOD_SILENT);
    ("emsg_silent", flag CMOD_ERRSILENT);
    ("unsilent", flag CMOD_UNSILENT);
    ("sandbox", flag CMOD_SANDBOX);
    ("noautocmd", flag CMOD_NOAUTOCMD);
    ("tab", INTEGER_OBJ (cmod_tab cm - 1));
    ("verbose", INTEGER_OBJ (cmod_verbose cm - 1));
    ("browse", flag CMOD_BROWSE);
    ("confirm", flag CMOD_CONFIRM);
    ("hide", flag CMOD_HIDE);
    ("keepalt", flag CMOD_KEEPALT);
    ("keepjumps", flag CMOD_KEEPJUMPS);
    ("keepmarks", flag CMOD_KEEPMARKS);
    ("keeppatterns", flag CMOD_KEEPPATTERNS);
    ("lockmarks", flag CMOD_LOCKMARKS);
    ("noswapfile", flag CMOD_NOSWAPFILE);
    ("vertical", BOOLEAN_OBJ (has (cmod_split cm) WSP_VERT));
    ("horizontal", BOOLEAN_OBJ (has (cmod_split cm) WSP_HOR));
    ("split", STRING_OBJ (split_name (cmod_split cm))) ].

(** The result dictionary once the line is tokenized and its arguments are
    split (lines 148-289). *)
Definition parsed_dict (st : nvim_state) (tk : tokenizer) (ea : exarg_T)
    (cmdinfo : CmdParseInfo) (a : list string) : list (string * Object) :=
  let ucmd := parsed_ucmd st ea in
  [ ("cmd", STRING_OBJ (match ucmd with
                        | Some u => uc_name u
                        | None => get_command_name tk (cmdidx ea)
                        end)) ]
  ++ (if has (argt ea) EX_RANGE
      then [ ("range",
              ARRAY_OBJ
                (if 0 <? addr_count ea
                 then (if 1 <? addr_count ea then [INTEGER_OBJ (line1 ea)] else [])
                      ++ [INTEGER_OBJ (line2 ea)]
                 else [])) ]
      else [])
  ++ (if has (argt ea) EX_COUNT
      then [ ("count",
              INTEGER_OBJ
                (if 0 <? addr_count ea then line2 ea
                 else match ucmd with
                      | Some u => uc_def u
                      | None => 0
                      end)) ]
      else [])
  ++ (if has (argt ea) EX_REGSTR
      then [ ("reg", STRING_OBJ (cstr (String (regname ea) EmptyString))) ]
      else [])
  ++ [ ("bang", BOOLEAN_OBJ (forceit ea));
       ("args", ARRAY_OBJ (map STRING_OBJ a));
       ("nargs", STRING_OBJ (nargs_char (arity_of (argt ea))));
       ("addr", STRING_OBJ (addr_name (addr_type ea)));
       ("nextcmd", STRING_OBJ (nextcmd ea));
       ("mods", DICTIONARY_OBJ (parsed_mods (cmdmod cmdinfo)));
       ("magic",
        DICTIONARY_OBJ [ ("file", BOOLEAN_OBJ (magic_file (magic cmdinfo)));
                         ("bar", BOOLEAN_OBJ (magic_bar (magic cmdinfo))) ]) ].

(** [nvim_parse_cmd]; the outer [option] is [None] when [fuel] turns of the
    splitting loop do not suffice. *)
Definition nvim_parse_cmd (st : nvim_state) (tk : tokenizer) (fuel : nat)
    (str : string) (opts : list (string * Object))
  : option (Result (list (string * Object))) :=
  if (0 <? length opts)%nat
  then Some (VALIDATION_ERROR "opts dict isn't empty")
  else
    match parse_cmdline tk (cstr str) with
    | inr (Some errormsg) =>
        Some (Err (api_set_error kErrorTypeException
                     ("Error while parsing command line: " +:+ errormsg)))
    | inr None =>
        Some (Err (api_set_error kErrorTypeException
                     "Error while parsing command line"))
    | inl (ea, cmdinfo) =>
        match parse_args tk fuel ea with
        | Some a => Some (Ok (parsed_dict st tk ea cmdinfo a))
        | None => None
        end
    end.

(** ** The registry: [create_user_command] (lines 1004-1207) *)

(** The options [Dict(user_command)]. *)
Record Dict_user_command := mk_user_command {
  o_addr : Object;
  o_bang : Object;
  o_bar : Object;
  o_complete : Object;
  o_count : Object;
  o_desc : Object;
  o_force : Object;
  o_keepscript : Object;
  o_nargs : Object;
  o_preview : Object;
  o_range : Object;
  o_register_ : Object
}.

(** Functions of [usercmd.c], [mbyte.c] and the Lua executor that
    [create_user_command] calls. *)
Record definer := {
  uc_validate_name : string -> bool;
  mb_islower : ascii -> bool;
  (** [parse_addr_type_arg(value, vallen, &addr_type_arg)]: the address type it
      stores, [None] for [FAIL]. *)
  parse_addr_type_arg : string -> option cmd_addr_T;
  (** [parse_compl_arg(value, vallen, &compl, &argt, &compl_arg)]: what it
      stores in [compl], [argt] and [compl_arg], [None] for [FAIL]. *)
  parse_compl_arg : string -> Z -> option (expand_T * Z * option string);
  api_new_luaref : Z -> Z
}.

(** Modelled from the spec: the flag of a buffer-local definition
    ([usercmd.h]). *)
Definition UC_BUFFER : Z := 1.

(** The table a definition with these [flags] goes to. *)
Definition uc_table (st : nvim_state) (flags : Z) : list ucmd_T :=
  if has flags UC_BUFFER then default [] (b_ucmds st !! curbuf st) else ucmds st.

Definition set_uc_table (st : nvim_state) (flags : Z) (t : list ucmd_T)
  : nvim_state :=
  if has flags UC_BUFFER
  then mk_state (ucmds st) (<[curbuf st := t]> (b_ucmds st)) (curbuf st)
  else mk_state t (b_ucmds st) (curbuf st).

(** The entry of [t] named [name], replaced by [u]; [None] when no entry has
    that name. *)
Fixpoint uc_replace (t : list ucmd_T) (name : string) (u : ucmd_T)
  : option (list ucmd_T) :=
  match t with
  | [] => None
  | x :: rest =>
      if String.eqb (uc_name x) name then Some (u :: rest)
      else
        match uc_replace rest name u with
        | Some rest' => Some (x :: rest')
        | None => None
        end
  end.

Definition uc_find (t : list ucmd_T) (name : string) : option ucmd_T :=
  List.find (fun x => String.eqb (uc_name x) name) t.

(** Modelled from the spec: [uc_add_command] lives in [usercmd.c].  The spec
    has [define(entry, force)] fail when the name collides and [force] is
    false, overwrite the entry when it collides and [force] is true, and add
    the entry after the others of its scope when the name is new.  [None] is
    [FAIL]. *)
Definition uc_add_command (st : nvim_state) (name : string) (rep : string)
    (argt : Z) (def : Z) (flags : Z) (compl : expand_T)
    (compl_arg : option string) (compl_luaref preview_luaref : option Z)
    (addr_type : cmd_addr_T) (luaref : option Z) (force : bool)
  : option nvim_state :=
  let u := mk_ucmd name argt rep def compl addr_type compl_arg compl_luaref
                   preview_luaref luaref in
  let t := uc_table st flags in
  match uc_replace t name u with
  | Some t' => if force then Some (set_uc_table st flags t') else None
  | None => Some (set_uc_table st flags (t ++ [u]))
  end.

(** What the option checks of [create_user_command] compute for
    [uc_add_command]. *)
Record uc_request := mk_request {
  r_rep : string;
  r_argt : Z;
  r_def : Z;
  r_compl : expand_T;
  r_compl_arg : option string;
  r_compl_luaref : option Z;
  r_preview_luaref : option Z;
  r_addr_type : cmd_addr_T;
  r_luaref : option Z;
  r_force : bool
}.

Definition opt_nargs (nargs : Object) (argt : Z) : Result Z :=
  match nargs with
  | INTEGER_OBJ i =>
      if i =? 0 then Ok argt
      else if i =? 1 then Ok (Z.lor argt (Z.lor EX_EXTRA (Z.lor EX_NOSPC EX_NEEDARG)))
      else VALIDATION_ERROR "Invalid value for 'nargs'"
  | STRING_OBJ s =>
      if (1 <? String.length s)%nat then VALIDATION_ERROR "Invalid value for 'nargs'"
      else if Ascii.eqb (first_char s) "*"%char then Ok (Z.lor argt EX_EXTRA)
      else if Ascii.eqb (first_char s) "?"%char
      then Ok (Z.lor argt (Z.lor EX_EXTRA EX_NOSPC))
      else if Ascii.eqb (first_char s) "+"%char
      then Ok (Z.lor argt (Z.lor EX_EXTRA EX_NEEDARG))
      else VALIDATION_ERROR "Invalid value for 'nargs'"
  | NIL => Ok argt
  | _ => VALIDATION_ERROR "Invalid value for 'nargs'"
  end.

(** The [range] option: the new [argt], [def] and [addr_type_arg]. *)
Definition opt_range (range : Object) (argt def : Z) (addr : cmd_addr_T)
  : Result (Z * Z * cmd_addr_T) :=
  match range with
  | BOOLEAN_OBJ b =>
      if b then Ok (Z.lor argt EX_RANGE, def, ADDR_LINES) else Ok (argt, def, addr)
  | STRING_OBJ s =>
      if Ascii.eqb (first_char s) "%"%char && (String.length s =? 1)%nat
      then Ok (Z.lor argt (Z.lor EX_RANGE EX_DFLALL), def, ADDR_LINES)
      else VALIDATION_ERROR "Invalid value for 'range'"
  | INTEGER_OBJ i => Ok (Z.lor argt (Z.lor EX_RANGE EX_ZEROR), i, ADDR_LINES)
  | NIL => Ok (argt, def, addr)
  | _ => VALIDATION_ERROR "Invalid value for 'range'"
  end.

(** The [count] option (lines 1096-1109). *)
Definition opt_count (count : Object) (argt def : Z) (addr : cmd_addr_T)
  : Result (Z * Z * cmd_addr_T) :=
  let counted := Z.lor argt (Z.lor EX_COUNT (Z.lor EX_ZEROR EX_RANGE)) in
  match count with
  | BOOLEAN_OBJ b =>
      if b then Ok (counted, 0, ADDR_OTHER) else Ok (argt, def, addr)
  | INTEGER_OBJ i => Ok (counted, i, ADDR_OTHER)
  | NIL => Ok (argt, def, addr)
  | _ => VALIDATION_ERROR "Invalid value for 'count'"
  end.

Definition opt_addr (df : definer) (addr_opt : Object) (argt : Z)
    (addr : cmd_addr_T) : Result (Z * cmd_addr_T) :=
  match addr_opt with
  | STRING_OBJ s =>
      match parse_addr_type_arg df s with
      | Some a =>
          if bool_decide (a <> ADDR_LINES) then Ok (Z.lor argt EX_ZEROR, a)
          else Ok (argt, a)
      | None => VALIDATION_ERROR "Invalid value for 'addr'"
      end
  | NIL => Ok (argt, addr)
  | _ => VALIDATION_ERROR "Invalid value for 'addr'"
  end.

(** [if (api_object_to_bool(o, what, false, err)) argt |= flag;
    else if (ERROR_SET(err)) goto err;]. *)
Definition opt_flag (o : Object) (what : string) (flag : Z) (argt : Z) : Result Z :=
  b ← api_object_to_bool o what false;
  Ok (if b : bool then Z.lor argt flag else argt).

Definition opt_complete (df : definer) (complete : Object) (argt : Z)
  : Result (expand_T * Z * option string * option Z) :=
  match complete with
  | LUAREF_OBJ r => Ok (EXPAND_USER_LUA, argt, None, Some (api_new_luaref df r))
  | STRING_OBJ s =>
      match parse_compl_arg df s argt with
      | Some (compl, argt', compl_arg) => Ok (compl, argt', compl_arg, None)
      | None => VALIDATION_ERROR "Invalid value for 'complete'"
      end
  | NIL => Ok (EXPAND_NOTHING, argt, None, None)
  | _ => VALIDATION_ERROR "Invalid value for 'complete'"
  end.

Definition opt_preview (df : definer) (preview : Object) (argt : Z)
  : Result (Z * option Z) :=
  match preview with
  | LUAREF_OBJ r => Ok (Z.lor argt EX_PREVIEW, Some (api_new_luaref df r))
  | NIL => Ok (argt, None)
  | _ => VALIDATION_ERROR "Invalid value for 'preview'"
  end.

(** The switch on [command.type]: [luaref] and [rep]. *)
Definition opt_command (df : definer) (command desc : Object)
  : Result (option Z * string) :=
  match command with
  | LUAREF_OBJ r =>
      Ok (Some (api_new_luaref df r),
          match desc with
          | STRING_OBJ d => cstr d
          | _ => EmptyString
          end)
  | STRING_OBJ s => Ok (None, cstr s)
  | _ => VALIDATION_ERROR "'command' must be a string or Lua function"
  end.

(** Lines 1017-1193: every check before the call of [uc_add_command]; an error
    is a [goto err]. *)
Definition create_user_command_request (df : definer) (name : string)
    (command : Object) (opts : Dict_user_command) : Result uc_request :=
  if negb (uc_validate_name df (cstr name))
  then VALIDATION_ERROR "Invalid command name"
  else if mb_islower df (first_char name)
  then VALIDATION_ERROR "'name' must begin with an uppercase letter"
  else if HAS_KEY (o_range opts) && HAS_KEY (o_count opts)
  then VALIDATION_ERROR "'range' and 'count' are mutually exclusive"
  else
    argt ← opt_nargs (o_nargs opts) 0;
    if HAS_KEY (o_complete opts) && (argt =? 0)
    then VALIDATION_ERROR "'complete' used without 'nargs'"
    else
      '(argt, def, addr) ← opt_range (o_range opts) argt (-1) ADDR_NONE;
      '(argt, def, addr) ← opt_count (o_count opts) argt def addr;
      '(argt, addr) ← opt_addr df (o_addr opts) argt addr;
      argt ← opt_flag (o_bang opts) "bang" EX_BANG argt;
      argt ← opt_flag (o_bar opts) "bar" EX_TRLBAR argt;
      argt ← opt_flag (o_register_ opts) "register" EX_REGSTR argt;
      argt ← opt_flag (o_keepscript opts) "keepscript" EX_KEEPSCRIPT argt;
      force ← api_object_to_bool (o_force opts) "force" true;
      '(compl, argt, compl_arg, compl_luaref) ←
        opt_complete df (o_complete opts) argt;
      '(argt, preview_luaref) ← opt_preview df (o_preview opts) argt;
      '(luaref, rep) ← opt_command df command (o_desc opts);
      Ok (mk_request rep argt def compl compl_arg compl_luaref preview_luaref
                     addr luaref force).

(** [create_user_command]: the new state and the error, if any. *)
Definition create_user_command (df : definer) (st : nvim_state) (name : string)
    (command : Object) (opts : Dict_user_command) (flags : Z)
  : nvim_state * option Error :=
  match create_user_command_request df name command opts with
  | Err e => (st, Some e)
  | Ok r =>
      match uc_add_command st (cstr name) (r_rep r) (r_argt r) (r_def r) flags
                           (r_compl r) (r_compl_arg r) (r_compl_luaref r)
                           (r_preview_luaref r) (r_addr_type r) (r_luaref r)
                           (r_force r) with
      | Some st' => (st', None)
      | None =>
          (st, Some (api_set_error kErrorTypeException
                       "Failed to create user command"))
      end
  end.

Definition nvim_create_user_command (df : definer) (st : nvim_state)
    (name : string) (command : Object) (opts : Dict_user_command)
  : nvim_state * option Error :=
  create_user_command df st name command opts 0.

(** Modelled from the spec: [find_buffer_by_handle] lives in
    [api/private/helpers.c]: handle 0 is the current buffer, another handle
    must name a buffer, else the validation error "Invalid buffer id". *)
Definition find_buffer_by_handle (st : nvim_state) (buffer : Z) : Result Z :=
  if buffer =? 0 then Ok (curbuf st)
  else if bool_decide (is_Some (b_ucmds st !! buffer)) then Ok buffer
  else VALIDATION_ERROR ("Invalid buffer id: " +:+ decimal buffer).

Definition nvim_buf_create_user_command (df : definer) (st : nvim_state)
    (buffer : Z) (name : string) (command : Object) (opts : Dict_user_command)
  : nvim_state * option Error :=
  match find_buffer_by_handle st buffer with
  | Err e => (st, Some e)
  | Ok target_buf =>
      let save_curbuf := curbuf st in
      let '(st', e) :=
        create_user_command df (mk_state (ucmds st) (b_ucmds st) target_buf)
                            name command opts UC_BUFFER in
      (mk_state (ucmds st') (b_ucmds st') save_curbuf, e)
  end.

(** ** The registry: listing (lines 1208-1252) *)

(** Modelled from the spec: [commands_array] lives in [usercmd.c]:
    [list(scope)] is the sequence of the user command entries of the scope, the
    global table for [NULL], the table of the buffer otherwise. *)
Definition commands_array (st : nvim_state) (buf : option Z) : list ucmd_T :=
  match buf with
  | None => ucmds st
  | Some b => default [] (b_ucmds st !! b)
  end.

(** [nvim_buf_get_commands]: the dictionary returned (here the entries it is
    built from) when no error is set, the error otherwise. *)
Definition nvim_buf_get_commands (st : nvim_state) (buffer : Z) (o_builtin : Object)
  : Result (list ucmd_T) :=
  let global := buffer =? -1 in
  builtin ← api_object_to_bool o_builtin "builtin" false;
  if global then
    if builtin : bool then VALIDATION_ERROR "builtin=true not implemented"
    else Ok (commands_array st None)
  else
    buf ← find_buffer_by_handle st buffer;
    if builtin : bool then Ok []
    else Ok (commands_array st (Some buf)).

Definition nvim_get_commands (st : nvim_state) (o_builtin : Object)
  : Result (list ucmd_T) :=
  nvim_buf_get_commands st (-1) o_builtin.


(** ** The registry: deletion (lines 937-1002) *)

(** The loop of [nvim_buf_del_user_command] (lines 986-999) over the entries
    of [gap]: the first entry whose [uc_name] compares equal to [name.data]
    under [strcmp] is freed and the entries after it are moved down by one;
    [None] when the loop ends without a match. *)
Fixpoint del_ucmd (gap : list ucmd_T) (name : string) : option (list ucmd_T) :=
  match gap with
  | [] => None
  | cmd :: rest =>
      if String.eqb (cstr name) (cstr (uc_name cmd)) then Some rest
      else
        match del_ucmd rest name with
        | Some rest' => Some (cmd :: rest')
        | None => None
        end
  end.

(** [nvim_buf_del_user_command]: the new state and the error, if any.  For a
    [buffer] other than -1 that [find_buffer_by_handle] does not find, [buf] is
    [NULL] and [gap = &buf->b_ucmds] is read: the call has no defined result
    ([None]). *)
Definition nvim_buf_del_user_command (st : nvim_state) (buffer : Z) (name : string)
  : option (nvim_state * option Error) :=
  let no_such :=
    api_set_error kErrorTypeException
                  ("No such user-defined command: " +:+ cstr name) in
  if buffer =? -1 then
    match del_ucmd (ucmds st) name with
    | Some gap' => Some (mk_state gap' (b_ucmds st) (curbuf st), None)
    | None => Some (st, Some no_such)
    end
  else
    match find_buffer_by_handle st buffer with
    | Err _ => None
    | Ok buf =>
        match del_ucmd (default [] (b_ucmds st !! buf)) name with
        | Some gap' =>
            Some (mk_state (ucmds st) (<[buf := gap']> (b_ucmds st)) (curbuf st),
                  None)
        | None => Some (st, Some no_such)
        end
    end.

Definition nvim_del_user_command (st : nvim_state) (name : string)
  : option (nvim_state * option Error) :=
  nvim_buf_del_user_command st (-1) name.

(** * Vocabulary of the properties *)

(** The policy of an arity, in the words of the specification. *)
Definition arity_allows (a : arity) (size : nat) : Prop :=
  match a with
  | exactlyOne => size = 1%nat
  | zeroOrOne => (size <= 1)%nat
  | oneOrMore => (1 <= size)%nat
  | zeroOrMore => True
  | none => size = 0%nat
  end.

(** ** The run of a successful validation

    [validation_run ed c o v] lists the intermediate values of a run of
    [nvim_cmd_validate] that reaches its end: one premise per block of the
    function, in program order. *)

Inductive validation_run (ed : editor) (c : Dict_cmd) (opts_output : Object)
  : validated -> Prop :=
| validation_steps output cmdname ea0 a ea2 ea4 ea5 ea6 ea7 mg cm :
    api_object_to_bool opts_output "'output'" false = Ok output ->
    cmd_name (k_cmd c) = Ok cmdname ->
    resolve_cmd ed cmdname = Ok ea0 ->
    cmd_args (argt ea0) (k_args c) = Ok a ->
    cmd_range ed (with_addr_type ea0 (set_cmd_addr_type ed ea0 (head a)))
              (k_range c) = Ok ea2 ->
    cmd_count ed (default_range ed ea2) (k_count c) = Ok ea4 ->
    cmd_reg ed ea4 (k_reg c) = Ok ea5 ->
    cmd_bang ea5 (k_bang c) = Ok ea6 ->
    cmd_magic ea6 (k_magic c) = Ok (ea7, mg) ->
    cmd_mods ed ea7 (k_mods c) cmdmod_clear = Ok cm ->
    validation_run ed c opts_output (mk_validated output ea7 (mk_cmdinfo cm mg) a).

(** Two states of [ea] with the same command, contract, address type and
    name. *)
Definition same_command (ea ea' : exarg_T) : Prop :=
  cmdidx ea' = cmdidx ea /\ argt ea' = argt ea /\ addr_type ea' = addr_type ea
  /\ cmd ea' = cmd ea.

(** Two states of [ea] with the same range. *)
Definition same_range (ea ea' : exarg_T) : Prop :=
  addr_count ea' = addr_count ea /\ line1 ea' = line1 ea /\ line2 ea' = line2 ea.

(** The caller gives no range: the key is missing or the array is empty. *)
Definition no_explicit_range (range : Object) : Prop :=
  range = NIL \/ range = ARRAY_OBJ [].

(** A contract that treats range and count as mutually exclusive: it does not
    accept both. *)
Definition range_count_exclusive (argt : Z) : Prop :=
  has argt EX_RANGE && has argt EX_COUNT = false.

(** The contract [nvim_cmd] resolves for the descriptor [c], if any. *)
Definition resolved_contract (ed : editor) (c : Dict_cmd) (argt0 : Z) : Prop :=
  exists cmdname ea0,
    cmd_name (k_cmd c) = Ok cmdname /\ resolve_cmd ed cmdname = Ok ea0
    /\ argt ea0 = argt0.

(** ** Modifiers *)

(** The descriptor [c] with its "mods" replaced. *)
Definition with_mods (c : Dict_cmd) (m : Object) : Dict_cmd :=
  mk_cmd (k_cmd c) (k_range c) (k_count c) (k_reg c) (k_bang c) (k_args c)
         (k_magic c) m (k_nargs c) (k_addr c) (k_nextcmd c).

(** Two results related by [R] on success, equal on failure. *)
Definition Result_rel {A} (R : A -> A -> Prop) (r1 r2 : Result A) : Prop :=
  match r1, r2 with
  | Ok a, Ok b => R a b
  | Err e1, Err e2 => e1 = e2
  | _, _ => False
  end.

(** Two key sets that agree on every field but [k]. *)
Definition agree_except (k : string) (m1 m2 : KeyDict) : Prop :=
  forall k', k' <> k -> field m1 k' = field m2 k'.

Definition add_silent (cm : cmdmod_T) : cmdmod_T :=
  with_flags cm (Z.lor (cmod_flags cm) CMOD_SILENT).

(** Modifiers that differ at most in [CMOD_SILENT], both with
    [CMOD_ERRSILENT] when [e] is set. *)
Definition silent_rel (e : bool) (cm1 cm2 : cmdmod_T) : Prop :=
  add_silent cm1 = add_silent cm2
  /\ (e = true -> has (cmod_flags cm1) CMOD_ERRSILENT = true
                  /\ has (cmod_flags cm2) CMOD_ERRSILENT = true).

(** The descriptor says [errorSilent]: its "mods" dictionary converts to a key
    set whose [emsg_silent] reads as true. *)
Definition says_emsg_silent (c : Dict_cmd) (mods : KeyDict) : Prop :=
  exists items,
    k_mods c = DICTIONARY_OBJ items
    /\ api_dict_to_keydict cmd_mods_keys ∅ items = Ok mods
    /\ api_object_to_bool (field mods "emsg_silent") "'mods.emsg_silent'" false
       = Ok true.

(** The descriptor [c] with one more item at the end of its "mods". *)
Definition add_mod (c : Dict_cmd) (k : string) (v : Object) : Dict_cmd :=
  match k_mods c with
  | DICTIONARY_OBJ items => with_mods c (DICTIONARY_OBJ (items ++ [(k, v)]))
  | _ => c
  end.


(** The value of key [k] in a dictionary. *)
Definition dict_get (k : string) (d : list (string * Object)) : option Object :=
  snd <$> List.find (fun kv => String.eqb (fst kv) k) d.

(** The modifier [k] in the result of [nvim_parse_cmd]. *)
Definition parsed_mod (k : string) (d : list (string * Object)) : option Object :=
  match dict_get "mods" d with
  | Some (DICTIONARY_OBJ m) => dict_get k m
  | _ => None
  end.

(** ** Parsed arguments *)

(** The arities for which the whole trailing text is one argument. *)
Definition single_argument (a : arity) : Prop := a = exactlyOne \/ a = zeroOrOne.

(** A contract as the command tables and [create_user_command] build them:
    [EX_NOSPC] only comes with [EX_EXTRA]. *)
Definition nospc_has_extra (argt : Z) : Prop :=
  has argt EX_NOSPC = true -> has argt EX_EXTRA = true.

(** The splitter moves forward: a call that is not the last one returns an
    [end] that is larger and within the text. *)
Definition splitter_advances (tk : tokenizer) (text : string) : Prop :=
  forall e buf len e' buf' len',
    uc_split_args_iter tk text (String.length text) e buf len = (false, (e', buf', len')) ->
    (e < e' <= String.length text)%nat.

(** The segment a call of the splitter contributes: its buffer, when [len] is
    not zero. *)
Definition segment (buf : string) (len : nat) : list string :=
  if (0 <? len)%nat then [cstrn_to_string buf len] else [].

(** [split_run tk text e buf len segs]: iterating the splitter on [text] from
    the state [(e, buf, len)] until it reports the end yields the segments
    [segs], in the order of the calls. *)
Inductive split_run (tk : tokenizer) (text : string)
  : nat -> string -> nat -> list string -> Prop :=
| split_last e buf len e' buf' len' :
    uc_split_args_iter tk text (String.length text) e buf len = (true, (e', buf', len')) ->
    split_run tk text e buf len (segment buf' len')
| split_next e buf len e' buf' len' segs :
    uc_split_args_iter tk text (String.length text) e buf len = (false, (e', buf', len')) ->
    split_run tk text e' buf' len' segs ->
    split_run tk text e buf len (segment buf' len' ++ segs).

(** ** The registry *)

(** The options [opts] with [force] replaced. *)
Definition with_force (opts : Dict_user_command) (f : Object) : Dict_user_command :=
  mk_user_command (o_addr opts) (o_bang opts) (o_bar opts) (o_complete opts)
                  (o_count opts) (o_desc opts) f (o_keepscript opts)
                  (o_nargs opts) (o_preview opts) (o_range opts)
                  (o_register_ opts).

(** The entry a request defines under [name]. *)
Definition entry_of (name : string) (r : uc_request) : ucmd_T :=
  mk_ucmd name (r_argt r) (r_rep r) (r_def r) (r_compl r) (r_addr_type r)
          (r_compl_arg r) (r_compl_luaref r) (r_preview_luaref r) (r_luaref r).

Definition with_r_force (r : uc_request) (b : bool) : uc_request :=
  mk_request (r_rep r) (r_argt r) (r_def r) (r_compl r) (r_compl_arg r)
             (r_compl_luaref r) (r_preview_luaref r) (r_addr_type r)
             (r_luaref r) b.

(** ** Registers, in the words of the specification *)

(** The command is [:put] or a user-defined command. *)
Definition put_or_user (idx : cmdidx_T) : Prop :=
  idx = CMD_put \/ idx = CMD_USER \/ idx = CMD_USER_BUF.

(** The register-validity predicate of a command: [valid_yank_reg], which
    requires a writable register unless the predicate is relaxed. *)
Definition register_valid (ed : editor) (relaxed : bool) (c : ascii) : bool :=
  valid_yank_reg ed c (negb relaxed).

(** A register the command [ea] accepts, and the character it names. *)
Inductive register_accepted (ed : editor) (ea : exarg_T) : Object -> ascii -> Prop :=
| register_one_char c relaxed :
    has (argt ea) EX_REGSTR = true ->
    c <> "="%char ->
    (relaxed = true <-> put_or_user (cmdidx ea)) ->
    register_valid ed relaxed c = true ->
    register_accepted ed ea (STRING_OBJ (String c EmptyString)) c.

(** ** Command arguments, in the words of the specification *)

Fixpoint chars (s : string) : list ascii :=
  match s with
  | EmptyString => []
  | String c rest => c :: chars rest
  end.

(** A string that consists only of whitespace characters. *)
Definition whitespace_only (s : string) : Prop :=
  Forall (fun c => c = " "%char \/ c = "009"%char) (chars s).


(** The string an accepted element becomes. *)
Inductive converted : Object -> string -> Prop :=
| converted_true : converted (BOOLEAN_OBJ true) "1"
| converted_false : converted (BOOLEAN_OBJ false) "0"
| converted_integer i : converted (INTEGER_OBJ i) (decimal i)
| converted_buffer i : converted (BUFFER_OBJ i) (decimal i)
| converted_window i : converted (WINDOW_OBJ i) (decimal i)
| converted_tabpage i : converted (TABPAGE_OBJ i) (decimal i)
| converted_string s : ~ whitespace_only s -> converted (STRING_OBJ s) (cstr s).

(** The integer a decimal numeral denotes. *)
Definition read_decimal (s : string) : option Z :=
  Z.of_int <$> NilZero.int_of_string s.

(** ** An editor to run the model on

    A handful of commands with the flags and address types they have in
    [ex_cmds.lua], a user command [Count] defined with [-count], a buffer of
    100 lines and the cursor on line 7. *)

Module Demo.

Definition commands : list (string * (cmdidx_T * Z * cmd_addr_T)) :=
  [ ("put", (CMD_put,
             Z.lor EX_RANGE (Z.lor EX_BANG (Z.lor EX_REGSTR (Z.lor EX_TRLBAR EX_ZEROR))),
             ADDR_LINES));
    ("edit", (CMD_builtin 1,
              Z.lor EX_BANG (Z.lor EX_EXTRA (Z.lor EX_XFILE (Z.lor EX_NOSPC EX_TRLBAR))),
              ADDR_NONE));
    ("normal", (CMD_builtin 2,
                Z.lor EX_RANGE (Z.lor EX_BANG (Z.lor EX_EXTRA (Z.lor EX_NEEDARG EX_SBOXOK))),
                ADDR_LINES));
    ("wincmd", (CMD_builtin 3,
                Z.lor EX_NEEDARG (Z.lor EX_EXTRA (Z.lor EX_NOSPC (Z.lor EX_RANGE EX_COUNT))),
                ADDR_OTHER));
    ("only", (CMD_builtin 4,
              Z.lor EX_BANG (Z.lor EX_RANGE (Z.lor EX_COUNT EX_TRLBAR)),
              ADDR_WINDOWS));
    ("yank", (CMD_builtin 5,
              Z.lor EX_RANGE (Z.lor EX_REGSTR (Z.lor EX_COUNT (Z.lor EX_TRLBAR EX_SBOXOK))),
              ADDR_LINES));
    ("echo", (CMD_builtin 6, Z.lor EX_EXTRA EX_SBOXOK, ADDR_NONE));
    ("delete", (CMD_builtin 7,
                Z.lor EX_RANGE (Z.lor EX_REGSTR (Z.lor EX_COUNT EX_TRLBAR)),
                ADDR_LINES));
    ("Count", (CMD_USER, Z.lor EX_COUNT (Z.lor EX_ZEROR EX_RANGE), ADDR_OTHER)) ].

Definition by_name (n : string) : option (cmdidx_T * Z * cmd_addr_T) :=
  snd <$> List.find (fun e => String.eqb (fst e) n) commands.

Definition by_index (idx : cmdidx_T) : option (cmdidx_T * Z * cmd_addr_T) :=
  snd <$> List.find (fun e => bool_decide (fst (fst (snd e)) = idx)) commands.

Definition find (ea : exarg_T) : bool * (cmdidx_T * Z * cmd_addr_T * Z) :=
  match by_name (cstr_at (cmd ea)) with
  | Some (idx, flags, addr) =>
      (true,
       (idx, if IS_USER_CMDIDX idx then flags else argt ea,
        if IS_USER_CMDIDX idx then addr else addr_type ea, useridx ea))
  | None => (true, (CMD_SIZE, argt ea, addr_type ea, useridx ea))
  end.

Definition line_count : Z := 100.
Definition cursor : Z := 7.

Definition ed : editor := {|
  find_ex_command := find;
  has_event_CMDUNDEFINED := false;
  apply_autocmds_CMDUNDEFINED := fun _ => false;
  find_ex_command_again := find;
  is_cmd_ni := fun _ => false;
  get_cmd_argt := fun idx =>
    match by_index idx with Some (_, flags, _) => flags | None => 0 end;
  set_cmd_addr_type := fun ea _ =>
    if IS_USER_CMDIDX (cmdidx ea) then addr_type ea
    else match by_index (cmdidx ea) with Some (_, _, a) => a | None => ADDR_LINES end;
  invalid_range := fun ea => (line_count <? line2 ea) || (line2 ea <? line1 ea);
  set_cmd_dflall_range := fun _ => (1, line_count);
  get_cmd_default_range := fun ea =>
    match addr_type ea with
    | ADDR_LINES | ADDR_OTHER => cursor
    | _ => 1
    end;
  set_cmd_count := fun ea count =>
    if bool_decide (addr_type ea <> ADDR_LINES)
    then (line1 ea, count, if addr_count ea =? 0 then 1 else addr_count ea)
    else (line2 ea, Z.min (line2 ea + count - 1) line_count, addr_count ea + 1);
  valid_yank_reg := fun c writing =>
    let n := Z.of_nat (nat_of_ascii c) in
    ((97 <=? n) && (n <=? 122)) || ((48 <=? n) && (n <=? 57))
    || (negb writing && Ascii.eqb c ":"%char);
  vim_regcomp := fun _ => Some 1;
  replace_makeprg := fun _ _ => None
|}.

(** A descriptor with only the command name. *)
Definition just (name : string) : Dict_cmd :=
  mk_cmd (STRING_OBJ name) NIL NIL NIL NIL NIL NIL NIL NIL NIL NIL.

Definition with_args (c : Dict_cmd) (a : Object) : Dict_cmd :=
  mk_cmd (k_cmd c) (k_range c) (k_count c) (k_reg c) (k_bang c) a (k_magic c)
         (k_mods c) (k_nargs c) (k_addr c) (k_nextcmd c).

Definition with_range (c : Dict_cmd) (r : Object) : Dict_cmd :=
  mk_cmd (k_cmd c) r (k_count c) (k_reg c) (k_bang c) (k_args c) (k_magic c)
         (k_mods c) (k_nargs c) (k_addr c) (k_nextcmd c).

Definition with_count (c : Dict_cmd) (n : Object) : Dict_cmd :=
  mk_cmd (k_cmd c) (k_range c) n (k_reg c) (k_bang c) (k_args c) (k_magic c)
         (k_mods c) (k_nargs c) (k_addr c) (k_nextcmd c).

Definition with_reg (c : Dict_cmd) (r : Object) : Dict_cmd :=
  mk_cmd (k_cmd c) (k_range c) (k_count c) r (k_bang c) (k_args c) (k_magic c)
         (k_mods c) (k_nargs c) (k_addr c) (k_nextcmd c).



Definition two_args : list Object := [STRING_OBJ "a"; STRING_OBJ "b"].

Definition wincmd_two : Dict_cmd := with_args (just "wincmd") (ARRAY_OBJ two_args).

Definition only_one : Dict_cmd := with_args (just "only") (ARRAY_OBJ [STRING_OBJ "x"]).

Definition put_colon : Dict_cmd := with_reg (just "put") (STRING_OBJ ":").

Definition put_range_count : Dict_cmd :=
  with_count (with_range (just "put") (ARRAY_OBJ [INTEGER_OBJ 3])) (INTEGER_OBJ 2).

Definition yank_range_count : Dict_cmd :=
  with_count (with_range (just "yank") (ARRAY_OBJ [INTEGER_OBJ 3])) (INTEGER_OBJ 2).

Definition mods_of (items : list (string * Object)) : KeyDict :=
  match api_dict_to_keydict cmd_mods_keys ∅ items with
  | Ok m => m
  | Err _ => ∅
  end.

Definition errsilent_items : list (string * Object) :=
  [("emsg_silent", BOOLEAN_OBJ true); ("silent", BOOLEAN_OBJ false);
   ("tab", INTEGER_OBJ 1); ("unsilent", BOOLEAN_OBJ true)].

Definition echo_errsilent : Dict_cmd :=
  mk_cmd (STRING_OBJ "echo") NIL NIL NIL NIL (ARRAY_OBJ [STRING_OBJ "1"]) NIL
         (DICTIONARY_OBJ errsilent_items) NIL NIL NIL.

Definition minus_one_items : list (string * Object) :=
  [("tab", INTEGER_OBJ (-1)); ("verbose", INTEGER_OBJ (-1))].

Definition echo_minus_one : Dict_cmd :=
  mk_cmd (STRING_OBJ "echo") NIL NIL NIL NIL (ARRAY_OBJ [STRING_OBJ "1"]) NIL
         (DICTIONARY_OBJ minus_one_items) NIL NIL NIL.

(** A tokenizer for lines without modifiers, range, bang or register: the name
    up to the first space, then the arguments; the splitter cuts at spaces. *)
Fixpoint span_word (s : string) : string * string :=
  match s with
  | EmptyString => (EmptyString, EmptyString)
  | String c rest =>
      if ascii_iswhite c then (EmptyString, s)
      else let '(w, r) := span_word rest in (String c w, r)
  end.

Fixpoint skip_white (s : string) : nat * string :=
  match s with
  | EmptyString => (0%nat, EmptyString)
  | String c rest =>
      if ascii_iswhite c then let '(n, r) := skip_white rest in (S n, r)
      else (0%nat, s)
  end.

Definition parse (line : string) : (exarg_T * CmdParseInfo) + option string :=
  let '(n, rest) := skip_white line in
  let '(name, tail) := span_word rest in
  let '(m, text) := skip_white tail in
  match by_name name with
  | Some (idx, flags, addr) =>
      inl (mk_exarg (ptr line (n + String.length name + m)) [] [] 0 EmptyString
                    (ptr line n) idx flags false 0 0 0 addr NUL 0,
           mk_cmdinfo cmdmod_clear (mk_magic (has flags EX_XFILE) (has flags EX_TRLBAR)))
  | None => inr (Some ("E492: Not an editor command: " +:+ line))
  end.

Definition split_iter (a : string) (arglen e : nat) (buf : string) (len : nat)
  : bool * (nat * string * nat) :=
  if (arglen =? 0)%nat then (true, (e, buf, len))
  else
    let '(n, rest) := skip_white (string_drop e a) in
    let '(w, tail) := span_word rest in
    match tail with
    | EmptyString => (true, (e, w, String.length w))
    | _ => (false, ((e + n + String.length w)%nat, w, String.length w))
    end.

Definition tk : tokenizer := {|
  parse_cmdline := parse;
  uc_split_args_iter := split_iter;
  get_command_name := fun idx =>
    match List.find (fun e => bool_decide (fst (fst (snd e)) = idx)) commands with
    | Some (n, _) => n
    | None => EmptyString
    end
|}.

Definition st : nvim_state := mk_state [] ∅ 1.

Definition is_lower (c : ascii) : bool :=
  let n := Z.of_nat (nat_of_ascii c) in (97 <=? n) && (n <=? 122).

Definition df : definer := {|
  uc_validate_name := fun n =>
    match n with
    | EmptyString => false
    | String c _ => ASCII_ISUPPER c || is_lower c
    end;
  mb_islower := is_lower;
  parse_addr_type_arg := fun s =>
    if String.eqb s "lines" then Some ADDR_LINES
    else if String.eqb s "other" then Some ADDR_OTHER
    else None;
  parse_compl_arg := fun s a =>
    if String.eqb s "file" then Some (EXPAND_kind 2, Z.lor a EX_XFILE, None) else None;
  api_new_luaref := fun r => r
|}.

Definition no_opts : Dict_user_command :=
  mk_user_command NIL NIL NIL NIL NIL NIL NIL NIL NIL NIL NIL NIL.

(** The state after [Hello] is defined once, globally and in buffer 1. *)
Definition st_hello : nvim_state :=
  fst (nvim_buf_create_user_command df
         (fst (nvim_create_user_command df st "Hello" (STRING_OBJ "echo 1") no_opts))
         0 "Hello" (STRING_OBJ "echo 3") no_opts).

(** The request of a second definition of [Hello]. *)
Definition hello_request : uc_request :=
  mk_request "echo 2" 0 (-1) EXPAND_NOTHING None None None ADDR_NONE None true.

Definition hello_old : ucmd_T :=
  mk_ucmd "Hello" 0 "echo 1" (-1) EXPAND_NOTHING ADDR_NONE None None None None.

End Demo.

(** * Vocabulary of the further properties *)

(** [cmd] is the entry [name.data] selects under [strcmp]. *)
Definition named (name : string) (cmd : ucmd_T) : Prop :=
  cstr (uc_name cmd) = cstr name.

(** [i] is the first index of [gap] whose entry is named [name]. *)
Definition first_named (gap : list ucmd_T) (name : string) (i : nat) : Prop :=
  (exists cmd, gap !! i = Some cmd /\ named name cmd) /\
  forall j cmd, (j < i)%nat -> gap !! j = Some cmd -> ~ named name cmd.

Definition no_such_command (name : string) : Error :=
  api_set_error kErrorTypeException ("No such user-defined command: " +:+ cstr name).

(** No two entries of [gap] have the same name. *)
Definition unique_names (gap : list ucmd_T) : Prop :=
  NoDup ((fun cmd => cstr (uc_name cmd)) <$> gap).

(** The [len] bytes a pointer points to. *)
Definition bytes_at (p : charptr) (len : nat) : string :=
  match p with
  | NULLptr => EmptyString
  | ptr buf off => string_take len (string_drop off buf)
  end.

Definition points_into (cmdline : string) (p : charptr) : Prop :=
  exists off, p = ptr cmdline off.

(** A string without a NUL byte: as a C string it is read in full. *)
Definition no_NUL (s : string) : Prop := cstr s = s.

(** The boolean modifiers of "mods" that are flags of [cmod_flags], in the
    order [nvim_cmd] reads them. *)
Definition flag_mods : list (string * Z) :=
  [ ("silent", CMOD_SILENT); ("emsg_silent", CMOD_ERRSILENT);
    ("unsilent", CMOD_UNSILENT); ("sandbox", CMOD_SANDBOX);
    ("noautocmd", CMOD_NOAUTOCMD); ("browse", CMOD_BROWSE);
    ("confirm", CMOD_CONFIRM); ("hide", CMOD_HIDE); ("keepalt", CMOD_KEEPALT);
    ("keepjumps", CMOD_KEEPJUMPS); ("keepmarks", CMOD_KEEPMARKS);
    ("keeppatterns", CMOD_KEEPPATTERNS); ("lockmarks", CMOD_LOCKMARKS);
    ("noswapfile", CMOD_NOSWAPFILE) ].

(** The name of the modifier [k] in error messages. *)
Definition mods_varname (k : string) : string := "'mods." +:+ k +:+ "'".

(** The name [nvim_parse_cmd] reports for a value of "mods.split": the two
    synonyms are reported under one name. *)
Definition reported_split (s : string) : option string :=
  if String.eqb s EmptyString then Some EmptyString
  else if String.eqb s "aboveleft" || String.eqb s "leftabove" then Some "aboveleft"
  else if String.eqb s "belowright" || String.eqb s "rightbelow" then Some "belowright"
  else if String.eqb s "topleft" then Some "topleft"
  else if String.eqb s "botright" then Some "botright"
  else None.

(** The steps of [create_user_command] before [uc_add_command], in program
    order, when none fails. *)
Inductive request_run (df : definer) (name : string) (command : Object)
    (opts : Dict_user_command) : uc_request -> Prop :=
| request_steps a0 a1 d1 t1 a2 d2 t2 a3 t3 a4 a5 a6 a7 force compl a8 compl_arg
                compl_luaref a9 preview_luaref luaref rep :
    uc_validate_name df (cstr name) = true ->
    mb_islower df (first_char name) = false ->
    HAS_KEY (o_range opts) && HAS_KEY (o_count opts) = false ->
    opt_nargs (o_nargs opts) 0 = Ok a0 ->
    HAS_KEY (o_complete opts) && (a0 =? 0) = false ->
    opt_range (o_range opts) a0 (-1) ADDR_NONE = Ok (a1, d1, t1) ->
    opt_count (o_count opts) a1 d1 t1 = Ok (a2, d2, t2) ->
    opt_addr df (o_addr opts) a2 t2 = Ok (a3, t3) ->
    opt_flag (o_bang opts) "bang" EX_BANG a3 = Ok a4 ->
    opt_flag (o_bar opts) "bar" EX_TRLBAR a4 = Ok a5 ->
    opt_flag (o_register_ opts) "register" EX_REGSTR a5 = Ok a6 ->
    opt_flag (o_keepscript opts) "keepscript" EX_KEEPSCRIPT a6 = Ok a7 ->
    api_object_to_bool (o_force opts) "force" true = Ok force ->
    opt_complete df (o_complete opts) a7 = Ok (compl, a8, compl_arg, compl_luaref) ->
    opt_preview df (o_preview opts) a8 = Ok (a9, preview_luaref) ->
    opt_command df command (o_desc opts) = Ok (luaref, rep) ->
    request_run df name command opts
                (mk_request rep a9 d2 compl compl_arg compl_luaref preview_luaref
                            t3 luaref force).

(** The "nargs" option as [nvim_parse_cmd] reports it. *)
Definition nargs_text (nargs : Object) : string :=
  match nargs with
  | INTEGER_OBJ i => decimal i
  | STRING_OBJ s => s
  | _ => "0"
  end.

(** The "count" option asks for a count: it is [true] or an integer. *)
Definition counted (count : Object) : Prop :=
  count = BOOLEAN_OBJ true \/ exists n, count = INTEGER_OBJ n.

(** The completion is not given by name, so that [parse_compl_arg] is not
    called. *)
Definition no_named_completion (opts : Dict_user_command) : Prop :=
  forall s, o_complete opts <> STRING_OBJ s.

(** The text [build_cmdline_str] writes for the register the descriptor
    gives. *)
Definition reg_text (reg : Object) : string :=
  match reg with
  | STRING_OBJ s => if Ascii.eqb (first_char s) NUL then EmptyString else " " +:+ s
  | _ => EmptyString
  end.

(** What [nvim_parse_cmd] reports for a filter with this pattern and this
    [force]. *)
Definition reported_filter (pat : string) (force : bool) : Object :=
  DICTIONARY_OBJ [("pattern", STRING_OBJ pat); ("force", BOOLEAN_OBJ force)].

(** The "range" option asks for a range: it is [true], a string or an
    integer. *)
Definition ranged (range : Object) : Prop :=
  range = BOOLEAN_OBJ true \/ (exists s, range = STRING_OBJ s)
  \/ exists n, range = INTEGER_OBJ n.

(** The boolean options of a definition and the flag each one sets. *)
Definition flag_opts (opts : Dict_user_command) : list (Object * string * Z) :=
  [ (o_bang opts, "bang", EX_BANG); (o_bar opts, "bar", EX_TRLBAR);
    (o_register_ opts, "register", EX_REGSTR);
    (o_keepscript opts, "keepscript", EX_KEEPSCRIPT) ].

(** ** Text that occurs in a line *)

(** [w] occurs in [s]: some suffix of [s] begins with [w]. *)
Fixpoint occurs (w s : string) : bool :=
  String.prefix w s
  || match s with
     | EmptyString => false
     | String _ rest => occurs w rest
     end.

(** [c] is one of the characters of [w]. *)
Definition in_word (w : string) (c : ascii) : bool :=
  existsb (Ascii.eqb c) (chars w).

(** No character of [s] is a character of [w]. *)
Definition outside (w s : string) : bool :=
  forallb (fun c => negb (in_word w c)) (chars s).




(** Concrete inputs of the further properties. *)
Module Cases.

Definition entry (name rep : string) : ucmd_T :=
  mk_ucmd name 0 rep (-1) EXPAND_NOTHING ADDR_NONE None None None None.

(** [Hello] and [Bye] are global, [Local] and [Hello] belong to buffer 1, the
    current buffer; buffer 2 has [Other]. *)
Definition st : nvim_state :=
  mk_state [entry "Hello" "echo 1"; entry "Bye" "echo 2"]
           (<[1 := [entry "Local" "echo 3"; entry "Hello" "echo 4"]]>
              (<[2 := [entry "Other" "echo 5"]]> ∅))
           1.

(** [:echo] with an argument that holds a NUL byte. *)
Definition echo_nul : Dict_cmd :=
  Demo.with_args (Demo.just "echo")
                 (ARRAY_OBJ [STRING_OBJ (String "a" (String NUL "b")); INTEGER_OBJ 7]).

(** [:5,3yank] and [:3yank], given as ranges. *)
Definition yank_5_3 : Dict_cmd :=
  Demo.with_range (Demo.just "yank") (ARRAY_OBJ [INTEGER_OBJ 3; INTEGER_OBJ 5]).

(** [:echo] with boolean modifiers. *)
Definition flag_items : list (string * Object) :=
  [("silent", BOOLEAN_OBJ true); ("keepalt", INTEGER_OBJ 1);
   ("sandbox", BOOLEAN_OBJ false); ("split", STRING_OBJ "leftabove");
   ("vertical", BOOLEAN_OBJ true); ("tab", INTEGER_OBJ 2)].

Definition echo_flags : Dict_cmd :=
  mk_cmd (STRING_OBJ "echo") NIL NIL NIL NIL (ARRAY_OBJ [STRING_OBJ "1"]) NIL
         (DICTIONARY_OBJ flag_items) NIL NIL NIL.

(** [:edit] with file expansion switched off, and [:put!] with a register. *)
Definition edit_no_file : Dict_cmd :=
  mk_cmd (STRING_OBJ "edit") NIL NIL NIL NIL (ARRAY_OBJ [STRING_OBJ "%"])
         (DICTIONARY_OBJ [("file", BOOLEAN_OBJ false)]) NIL NIL NIL NIL.

Definition put_bang : Dict_cmd :=
  mk_cmd (STRING_OBJ "put") NIL NIL (STRING_OBJ "a") (BOOLEAN_OBJ true) NIL NIL
         (DICTIONARY_OBJ [("sandbox", BOOLEAN_OBJ false)]) NIL NIL NIL.

(** A tokenizer that finds [:3,5yank a] whatever the line. *)
Definition yank_ea : exarg_T :=
  mk_exarg (ptr "3,5yank a" 8) [] [] 0 EmptyString (ptr "3,5yank a" 3)
           (CMD_builtin 5)
           (Z.lor EX_RANGE (Z.lor EX_REGSTR (Z.lor EX_COUNT (Z.lor EX_TRLBAR EX_SBOXOK))))
           false 2 3 5 ADDR_LINES "a" 0.

Definition tk_yank : tokenizer := {|
  parse_cmdline := fun _ =>
    inl (yank_ea, mk_cmdinfo cmdmod_clear (mk_magic false true));
  uc_split_args_iter := Demo.split_iter;
  get_command_name := fun _ => "yank"
|}.

(** The options [-nargs=? -count=4 -bang]. *)
Definition count_opts : Dict_user_command :=
  mk_user_command NIL (BOOLEAN_OBJ true) NIL NIL (INTEGER_OBJ 4) NIL NIL NIL
                  (STRING_OBJ "?") NIL NIL NIL.

(** The modifier [filter! /x/]. *)
Definition filter_items : list (string * Object) :=
  [("filter", DICTIONARY_OBJ [("force", BOOLEAN_OBJ true); ("pattern", STRING_OBJ "x")])].

(** [:echo] under [filter! /x/]. *)
Definition echo_filter : Dict_cmd :=
  mk_cmd (STRING_OBJ "echo") NIL NIL NIL NIL NIL NIL (DICTIONARY_OBJ filter_items)
         NIL NIL NIL.

(** The options [-range=% -bar]. *)
Definition range_opts : Dict_user_command :=
  mk_user_command NIL NIL (BOOLEAN_OBJ true) NIL NIL NIL NIL NIL NIL NIL
                  (STRING_OBJ "%") NIL.

(** The options [-nargs=1] with a Lua completion. *)
Definition complete_opts : Dict_user_command :=
  mk_user_command NIL NIL NIL (LUAREF_OBJ 3) NIL NIL NIL NIL (INTEGER_OBJ 1) NIL NIL NIL.

(** The user command [Count] of [Demo.ed], given a range and a count, and the
    options [-count] it is defined with. *)
Definition count_both : Dict_cmd :=
  Demo.with_count (Demo.with_range (Demo.just "Count") (ARRAY_OBJ [INTEGER_OBJ 2]))
                  (INTEGER_OBJ 3).

Definition only_count : Dict_user_command :=
  mk_user_command NIL NIL NIL NIL (BOOLEAN_OBJ true) NIL NIL NIL NIL NIL NIL NIL.

Definition range_and_count : Dict_user_command :=
  mk_user_command NIL NIL NIL NIL (BOOLEAN_OBJ true) NIL NIL NIL NIL NIL
                  (BOOLEAN_OBJ true) NIL.

(** [Demo.ed] with the command [:make], whose line [replace_makeprg] replaces
    as [ex_docmd.c] does when 'makeprg' is [make]: the new line is the program,
    a space and the arguments, and the pointer returned is its start. *)
Definition CMD_make : cmdidx_T := CMD_builtin 8.

Definition make_argt : Z :=
  Z.lor EX_BANG (Z.lor EX_EXTRA (Z.lor EX_XFILE EX_TRLBAR)).

Definition ed_make : editor := {|
  find_ex_command := fun ea =>
    if String.eqb (cstr_at (cmd ea)) "make"
    then (true, (CMD_make, argt ea, addr_type ea, useridx ea))
    else find_ex_command Demo.ed ea;
  has_event_CMDUNDEFINED := has_event_CMDUNDEFINED Demo.ed;
  apply_autocmds_CMDUNDEFINED := apply_autocmds_CMDUNDEFINED Demo.ed;
  find_ex_command_again := find_ex_command_again Demo.ed;
  is_cmd_ni := is_cmd_ni Demo.ed;
  get_cmd_argt := fun idx =>
    if bool_decide (idx = CMD_make) then make_argt else get_cmd_argt Demo.ed idx;
  set_cmd_addr_type := fun ea a =>
    if bool_decide (cmdidx ea = CMD_make) then ADDR_NONE
    else set_cmd_addr_type Demo.ed ea a;
  invalid_range := invalid_range Demo.ed;
  set_cmd_dflall_range := set_cmd_dflall_range Demo.ed;
  get_cmd_default_range := get_cmd_default_range Demo.ed;
  set_cmd_count := set_cmd_count Demo.ed;
  valid_yank_reg := valid_yank_reg Demo.ed;
  vim_regcomp := vim_regcomp Demo.ed;
  replace_makeprg := fun ea cmdline =>
    if bool_decide (cmdidx ea = CMD_make)
    then let program_line := "make " +:+ cstr_at (arg ea) in
         Some (ptr program_line 0, program_line)
    else None
|}.

(** [:make -k] with [emsg_silent]. *)
Definition make_errsilent : Dict_cmd :=
  mk_cmd (STRING_OBJ "make") NIL NIL NIL NIL (ARRAY_OBJ [STRING_OBJ "-k"]) NIL
         (DICTIONARY_OBJ [("emsg_silent", BOOLEAN_OBJ true)]) NIL NIL NIL.

(** A tokenizer that reads the modifiers "<n>tab " and "<n>verbose " at the
    start of the line, in the order [build_cmdline_str] writes them, then the
    command name and the arguments as [Demo.parse] does. *)
Definition is_digit (c : ascii) : bool :=
  let n := Z.of_nat (nat_of_ascii c) in (48 <=? n) && (n <=? 57).

Fixpoint span_digits (s : string) : string * string :=
  match s with
  | EmptyString => (EmptyString, EmptyString)
  | String c rest =>
      if is_digit c then let '(d, r) := span_digits rest in (String c d, r)
      else (EmptyString, s)
  end.

(** The count and the modifier [word] at the start of [text]: the count and the
    number of bytes read. *)
Definition read_modifier (word text : string) : option (Z * nat) :=
  let '(d, r) := span_digits text in
  if negb (String.eqb d EmptyString) && String.prefix (word +:+ " ") r
  then Some (default 0 (read_decimal d),
             (String.length d + String.length (word +:+ " "))%nat)
  else None.

Definition parse_with_mods (line : string)
  : (exarg_T * CmdParseInfo) + option string :=
  let '(tab, off1) :=
    match read_modifier "tab" line with
    | Some (n, len) => (n + 1, len)
    | None => (0, 0%nat)
    end in
  let '(verbose, off2) :=
    match read_modifier "verbose" (string_drop off1 line) with
    | Some (n, len) => (n + 1, (off1 + len)%nat)
    | None => (0, off1)
    end in
  let '(n, rest) := Demo.skip_white (string_drop off2 line) in
  let '(name, tail) := Demo.span_word rest in
  let '(m, text) := Demo.skip_white tail in
  match Demo.by_name name with
  | Some (idx, flags, addr) =>
      inl (mk_exarg (ptr line (off2 + n + String.length name + m)) [] [] 0
                    EmptyString (ptr line (off2 + n)) idx flags false 0 0 0 addr
                    NUL 0,
           mk_cmdinfo (with_verbose (with_tab cmdmod_clear tab) verbose)
                      (mk_magic (has flags EX_XFILE) (has flags EX_TRLBAR)))
  | None => inr (Some ("E492: Not an editor command: " +:+ line))
  end.

Definition tk_mods : tokenizer := {|
  parse_cmdline := parse_with_mods;
  uc_split_args_iter := Demo.split_iter;
  get_command_name := get_command_name Demo.tk
|}.

(** [:echo 1] under [2tab] and [0verbose]. *)
Definition echo_tab_two : Dict_cmd :=
  mk_cmd (STRING_OBJ "echo") NIL NIL NIL NIL (ARRAY_OBJ [STRING_OBJ "1"]) NIL
         (DICTIONARY_OBJ [("tab", INTEGER_OBJ 2); ("verbose", INTEGER_OBJ 0)])
         NIL NIL NIL.

End Cases.
(** * Properties *)

(** ** Results *)

Lemma bind_Ok {A B} (r : Result A) (k : A -> Result B) (b : B) :
  (r ≫= k) = Ok b -> exists a, r = Ok a /\ k a = Ok b.
Proof. destruct r as [a|e]; simpl; [eauto | discriminate]. Qed.


(** ** Flag words *)

Lemma land_pow2 (x k : Z) :
  0 <= k -> Z.land x (2 ^ k) = if Z.testbit x k then 2 ^ k else 0.
Proof.
  intros Hk. apply Z.bits_inj'. intros n Hn.
  rewrite Z.land_spec, Z.pow2_bits_eqb by lia.
  destruct (Z.testbit x k) eqn:Hx.
  - rewrite Z.pow2_bits_eqb by lia.
    destruct (Z.eqb_spec k n) as [->|]; [rewrite Hx; reflexivity | apply andb_false_r].
  - rewrite Z.bits_0.
    destruct (Z.eqb_spec k n) as [->|]; [rewrite Hx; reflexivity | apply andb_false_r].
Qed.

Lemma land_flag (x m k : Z) :
  m = 2 ^ k -> 0 <= k -> Z.land x m = if Z.testbit x k then m else 0.
Proof. intros -> Hk. apply land_pow2, Hk. Qed.

Lemma has_testbit (x m k : Z) :
  m = 2 ^ k -> 0 <= k -> has x m = Z.testbit x k.
Proof.
  intros -> Hk. unfold has. rewrite land_pow2 by assumption.
  destruct (Z.testbit x k); [| reflexivity].
  destruct (Z.eqb_spec (2 ^ k) 0); [lia | reflexivity].
Qed.

(** Rewrites every test [has x m] of a one-bit mask [m] to [Z.testbit]. *)
Ltac has_bits :=
  repeat match goal with
  | |- context [has ?x ?m] =>
      let k := eval vm_compute in (Z.log2 m) in
      rewrite (has_testbit x m k) by (reflexivity || lia)
  | H : context [has ?x ?m] |- _ =>
      let k := eval vm_compute in (Z.log2 m) in
      rewrite (has_testbit x m k) in H by (reflexivity || lia)
  end.

Lemma has_lor (x m f : Z) (k : Z) :
  f = 2 ^ k -> 0 <= k -> has (Z.lor x m) f = has x f || has m f.
Proof.
  intros Hf Hk. rewrite !(has_testbit _ f k) by assumption. apply Z.lor_spec.
Qed.

Lemma has_ldiff (x m f : Z) (k : Z) :
  f = 2 ^ k -> 0 <= k -> has (Z.ldiff x m) f = has x f && negb (has m f).
Proof.
  intros Hf Hk. rewrite !(has_testbit _ f k) by assumption. apply Z.ldiff_spec.
Qed.

(** The three bits the argument-count switch looks at decide the arity. *)
Lemma argc_mask (argt : Z) :
  Z.land argt (Z.lor EX_EXTRA (Z.lor EX_NOSPC EX_NEEDARG))
  = (if has argt EX_EXTRA then EX_EXTRA else 0)
    + (if has argt EX_NOSPC then EX_NOSPC else 0)
    + (if has argt EX_NEEDARG then EX_NEEDARG else 0).
Proof.
  rewrite !Z.land_lor_distr_r. has_bits.
  rewrite (land_flag argt EX_EXTRA 2), (land_flag argt EX_NOSPC 4),
    (land_flag argt EX_NEEDARG 7) by (reflexivity || lia).
  destruct (Z.testbit argt 2), (Z.testbit argt 4), (Z.testbit argt 7); reflexivity.
Qed.

Lemma argc_valid_spec (argt : Z) (size : nat) :
  argc_valid argt size = true <-> arity_allows (arity_of argt) size.
Proof.
  unfold argc_valid, arity_of. rewrite argc_mask.
  destruct (has argt EX_EXTRA), (has argt EX_NOSPC), (has argt EX_NEEDARG);
    vm_compute Z.eqb; cbv iota; simpl arity_allows;
    rewrite ?Nat.eqb_eq, ?Nat.leb_le; tauto.
Qed.

Lemma nvim_cmd_validate_run ed c o v :
  nvim_cmd_validate ed c o = Ok v <-> validation_run ed c o v.
Proof.
  split.
  - unfold nvim_cmd_validate. intros H.
    apply bind_Ok in H as (output & H1 & H).
    apply bind_Ok in H as (cmdname & H2 & H).
    apply bind_Ok in H as (ea0 & H3 & H).
    apply bind_Ok in H as (a & H4 & H).
    apply bind_Ok in H as (ea1 & [= <-] & H).
    apply bind_Ok in H as (ea2 & H5 & H).
    apply bind_Ok in H as (ea3 & [= <-] & H).
    apply bind_Ok in H as (ea4 & H6 & H).
    apply bind_Ok in H as (ea5 & H7 & H).
    apply bind_Ok in H as (ea6 & H8 & H).
    apply bind_Ok in H as ([ea7 mg] & H9 & H).
    apply bind_Ok in H as (cm & H10 & [= <-]).
    econstructor; eassumption.
  - intros [output cmdname ea0 a ea2 ea4 ea5 ea6 ea7 mg cm H1 H2 H3 H4 H5 H6 H7 H8 H9 H10].
    unfold nvim_cmd_validate.
    rewrite H1; simpl. rewrite H2; simpl. rewrite H3; simpl. rewrite H4; simpl.
    rewrite H5; simpl. rewrite H6; simpl. rewrite H7; simpl. rewrite H8; simpl.
    rewrite H9; simpl. rewrite H10; reflexivity.
Qed.

(** Every error of the validation is a validation error. *)

Lemma api_object_to_bool_error o what d e :
  api_object_to_bool o what d = Err e -> err_type e = kErrorTypeValidation.
Proof. destruct o; simpl; intros H; inversion H; reflexivity. Qed.

Lemma api_dict_to_keydict_error fields dict : forall rv e,
  api_dict_to_keydict fields rv dict = Err e -> err_type e = kErrorTypeValidation.
Proof.
  induction dict as [|[k v] rest IH]; simpl; intros rv e H; [discriminate |].
  destruct (bool_decide (k ∈ fields)); [eauto |].
  inversion H; reflexivity.
Qed.

(** Closes a goal [err_type e = kErrorTypeValidation] from a hypothesis that a
    step written with [VALIDATION_ERROR] returned [Err e]. *)
Ltac validation_only H :=
  repeat first
    [ discriminate H
    | progress (injection H as <-; reflexivity)
    | match type of H with
      | api_object_to_bool _ _ _ = Err _ =>
          exact (api_object_to_bool_error _ _ _ _ H)
      | api_dict_to_keydict _ _ _ = Err _ =>
          exact (api_dict_to_keydict_error _ _ _ _ H)
      | (?r ≫= _) = Err _ =>
          let Hr := fresh "Hr" in destruct r eqn:Hr; simpl in H;
          [| injection H as <-; validation_only Hr ]
      | (if ?b then _ else _) = Err _ => destruct b eqn:?
      | (match ?x with _ => _ end) = Err _ => destruct x eqn:?
      | (let '(_, _) := ?x in _) = Err _ => destruct x eqn:?
      end ].

Lemma cmd_name_error o e :
  cmd_name o = Err e -> err_type e = kErrorTypeValidation.
Proof. unfold cmd_name. intros H. validation_only H. Qed.

Lemma resolve_cmd_error ed n e :
  resolve_cmd ed n = Err e -> err_type e = kErrorTypeValidation.
Proof. unfold resolve_cmd. intros H. validation_only H. Qed.

Lemma arg_to_string_error o e :
  arg_to_string o = Err e -> err_type e = kErrorTypeValidation.
Proof. unfold arg_to_string. intros H. validation_only H. Qed.

Lemma args_to_strings_error items e :
  args_to_strings items = Err e -> err_type e = kErrorTypeValidation.
Proof.
  induction items as [|o rest IH]; simpl; intros H; [discriminate |].
  destruct (arg_to_string o) eqn:Ho; simpl in H.
  - destruct (args_to_strings rest); simpl in H; [discriminate |].
    injection H as <-. apply IH. reflexivity.
  - injection H as <-. eapply arg_to_string_error, Ho.
Qed.

Lemma cmd_args_error argt o e :
  cmd_args argt o = Err e -> err_type e = kErrorTypeValidation.
Proof.
  unfold cmd_args. intros H.
  destruct (HAS_KEY o); [| discriminate].
  destruct o; try (injection H as <-; reflexivity).
  destruct (args_to_strings items) eqn:Hi; simpl in H.
  - destruct (argc_valid argt (length a)); [discriminate |].
    injection H as <-; reflexivity.
  - injection H as <-. eapply args_to_strings_error, Hi.
Qed.

Lemma cmd_range_error ed ea o e :
  cmd_range ed ea o = Err e -> err_type e = kErrorTypeValidation.
Proof. unfold cmd_range. intros H. validation_only H. Qed.

Lemma cmd_count_error ed ea o e :
  cmd_count ed ea o = Err e -> err_type e = kErrorTypeValidation.
Proof. unfold cmd_count. intros H. validation_only H. Qed.

Lemma cmd_reg_error ed ea o e :
  cmd_reg ed ea o = Err e -> err_type e = kErrorTypeValidation.
Proof. unfold cmd_reg. intros H. validation_only H. Qed.

Lemma cmd_bang_error ea o e :
  cmd_bang ea o = Err e -> err_type e = kErrorTypeValidation.
Proof. unfold cmd_bang. intros H. validation_only H. Qed.

Lemma cmd_magic_error ea o e :
  cmd_magic ea o = Err e -> err_type e = kErrorTypeValidation.
Proof. unfold cmd_magic. intros H. validation_only H. Qed.

Lemma mods_filter_error ed o cm e :
  mods_filter ed o cm = Err e -> err_type e = kErrorTypeValidation.
Proof. unfold mods_filter. intros H. validation_only H. Qed.

Lemma mods_tab_error o cm e :
  mods_tab o cm = Err e -> err_type e = kErrorTypeValidation.
Proof. unfold mods_tab. intros H. validation_only H. Qed.

Lemma mods_verbose_error o cm e :
  mods_verbose o cm = Err e -> err_type e = kErrorTypeValidation.
Proof. unfold mods_verbose. intros H. validation_only H. Qed.

Lemma mods_split_error o cm e :
  mods_split o cm = Err e -> err_type e = kErrorTypeValidation.
Proof. unfold mods_split. intros H. validation_only H. Qed.

Lemma OBJ_TO_CMOD_FLAG_error f o n cm e :
  OBJ_TO_CMOD_FLAG f o n cm = Err e -> err_type e = kErrorTypeValidation.
Proof. unfold OBJ_TO_CMOD_FLAG. intros H. validation_only H. Qed.

(** Peels the first step off a chain of binds that ended in [Err e]. *)
Ltac step_error H lem :=
  match type of H with
  | (?r ≫= _) = Err _ =>
      let Hr := fresh "Hr" in
      destruct r eqn:Hr; simpl in H;
      [| injection H as <-; eapply lem; exact Hr ]
  end.

Lemma cmd_mods_fields_error ed ea mods cm e :
  cmd_mods_fields ed ea mods cm = Err e -> err_type e = kErrorTypeValidation.
Proof.
  unfold cmd_mods_fields. intros H.
  step_error H mods_filter_error.
  step_error H mods_tab_error.
  step_error H mods_verbose_error.
  step_error H api_object_to_bool_error.
  step_error H api_object_to_bool_error.
  step_error H mods_split_error.
  do 14 (step_error H OBJ_TO_CMOD_FLAG_error).
  destruct (_ && _); [injection H as <-; reflexivity | discriminate].
Qed.

Lemma cmd_mods_error ed ea o cm e :
  cmd_mods ed ea o cm = Err e -> err_type e = kErrorTypeValidation.
Proof.
  unfold cmd_mods. intros H.
  destruct (HAS_KEY o); [| discriminate].
  destruct o; try (injection H as <-; reflexivity).
  step_error H api_dict_to_keydict_error.
  eapply cmd_mods_fields_error, H.
Qed.

(** No check of [nvim_cmd] fails with anything but a validation error. *)
Lemma nvim_cmd_validate_error ed c o e :
  nvim_cmd_validate ed c o = Err e -> err_type e = kErrorTypeValidation.
Proof.
  unfold nvim_cmd_validate. intros H.
  step_error H api_object_to_bool_error.
  step_error H cmd_name_error.
  step_error H resolve_cmd_error.
  step_error H cmd_args_error.
  step_error H cmd_range_error.
  step_error H cmd_count_error.
  step_error H cmd_reg_error.
  step_error H cmd_bang_error.
  destruct (cmd_magic _ _) as [[ea mg]|e'] eqn:Hmagic; simpl in H;
    [| injection H as <-; eapply cmd_magic_error, Hmagic].
  step_error H cmd_mods_error.
  discriminate.
Qed.

Lemma not_ok_validation_error ed c o :
  is_ok (nvim_cmd_validate ed c o) = false ->
  is_validation_error (nvim_cmd_validate ed c o).
Proof.
  destruct (nvim_cmd_validate ed c o) as [v|[t msg]] eqn:H; [discriminate |].
  intros _. apply nvim_cmd_validate_error in H. simpl in H. subst t.
  exists msg. reflexivity.
Qed.

Example demo_echo :
  p_cmdline <$> (match nvim_cmd Demo.ed
                   (with_mods
                      (Demo.with_args (Demo.just "echo")
                         (ARRAY_OBJ [STRING_OBJ "1+1"; INTEGER_OBJ 42; BOOLEAN_OBJ true]))
                      (DICTIONARY_OBJ [("tab", INTEGER_OBJ 2); ("silent", BOOLEAN_OBJ true);
                                       ("vertical", BOOLEAN_OBJ true)]))
                   NIL with Ok p => Some p | Err _ => None end)
  = Some "2tab silent vertical echo 1+1 42 1".
Proof. vm_compute. reflexivity. Qed.

Example demo_range :
  p_cmdline <$> (match nvim_cmd Demo.ed
                   (Demo.with_reg
                      (Demo.with_range (Demo.just "yank")
                         (ARRAY_OBJ [INTEGER_OBJ 3; INTEGER_OBJ 7]))
                      (STRING_OBJ "a"))
                   NIL with Ok p => Some p | Err _ => None end)
  = Some "3,7yank a".
Proof. vm_compute. reflexivity. Qed.

(** ** The arguments of [nvim_cmd] *)

Lemma ascii_iswhite_spec c :
  ascii_iswhite c = true <-> c = " "%char \/ c = "009"%char.
Proof.
  unfold ascii_iswhite. rewrite orb_true_iff.
  split; (intros [H|H]; [left | right]);
    first [apply Ascii.eqb_eq, H | apply Ascii.eqb_eq in H; exact H].
Qed.

Lemma string_iswhite_spec s :
  string_iswhite s = true <-> whitespace_only s.
Proof.
  unfold whitespace_only. induction s as [|c rest IH]; simpl.
  - split; [constructor | reflexivity].
  - destruct (ascii_iswhite c) eqn:Hc; simpl.
    + apply ascii_iswhite_spec in Hc as Hw.
      assert (Ascii.eqb c NUL = false) as ->
        by (destruct Hw as [->| ->]; reflexivity).
      rewrite IH. split; [intros H; constructor; assumption |].
      intros H. inversion H; assumption.
    + split; [discriminate |]. intros H. inversion H as [|? ? Hw _].
      apply ascii_iswhite_spec in Hw. congruence.
Qed.

Lemma string_iswhite_false s :
  string_iswhite s = false <-> ~ whitespace_only s.
Proof.
  rewrite <- string_iswhite_spec. destruct (string_iswhite s); split; congruence.
Qed.


Lemma arg_to_string_converted elem s :
  arg_to_string elem = Ok s <-> converted elem s.
Proof.
  split.
  - destruct elem; simpl; intros H; try discriminate;
      try (injection H as <-; constructor).
    + destruct b; injection H as <-; constructor.
    + destruct (string_iswhite s0) eqn:Hw; [discriminate |].
      injection H as <-. constructor. apply string_iswhite_false, Hw.
  - intros [| |i|i|i|i|str Hs]; simpl; try reflexivity.
    apply string_iswhite_false in Hs. rewrite Hs. reflexivity.
Qed.


Lemma args_to_strings_converted items : forall a,
  args_to_strings items = Ok a <-> Forall2 converted items a.
Proof.
  induction items as [|elem rest IH]; intros a; simpl.
  - split; [intros [= <-]; constructor | intros H; inversion H; reflexivity].
  - split.
    + intros H. apply bind_Ok in H as (s & Hs & H).
      apply bind_Ok in H as (a' & Ha' & [= <-]).
      constructor; [apply arg_to_string_converted, Hs | apply IH, Ha'].
    + intros H. inversion H as [|? s ? a' Hs Ha']; subst.
      apply arg_to_string_converted in Hs. apply IH in Ha'.
      rewrite Hs; simpl. rewrite Ha'; reflexivity.
Qed.


(** The arguments of a validated command are the result of [cmd_args] on the
    flags of the command as [find_ex_command] and [get_cmd_argt] gave them. *)
Lemma validation_run_args ed c o v :
  validation_run ed c o v ->
  exists cmdname ea0,
    cmd_name (k_cmd c) = Ok cmdname /\ resolve_cmd ed cmdname = Ok ea0 /\
    cmd_args (argt ea0) (k_args c) = Ok (v_args v).
Proof. intros []. simpl. eauto. Qed.

Lemma cmd_args_array argt items a :
  cmd_args argt (ARRAY_OBJ items) = Ok a ->
  args_to_strings items = Ok a /\ argc_valid argt (length a) = true.
Proof.
  unfold cmd_args. simpl. intros H. apply bind_Ok in H as (a' & Ha' & H).
  destruct (argc_valid argt (length a')) eqn:Hv; [| discriminate].
  injection H as <-. split; assumption.
Qed.


Example args_conversion_demo :
  v_args <$> (match nvim_cmd_validate Demo.ed
                (Demo.with_args (Demo.just "echo")
                   (ARRAY_OBJ [STRING_OBJ "1+1"; INTEGER_OBJ (-42); BOOLEAN_OBJ true;
                               WINDOW_OBJ 1000]))
                NIL with Ok v => Some v | Err _ => None end)
  = Some ["1+1"; "-42"; "1"; "1000"].
Proof. vm_compute. reflexivity. Qed.


(** ** What each block of [nvim_cmd] leaves alone *)

(** Case analysis on a step that returned [Ok]. *)
Ltac step_cases H :=
  repeat match type of H with
  | (if ?b then _ else _) = Ok _ => destruct b eqn:?
  | (match ?x with _ => _ end) = Ok _ => destruct x eqn:?
  | (let '(_, _) := ?x in _) = Ok _ => destruct x eqn:?
  | (?r ≫= _) = Ok _ =>
      let a := fresh "a" in let Ha := fresh "Ha" in
      apply bind_Ok in H as (a & Ha & H)
  end;
  try discriminate H.

(** Closes the goals left once the step has returned its [exarg_T]. *)
Ltac same_fields H :=
  injection H as <-;
  repeat match goal with
  | |- context [match ?x with _ => _ end] => destruct x
  end;
  simpl; repeat split; auto.

Lemma same_command_refl ea : same_command ea ea.
Proof. repeat split. Qed.

Lemma same_command_trans ea1 ea2 ea3 :
  same_command ea1 ea2 -> same_command ea2 ea3 -> same_command ea1 ea3.
Proof.
  intros (H1 & H2 & H3 & H4) (H5 & H6 & H7 & H8).
  repeat split; congruence.
Qed.

Lemma cmd_range_same ed ea o ea' :
  cmd_range ed ea o = Ok ea' -> same_command ea ea'.
Proof.
  unfold cmd_range. intros H. step_cases H; same_fields H.
Qed.

Lemma default_range_same ed ea : same_command ea (default_range ed ea).
Proof.
  unfold default_range.
  destruct (addr_count ea =? 0); [| apply same_command_refl].
  destruct (has (argt ea) EX_DFLALL).
  - destruct (set_cmd_dflall_range ed ea). repeat split.
  - simpl. destruct (bool_decide _); repeat split.
Qed.

Lemma cmd_count_same ed ea o ea' :
  cmd_count ed ea o = Ok ea' -> same_command ea ea'.
Proof.
  unfold cmd_count. intros H. step_cases H; same_fields H.
Qed.

Lemma cmd_reg_same ed ea o ea' :
  cmd_reg ed ea o = Ok ea' -> same_command ea ea'.
Proof.
  unfold cmd_reg. intros H. step_cases H; same_fields H.
Qed.

Lemma cmd_bang_same ea o ea' :
  cmd_bang ea o = Ok ea' -> same_command ea ea'.
Proof.
  unfold cmd_bang. intros H. step_cases H; same_fields H.
Qed.

(** The magic block changes [EX_XFILE] in [argt] and nothing else. *)
Lemma cmd_magic_same ea o ea' mg :
  cmd_magic ea o = Ok (ea', mg) ->
  cmdidx ea' = cmdidx ea /\ addr_type ea' = addr_type ea /\ cmd ea' = cmd ea
  /\ addr_count ea' = addr_count ea /\ line1 ea' = line1 ea /\ line2 ea' = line2 ea
  /\ regname ea' = regname ea /\ forceit ea' = forceit ea
  /\ (argt ea' = argt ea \/ argt ea' = Z.lor (argt ea) EX_XFILE
      \/ argt ea' = Z.ldiff (argt ea) EX_XFILE).
Proof.
  unfold cmd_magic. intros H. step_cases H; injection H as <- <-;
    simpl; repeat split; auto.
  destruct a0; auto.
Qed.

Lemma cmd_magic_has ea o ea' mg f k :
  cmd_magic ea o = Ok (ea', mg) -> f = 2 ^ k -> 0 <= k -> k <> 3 ->
  has (argt ea') f = has (argt ea) f.
Proof.
  intros H Hf Hk Hne. apply cmd_magic_same in H.
  destruct H as (_ & _ & _ & _ & _ & _ & _ & _ & [-> | [-> | ->]]).
  - reflexivity.
  - rewrite (has_lor _ _ f k) by assumption.
    rewrite (has_testbit EX_XFILE f k) by assumption.
    replace (Z.testbit EX_XFILE k) with false; [apply orb_false_r |].
    symmetry. change EX_XFILE with (2 ^ 3). rewrite Z.pow2_bits_eqb by lia.
    apply Z.eqb_neq. lia.
  - rewrite (has_ldiff _ _ f k) by assumption.
    rewrite (has_testbit EX_XFILE f k) by assumption.
    replace (Z.testbit EX_XFILE k) with false; [apply andb_true_r |].
    symmetry. change EX_XFILE with (2 ^ 3). rewrite Z.pow2_bits_eqb by lia.
    apply Z.eqb_neq. lia.
Qed.

(** The arity of a contract does not depend on [EX_XFILE]. *)
Lemma cmd_magic_arity ea o ea' mg :
  cmd_magic ea o = Ok (ea', mg) -> arity_of (argt ea') = arity_of (argt ea).
Proof.
  intros H. unfold arity_of.
  rewrite (cmd_magic_has _ _ _ _ EX_EXTRA 2 H), (cmd_magic_has _ _ _ _ EX_NOSPC 4 H),
    (cmd_magic_has _ _ _ _ EX_NEEDARG 7 H) by (reflexivity || lia).
  reflexivity.
Qed.

(** From the resolved command to the validated one: the command, its address
    type and, up to [EX_XFILE], its flags are those of the resolution. *)
Lemma validation_run_command ed c o v :
  validation_run ed c o v ->
  exists cmdname ea0,
    cmd_name (k_cmd c) = Ok cmdname /\ resolve_cmd ed cmdname = Ok ea0
    /\ cmd_args (argt ea0) (k_args c) = Ok (v_args v)
    /\ cmdidx (v_ea v) = cmdidx ea0
    /\ addr_type (v_ea v) = set_cmd_addr_type ed ea0 (head (v_args v))
    /\ arity_of (argt (v_ea v)) = arity_of (argt ea0)
    /\ (forall f k, f = 2 ^ k -> 0 <= k -> k <> 3 ->
                    has (argt (v_ea v)) f = has (argt ea0) f).
Proof.
  intros [output cmdname ea0 a ea2 ea4 ea5 ea6 ea7 mg cm
            H1 H2 H3 H4 H5 H6 H7 H8 H9 H10].
  simpl. exists cmdname, ea0.
  apply cmd_range_same in H5. apply cmd_count_same in H6.
  apply cmd_reg_same in H7. apply cmd_bang_same in H8.
  pose proof (default_range_same ed ea2) as Hd.
  pose proof (same_command_trans _ _ _ H5
                (same_command_trans _ _ _ Hd
                   (same_command_trans _ _ _ H6
                      (same_command_trans _ _ _ H7 H8)))) as (Hi & Ht & Ha & _).
  simpl in Hi, Ht, Ha.
  pose proof (cmd_magic_same _ _ _ _ H9) as (Hi' & Ha' & _).
  repeat split; try assumption; try congruence.
  - rewrite (cmd_magic_arity _ _ _ _ H9). congruence.
  - intros f k Hf Hk Hne. rewrite (cmd_magic_has _ _ _ _ f k H9) by assumption.
    congruence.
Qed.

(** ** The argument count *)

Lemma Forall2_converted_length items a :
  Forall2 converted items a -> length a = length items.
Proof. intros H. symmetry. eapply Forall2_length, H. Qed.

Lemma cmd_args_absent argt : cmd_args argt NIL = Ok [].
Proof. reflexivity. Qed.

Lemma cmd_args_count argt items a :
  args_to_strings items = Ok a ->
  (arity_allows (arity_of argt) (length items) ->
   cmd_args argt (ARRAY_OBJ items) = Ok a)
  /\ (~ arity_allows (arity_of argt) (length items) ->
      cmd_args argt (ARRAY_OBJ items)
      = VALIDATION_ERROR "Incorrect number of arguments supplied").
Proof.
  intros Ha. unfold cmd_args. simpl. rewrite Ha. simpl.
  apply args_to_strings_converted, Forall2_converted_length in Ha as ->.
  destruct (argc_valid argt (length items)) eqn:Hv.
  - apply argc_valid_spec in Hv. split; [reflexivity | contradiction].
  - split; [| reflexivity]. intros H. apply argc_valid_spec in H. congruence.
Qed.

(** C5, as amended.  When the descriptor gives [args] (an Array), the
    argument-count check enforces the arity of the resolved contract:
    exactlyOne needs exactly 1 argument, zeroOrOne at most 1, oneOrMore at
    least 1, zeroOrMore any number and none exactly 0.  A violation is the
    validation error "Incorrect number of arguments supplied", whatever the
    arity; in particular a non-empty [args] fails validation for a contract of
    arity none. *)
Theorem nvim_cmd_argument_count ed c o items :
  k_args c = ARRAY_OBJ items ->
  (forall v, nvim_cmd_validate ed c o = Ok v ->
             arity_allows (arity_of (argt (v_ea v))) (length items))
  /\ (forall argt a,
        args_to_strings items = Ok a ->
        arity_allows (arity_of argt) (length items) ->
        cmd_args argt (k_args c) = Ok a)
  /\ (forall output cmdname ea0 a,
        api_object_to_bool o "'output'" false = Ok output ->
        cmd_name (k_cmd c) = Ok cmdname ->
        resolve_cmd ed cmdname = Ok ea0 ->
        args_to_strings items = Ok a ->
        ~ arity_allows (arity_of (argt ea0)) (length items) ->
        nvim_cmd_validate ed c o
        = VALIDATION_ERROR "Incorrect number of arguments supplied")
  /\ (forall cmdname ea0,
        cmd_name (k_cmd c) = Ok cmdname ->
        resolve_cmd ed cmdname = Ok ea0 ->
        arity_of (argt ea0) = none ->
        items <> [] ->
        is_validation_error (nvim_cmd_validate ed c o)).
Proof.
  intros Hargs.
  assert (forall v, nvim_cmd_validate ed c o = Ok v ->
            exists cmdname ea0,
              cmd_name (k_cmd c) = Ok cmdname /\ resolve_cmd ed cmdname = Ok ea0
              /\ arity_of (argt (v_ea v)) = arity_of (argt ea0)
              /\ arity_allows (arity_of (argt ea0)) (length items)) as Hrun.
  { intros v Hv. apply nvim_cmd_validate_run, validation_run_command in Hv.
    destruct Hv as (cmdname & ea0 & Hn & Hr & Ha & _ & _ & Har & _).
    exists cmdname, ea0. repeat split; try assumption.
    rewrite Hargs in Ha. apply cmd_args_array in Ha as [Hs Hv].
    apply argc_valid_spec in Hv.
    apply args_to_strings_converted, Forall2_converted_length in Hs.
    rewrite <- Hs. exact Hv. }
  split; [| split; [| split]].
  - intros v Hv. destruct (Hrun v Hv) as (cmdname & ea0 & _ & _ & -> & H). exact H.
  - intros argt0 a Ha Hgood. rewrite Hargs.
    apply (proj1 (cmd_args_count argt0 items a Ha) Hgood).
  - intros output cmdname ea0 a Ho Hn Hr Ha Hbad.
    unfold nvim_cmd_validate. rewrite Ho; simpl. rewrite Hn; simpl.
    rewrite Hr; simpl. rewrite Hargs.
    rewrite (proj2 (cmd_args_count (argt ea0) items a Ha) Hbad). reflexivity.
  - intros cmdname ea0 Hn Hr Hnone Hne. apply not_ok_validation_error.
    destruct (nvim_cmd_validate ed c o) as [v|e] eqn:Hv; [| reflexivity].
    destruct (Hrun v eq_refl) as (cmdname' & ea0' & Hn' & Hr' & _ & H).
    rewrite Hn in Hn'. injection Hn' as <-. rewrite Hr in Hr'. injection Hr' as <-.
    rewrite Hnone in H. simpl in H. destruct items; [contradiction | discriminate].
Qed.

Lemma nvim_cmd_argument_count_witness :
  k_args Demo.wincmd_two = ARRAY_OBJ Demo.two_args
  /\ nvim_cmd_validate Demo.ed Demo.wincmd_two NIL
     = VALIDATION_ERROR "Incorrect number of arguments supplied".
Proof.
  split; [reflexivity |].
  refine (proj1 (proj2 (proj2 (nvim_cmd_argument_count Demo.ed Demo.wincmd_two NIL
                                 Demo.two_args eq_refl)))
            false "wincmd" _ ["a"; "b"] eq_refl eq_refl eq_refl eq_refl _).
  vm_compute. discriminate.
Defined.

(** C5 as stated fails.  [:wincmd] takes exactly one argument, yet a
    descriptor without [args] passes the validation with no argument at all;
    and the error of the check is the same text for a contract of arity none
    and for one of arity exactlyOne, so it does not name the expected arity. *)
Lemma nvim_cmd_argument_count_counterexample :
  (exists v,
     nvim_cmd_validate Demo.ed (Demo.just "wincmd") NIL = Ok v
     /\ arity_of (argt (v_ea v)) = exactlyOne
     /\ v_args v = [])
  /\ (exists v,
        nvim_cmd_validate Demo.ed (Demo.just "only") NIL = Ok v
        /\ arity_of (argt (v_ea v)) = none)
  /\ nvim_cmd_validate Demo.ed Demo.only_one NIL
     = VALIDATION_ERROR "Incorrect number of arguments supplied"
  /\ nvim_cmd_validate Demo.ed Demo.wincmd_two NIL
     = VALIDATION_ERROR "Incorrect number of arguments supplied".
Proof.
  split; [| split; [| split]].
  - eexists. split; [vm_compute; reflexivity |]. split; reflexivity.
  - eexists. split; [vm_compute; reflexivity |]. reflexivity.
  - vm_compute. reflexivity.
  - vm_compute. reflexivity.
Qed.

(** ** The default range *)

Lemma resolve_cmd_fresh ed cmdname ea0 :
  resolve_cmd ed cmdname = Ok ea0 ->
  addr_count ea0 = 0 /\ line1 ea0 = 0 /\ line2 ea0 = 0 /\ regname ea0 = NUL
  /\ forceit ea0 = false /\ cmd ea0 = ptr cmdname 0.
Proof.
  unfold resolve_cmd. intros H.
  destruct (find_ex_command ed _) as [p [[[idx flags] addr] uidx]].
  simpl in H.
  destruct (p && _ && _ && _).
  - destruct (apply_autocmds_CMDUNDEFINED ed cmdname).
    + destruct (find_ex_command_again ed _) as [p' [[[idx' flags'] addr'] uidx']].
      simpl in H. step_cases H; injection H as <-; repeat split.
    + step_cases H; injection H as <-; repeat split.
  - step_cases H; injection H as <-; repeat split.
Qed.

Lemma cmd_reg_same_range ed ea o ea' :
  cmd_reg ed ea o = Ok ea' -> same_range ea ea'.
Proof. unfold cmd_reg. intros H. step_cases H; same_fields H. Qed.

Lemma cmd_bang_same_range ea o ea' :
  cmd_bang ea o = Ok ea' -> same_range ea ea'.
Proof. unfold cmd_bang. intros H. step_cases H; same_fields H. Qed.

Lemma cmd_range_absent ed ea o ea' :
  no_explicit_range o -> cmd_range ed ea o = Ok ea' ->
  addr_count ea = 0 -> addr_count ea' = 0.
Proof.
  intros [-> | ->]; unfold cmd_range; simpl; intros H H0.
  - injection H as <-. exact H0.
  - step_cases H. injection H as <-. reflexivity.
Qed.

Lemma default_range_other ed ea :
  addr_count ea = 0 -> has (argt ea) EX_DFLALL = false ->
  addr_type ea = ADDR_OTHER ->
  line2 (default_range ed ea) = 1
  /\ line1 (default_range ed ea) = get_cmd_default_range ed ea
  /\ addr_count (default_range ed ea) = 0.
Proof.
  intros H0 Hall Hother. unfold default_range.
  rewrite H0, Hall. simpl. rewrite Hother. simpl. auto.
Qed.

Lemma cmd_count_integer ed ea i ea' :
  cmd_count ed ea (INTEGER_OBJ i) = Ok ea' ->
  set_cmd_count ed ea (to_linenr i) = (line1 ea', line2 ea', addr_count ea').
Proof.
  unfold cmd_count. simpl. intros H.
  destruct (negb (has (argt ea) EX_COUNT)); [discriminate |].
  destruct (i <? 0); [discriminate |].
  destruct (set_cmd_count ed ea (to_linenr i)) as [[l1 l2] n].
  injection H as <-. reflexivity.
Qed.

(** C1, as amended.  For every valid command whose resolved address kind is
    [other], when the caller supplies no explicit range and the contract does
    not mark rangeDefaultAll, the validation synthesizes a default range whose
    endpoint [line2] is 1, not the current position: 1 is the [line2] of the
    validated command when no count is given, and the [line2] that
    [set_cmd_count] starts from when a count is given. *)
Theorem nvim_cmd_default_range_other ed c o v :
  nvim_cmd_validate ed c o = Ok v ->
  no_explicit_range (k_range c) ->
  has (argt (v_ea v)) EX_DFLALL = false ->
  addr_type (v_ea v) = ADDR_OTHER ->
  (k_count c = NIL -> line2 (v_ea v) = 1 /\ addr_count (v_ea v) = 0)
  /\ (forall i, k_count c = INTEGER_OBJ i ->
        exists ea,
          line2 ea = 1 /\ addr_count ea = 0 /\ addr_type ea = ADDR_OTHER
          /\ cmdidx ea = cmdidx (v_ea v)
          /\ set_cmd_count ed ea (to_linenr i)
             = (line1 (v_ea v), line2 (v_ea v), addr_count (v_ea v)))
  /\ (forall ea,
        addr_count ea = 0 -> has (argt ea) EX_DFLALL = false ->
        addr_type ea = ADDR_OTHER ->
        line2 (default_range ed ea) = 1
        /\ line1 (default_range ed ea) = get_cmd_default_range ed ea).
Proof.
  intros Hv Hrange Hall Hother. apply nvim_cmd_validate_run in Hv.
  destruct Hv as [output cmdname ea0 a ea2 ea4 ea5 ea6 ea7 mg cm
                    H1 H2 H3 H4 H5 H6 H7 H8 H9 H10].
  simpl in Hall, Hother. simpl.
  pose proof (resolve_cmd_fresh _ _ _ H3) as (Hc0 & _).
  pose proof (cmd_range_absent _ _ _ _ Hrange H5 Hc0) as Hc2.
  pose proof (cmd_count_same _ _ _ _ H6) as (Hi4 & Ht4 & Ha4 & _).
  pose proof (default_range_same ed ea2) as (Hi3 & Ht3 & Ha3 & _).
  pose proof (cmd_reg_same _ _ _ _ H7) as (Hi5 & Ht5 & Ha5 & _).
  pose proof (cmd_bang_same _ _ _ H8) as (Hi6 & Ht6 & Ha6 & _).
  pose proof (cmd_magic_same _ _ _ _ H9) as (Hi7 & Ha7 & _ & Hn7 & Hl7 & Hm7 & _).
  destruct (cmd_reg_same_range _ _ _ _ H7) as (Hn5 & Hf5 & Hl5).
  destruct (cmd_bang_same_range _ _ _ H8) as (Hn6 & Hf6 & Hl6).
  assert (has (argt ea2) EX_DFLALL = false) as Hall2.
  { rewrite <- Hall. rewrite (cmd_magic_has _ _ _ _ EX_DFLALL 5 H9)
      by (reflexivity || lia). congruence. }
  assert (addr_type ea2 = ADDR_OTHER) as Hother2 by congruence.
  destruct (default_range_other ed ea2 Hc2 Hall2 Hother2) as (Hl2 & Hl1 & Hn).
  split; [| split].
  - intros Hcount. rewrite Hcount in H6. injection H6 as <-. split; congruence.
  - intros i Hcount. rewrite Hcount in H6. apply cmd_count_integer in H6.
    exists (default_range ed ea2).
    split; [exact Hl2 |].
    split; [exact Hn |]. split; [congruence |]. split; [congruence |].
    rewrite H6. congruence.
  - intros ea Hc Ha Ho. destruct (default_range_other ed ea Hc Ha Ho) as (? & ? & _).
    split; assumption.
Qed.

Lemma nvim_cmd_default_range_other_witness :
  exists v,
    nvim_cmd_validate Demo.ed (Demo.just "Count") NIL = Ok v
    /\ no_explicit_range (k_range (Demo.just "Count"))
    /\ has (argt (v_ea v)) EX_DFLALL = false
    /\ addr_type (v_ea v) = ADDR_OTHER
    /\ line2 (v_ea v) = 1 /\ addr_count (v_ea v) = 0.
Proof.
  eexists. split; [vm_compute; reflexivity |].
  split; [left; reflexivity |].
  split; [vm_compute; reflexivity |]. split; [vm_compute; reflexivity |].
  refine (proj1 (nvim_cmd_default_range_other Demo.ed (Demo.just "Count") NIL _
                   _ _ _ _) eq_refl).
  - vm_compute. reflexivity.
  - left. reflexivity.
  - vm_compute. reflexivity.
  - vm_compute. reflexivity.
Defined.

(** C1 as stated fails: the user command [Count], defined with [-count], has
    the address kind [other]; called without a range its validated [line2] is
    1, while the cursor is on line 7. *)
Lemma nvim_cmd_default_range_other_counterexample :
  exists v,
    nvim_cmd_validate Demo.ed (Demo.just "Count") NIL = Ok v
    /\ k_range (Demo.just "Count") = NIL
    /\ addr_type (v_ea v) = ADDR_OTHER
    /\ has (argt (v_ea v)) EX_DFLALL = false
    /\ get_cmd_default_range Demo.ed (v_ea v) = 7
    /\ line2 (v_ea v) = 1
    /\ line2 (v_ea v) <> 2.
Proof.
  eexists. split; [vm_compute; reflexivity |].
  repeat split; try (vm_compute; reflexivity). vm_compute. discriminate.
Qed.

(** ** The register *)

Lemma reg_writing_relaxed idx :
  reg_writing idx = false <-> put_or_user idx.
Proof.
  unfold reg_writing, put_or_user.
  destruct idx; simpl; split; intros H; try discriminate; auto;
    destruct H as [H | [H | H]]; discriminate H.
Qed.

Lemma relaxed_reg_writing idx relaxed :
  (relaxed = true <-> put_or_user idx) -> negb relaxed = reg_writing idx.
Proof.
  intros H. rewrite <- reg_writing_relaxed in H.
  destruct relaxed, (reg_writing idx); simpl; try reflexivity.
  - destruct H as [H _]. discriminate (H eq_refl).
  - destruct H as [_ H]. discriminate (H eq_refl).
Qed.

Lemma string_length_one s :
  (String.length s =? 1)%nat = true -> s = String (first_char s) EmptyString.
Proof. destruct s as [|c [|d rest]]; simpl; intros H; try discriminate; reflexivity. Qed.

Lemma cmd_reg_accepted ed ea reg ea' :
  HAS_KEY reg = true ->
  cmd_reg ed ea reg = Ok ea' <->
  exists c, register_accepted ed ea reg c /\ ea' = with_regname ea c.
Proof.
  intros Hkey. unfold cmd_reg. rewrite Hkey. split.
  - destruct (has (argt ea) EX_REGSTR) eqn:Hreg; [simpl | discriminate].
    destruct reg as [| | | |s| | | | | |]; try discriminate.
    destruct (String.length s =? 1)%nat eqn:Hlen; [simpl | discriminate].
    destruct (Ascii.eqb (first_char s) "=") eqn:Heq; [discriminate |].
    destruct (valid_yank_reg ed (first_char s) (reg_writing (cmdidx ea))) eqn:Hvalid;
      [simpl | discriminate].
    intros [= <-]. apply string_length_one in Hlen.
    exists (first_char s). split; [| reflexivity].
    rewrite Hlen at 1.
    apply (register_one_char ed ea _ (negb (reg_writing (cmdidx ea)))).
    + exact Hreg.
    + intros Hc. rewrite Hc in Heq. discriminate.
    + rewrite negb_true_iff. apply reg_writing_relaxed.
    + unfold register_valid. rewrite negb_involutive. exact Hvalid.
  - intros (c & Hacc & ->). destruct Hacc as [c relaxed Hreg Hne Hrel Hvalid].
    rewrite Hreg. simpl.
    destruct (Ascii.eqb_spec c "="%char) as [-> | _]; [contradiction |].
    unfold register_valid in Hvalid.
    rewrite (relaxed_reg_writing _ _ Hrel) in Hvalid. rewrite Hvalid. reflexivity.
Qed.

Lemma cmd_bang_regname ea o ea' :
  cmd_bang ea o = Ok ea' -> regname ea' = regname ea.
Proof. unfold cmd_bang. intros H. step_cases H; same_fields H. Qed.

(** C7.  For every descriptor that gives a register: the block that checks
    it succeeds exactly when the contract allows a register, the value is a
    string of exactly one character other than '=', and the register-validity
    predicate holds for it, relaxed exactly when the command is [:put] or a
    user command; otherwise it is a validation error, in particular when the
    contract forbids registers and for the register '='.  A validated
    descriptor with a register went through this block. *)
Theorem nvim_cmd_register ed c o :
  HAS_KEY (k_reg c) = true ->
  (forall ea ea',
      cmd_reg ed ea (k_reg c) = Ok ea' <->
      exists ch, register_accepted ed ea (k_reg c) ch /\ ea' = with_regname ea ch)
  /\ (forall ea, is_ok (cmd_reg ed ea (k_reg c)) = false ->
                 is_validation_error (cmd_reg ed ea (k_reg c)))
  /\ (forall ea, has (argt ea) EX_REGSTR = false ->
                 cmd_reg ed ea (k_reg c)
                 = VALIDATION_ERROR "Command cannot accept a register")
  /\ (forall ea, k_reg c = STRING_OBJ "=" ->
                 is_validation_error (cmd_reg ed ea (k_reg c)))
  /\ (forall v, nvim_cmd_validate ed c o = Ok v ->
                register_accepted ed (v_ea v) (k_reg c) (regname (v_ea v))).
Proof.
  intros Hkey. split; [| split; [| split; [| split]]].
  - intros ea ea'. apply cmd_reg_accepted, Hkey.
  - intros ea Hno. destruct (cmd_reg ed ea (k_reg c)) as [x|[t msg]] eqn:H;
      [discriminate |].
    apply cmd_reg_error in H. simpl in H. subst t. exists msg. reflexivity.
  - intros ea Hno. unfold cmd_reg. rewrite Hkey, Hno. reflexivity.
  - intros ea ->. unfold cmd_reg. simpl.
    destruct (has (argt ea) EX_REGSTR); eexists; reflexivity.
  - intros v Hv. apply nvim_cmd_validate_run in Hv.
    destruct Hv as [output cmdname ea0 a ea2 ea4 ea5 ea6 ea7 mg cm
                      H1 H2 H3 H4 H5 H6 H7 H8 H9 H10].
    simpl. apply (cmd_reg_accepted _ _ _ _ Hkey) in H7 as (ch & Hacc & ->).
    pose proof (cmd_bang_same _ _ _ H8) as (Hi6 & Ht6 & _).
    pose proof (cmd_bang_regname _ _ _ H8) as Hr6.
    pose proof (cmd_magic_same _ _ _ _ H9) as (Hi7 & _ & _ & _ & _ & _ & Hr7 & _).
    simpl in Hi6, Ht6, Hr6.
    destruct Hacc as [ch relaxed Hreg Hne Hrel Hvalid].
    replace (regname ea7) with ch by congruence.
    apply (register_one_char ed ea7 ch relaxed); try assumption.
    + rewrite (cmd_magic_has _ _ _ _ EX_REGSTR 9 H9) by (reflexivity || lia).
      congruence.
    + rewrite Hi7, Hi6. exact Hrel.
Qed.

Lemma nvim_cmd_register_witness :
  HAS_KEY (k_reg Demo.put_colon) = true
  /\ (forall v, nvim_cmd_validate Demo.ed Demo.put_colon NIL = Ok v ->
                register_accepted Demo.ed (v_ea v) (k_reg Demo.put_colon)
                                  (regname (v_ea v))).
Proof.
  split; [reflexivity |].
  apply (nvim_cmd_register Demo.ed Demo.put_colon NIL). reflexivity.
Defined.

(** The register ":" is read-only: [:put] takes it, [:yank] does not. *)
Example register_relaxed_demo :
  is_ok (nvim_cmd_validate Demo.ed Demo.put_colon NIL) = true
  /\ nvim_cmd_validate Demo.ed (Demo.with_reg (Demo.just "yank") (STRING_OBJ ":")) NIL
     = VALIDATION_ERROR ("Invalid register: " +:+ String dquote ":")
  /\ nvim_cmd_validate Demo.ed (Demo.with_reg (Demo.just "yank") (STRING_OBJ "=")) NIL
     = VALIDATION_ERROR ("Cannot use register " +:+ String dquote "=")
  /\ nvim_cmd_validate Demo.ed (Demo.with_reg (Demo.just "echo") (STRING_OBJ "a")) NIL
     = VALIDATION_ERROR "Command cannot accept a register"
  /\ nvim_cmd_validate Demo.ed (Demo.with_reg (Demo.just "yank") (STRING_OBJ "ab")) NIL
     = VALIDATION_ERROR "'reg' must be a single character".
Proof. repeat split; vm_compute; reflexivity. Qed.

(** ** Range and count *)

Lemma cmd_range_given ed ea o ea' :
  HAS_KEY o = true -> cmd_range ed ea o = Ok ea' -> has (argt ea) EX_RANGE = true.
Proof.
  unfold cmd_range. intros ->. destruct (has (argt ea) EX_RANGE); [reflexivity |].
  discriminate.
Qed.

Lemma cmd_count_given ed ea o ea' :
  HAS_KEY o = true -> cmd_count ed ea o = Ok ea' -> has (argt ea) EX_COUNT = true.
Proof.
  unfold cmd_count. intros ->. destruct (has (argt ea) EX_COUNT); [reflexivity |].
  discriminate.
Qed.

Lemma nvim_cmd_validate_nvim_cmd ed c o e :
  nvim_cmd_validate ed c o = Err e -> nvim_cmd ed c o = Err e.
Proof. unfold nvim_cmd. intros ->. reflexivity. Qed.

Lemma cmd_count_verdict ed ea ea' count :
  argt ea' = argt ea ->
  is_ok (cmd_count ed ea' count) = is_ok (cmd_count ed ea count).
Proof.
  intros Hargt. unfold cmd_count. rewrite Hargt.
  destruct (HAS_KEY count); [| reflexivity].
  destruct (negb (has (argt ea) EX_COUNT)); [reflexivity |].
  destruct count; try reflexivity.
  destruct (i <? 0); [reflexivity |].
  destruct (set_cmd_count ed ea' _) as [[l1 l2] n],
    (set_cmd_count ed ea _) as [[l1' l2'] n']. reflexivity.
Qed.

(** C3, as amended.  [nvim_cmd] has no check of a range and a count together.
    A descriptor that gives both fails the validation, before
    [build_cmdline_str] is called and so without a command line, whenever the
    contract of the command lacks [EX_RANGE] or [EX_COUNT]; a descriptor that
    passes has a contract with both.  The count check gives the same verdict
    whatever range the range check stored.  Range and count exclude each other
    only as options of a definition: [create_user_command] refuses a
    definition that gives both, before anything is registered. *)
Theorem nvim_cmd_range_and_count ed c o argt0 :
  HAS_KEY (k_range c) = true ->
  HAS_KEY (k_count c) = true ->
  resolved_contract ed c argt0 ->
  (has argt0 EX_RANGE && has argt0 EX_COUNT = false ->
   exists msg,
     nvim_cmd_validate ed c o = VALIDATION_ERROR msg
     /\ nvim_cmd ed c o = VALIDATION_ERROR msg)
  /\ (forall v, nvim_cmd_validate ed c o = Ok v ->
        has argt0 EX_RANGE = true /\ has argt0 EX_COUNT = true)
  /\ (forall ea ea', argt ea' = argt ea ->
        is_ok (cmd_count ed ea' (k_count c)) = is_ok (cmd_count ed ea (k_count c)))
  /\ (forall df st name command opts flags,
        HAS_KEY (o_range opts) = true ->
        HAS_KEY (o_count opts) = true ->
        exists msg,
          create_user_command df st name command opts flags
          = (st, Some (api_set_error kErrorTypeValidation msg))).
Proof.
  intros Hrange Hcount (cmdname & ea0 & Hn & Hr & <-).
  assert (Hboth : forall v, nvim_cmd_validate ed c o = Ok v ->
            has (argt ea0) EX_RANGE = true /\ has (argt ea0) EX_COUNT = true).
  { intros v Hv. apply nvim_cmd_validate_run in Hv.
    destruct Hv as [output cmdname' ea0' a ea2 ea4 ea5 ea6 ea7 mg cm
                      H1 H2 H3 H4 H5 H6 H7 H8 H9 H10].
    rewrite Hn in H2. injection H2 as <-. rewrite Hr in H3. injection H3 as <-.
    pose proof (cmd_range_given _ _ _ _ Hrange H5) as Hr1.
    pose proof (cmd_count_given _ _ _ _ Hcount H6) as Hc1.
    pose proof (cmd_range_same _ _ _ _ H5) as (_ & Ht2 & _).
    pose proof (default_range_same ed ea2) as (_ & Ht3 & _).
    simpl in Hr1, Ht2. rewrite Ht3, Ht2 in Hc1. split; assumption. }
  split; [| split; [exact Hboth | split]].
  - intros Hex.
    assert (is_ok (nvim_cmd_validate ed c o) = false) as Hfail.
    { destruct (nvim_cmd_validate ed c o) as [v|e] eqn:Hv; [| reflexivity].
      destruct (Hboth v eq_refl) as [H1 H2]. rewrite H1, H2 in Hex. discriminate. }
    apply not_ok_validation_error in Hfail as [msg Hmsg]. exists msg.
    split; [exact Hmsg | apply nvim_cmd_validate_nvim_cmd, Hmsg].
  - intros ea ea' Hargt. apply cmd_count_verdict, Hargt.
  - intros df st name command opts flags Hr' Hc'.
    unfold create_user_command, create_user_command_request.
    destruct (negb (uc_validate_name df (cstr name))); [eexists; reflexivity |].
    destruct (mb_islower df (first_char name)); [eexists; reflexivity |].
    rewrite Hr', Hc'. eexists; reflexivity.
Qed.

Lemma nvim_cmd_range_and_count_witness :
  HAS_KEY (k_range Demo.put_range_count) = true
  /\ HAS_KEY (k_count Demo.put_range_count) = true
  /\ resolved_contract Demo.ed Demo.put_range_count (get_cmd_argt Demo.ed CMD_put)
  /\ has (get_cmd_argt Demo.ed CMD_put) EX_RANGE
      && has (get_cmd_argt Demo.ed CMD_put) EX_COUNT = false
  /\ exists msg,
       nvim_cmd_validate Demo.ed Demo.put_range_count NIL = VALIDATION_ERROR msg
       /\ nvim_cmd Demo.ed Demo.put_range_count NIL = VALIDATION_ERROR msg.
Proof.
  assert (resolved_contract Demo.ed Demo.put_range_count
            (get_cmd_argt Demo.ed CMD_put)) as Hres.
  { exists "put". eexists. split; [reflexivity |]. split; reflexivity. }
  split; [reflexivity |]. split; [reflexivity |]. split; [exact Hres |].
  split; [reflexivity |].
  exact (proj1 (nvim_cmd_range_and_count Demo.ed Demo.put_range_count NIL _
                  eq_refl eq_refl Hres) eq_refl).
Defined.

Example range_and_count_refused_demo :
  nvim_cmd Demo.ed Demo.put_range_count NIL
  = VALIDATION_ERROR "Command cannot accept a count".
Proof. vm_compute. reflexivity. Qed.

(** A contract with both [EX_RANGE] and [EX_COUNT], as of [:yank]: the count
    is applied to the range by [set_cmd_count]. *)
Example range_and_count_accepted_demo :
  p_cmdline <$> (match nvim_cmd Demo.ed Demo.yank_range_count NIL with
                 | Ok p => Some p
                 | Err _ => None
                 end)
  = Some "3,4yank".
Proof. vm_compute. reflexivity. Qed.

(** C3 as stated fails for the user command [Count]: its contract is the one
    a definition with the option [count] builds, for which a definition with
    [range] as well is refused as mutually exclusive; yet the descriptor that
    gives [Count] a range and a count passes the validation and is written
    to a command line. *)
Lemma nvim_cmd_range_and_count_counterexample :
  (exists r,
     create_user_command_request Demo.df "Count" (STRING_OBJ "echo") Cases.only_count
     = Ok r
     /\ resolved_contract Demo.ed Cases.count_both (r_argt r))
  /\ create_user_command Demo.df Demo.st "Count" (STRING_OBJ "echo")
                         Cases.range_and_count 0
     = (Demo.st, Some (api_set_error kErrorTypeValidation
                         "'range' and 'count' are mutually exclusive"))
  /\ HAS_KEY (k_range Cases.count_both) = true
  /\ HAS_KEY (k_count Cases.count_both) = true
  /\ ~ is_validation_error (nvim_cmd_validate Demo.ed Cases.count_both NIL)
  /\ p_cmdline <$> (match nvim_cmd Demo.ed Cases.count_both NIL with
                    | Ok p => Some p
                    | Err _ => None
                    end)
     = Some "3Count".
Proof.
  split.
  { eexists. split; [vm_compute; reflexivity |].
    exists "Count". eexists. split; [reflexivity |].
    split; vm_compute; reflexivity. }
  split; [vm_compute; reflexivity |].
  split; [reflexivity |]. split; [reflexivity |]. split.
  - intros [msg H]. vm_compute in H. discriminate H.
  - vm_compute. reflexivity.
Qed.

(** ** Key sets *)

Lemma field_insert_eq (m : KeyDict) k v : field (<[k := v]> m) k = v.
Proof. unfold field. rewrite lookup_insert_eq. reflexivity. Qed.

Lemma field_insert_ne (m : KeyDict) k k' v :
  k <> k' -> field (<[k := v]> m) k' = field m k'.
Proof. intros H. unfold field. rewrite lookup_insert_ne by exact H. reflexivity. Qed.



Lemma api_dict_to_keydict_app fields items k v : forall rv,
  k ∈ fields ->
  api_dict_to_keydict fields rv (items ++ [(k, v)])
  = api_dict_to_keydict fields rv items ≫= (fun m => Ok (<[k := v]> m)).
Proof.
  induction items as [|[k0 v0] rest IH]; intros rv Hk; simpl.
  - rewrite bool_decide_eq_true_2 by exact Hk. reflexivity.
  - destruct (bool_decide (k0 ∈ fields)); [apply IH, Hk | reflexivity].
Qed.


Lemma api_dict_to_keydict_filter_error fields items k : forall rv e,
  api_dict_to_keydict fields rv items = Err e ->
  api_dict_to_keydict fields (delete k rv)
    (List.filter (fun kv => negb (String.eqb (fst kv) k)) items)
  = Err e \/ k ∉ fields.
Proof.
  induction items as [|[k0 v0] rest IH]; intros rv e; simpl; [discriminate |].
  destruct (bool_decide (k0 ∈ fields)) eqn:Hin.
  - intros H. destruct (String.eqb_spec k0 k) as [-> | Hne]; simpl.
    + destruct (IH _ _ H) as [H' | H']; [| right; exact H'].
      left. rewrite delete_insert_eq in H'. exact H'.
    + rewrite Hin. destruct (IH _ _ H) as [H' | H']; [| right; exact H'].
      left. rewrite delete_insert_ne in H' by congruence. exact H'.
  - intros H. destruct (String.eqb_spec k0 k) as [-> | Hne]; simpl.
    + right. apply bool_decide_eq_false_1 in Hin. exact Hin.
    + rewrite Hin. left. exact H.
Qed.

(** ** Results related step by step *)

Lemma Result_rel_bind {A B} (R : A -> A -> Prop) (r1 r2 : Result A)
    (k1 k2 : A -> Result B) :
  Result_rel R r1 r2 ->
  (forall a b, R a b -> k1 a = k2 b) ->
  r1 ≫= k1 = r2 ≫= k2.
Proof.
  destruct r1 as [a|e1], r2 as [b|e2]; simpl; intros H Hk;
    try contradiction; [apply Hk, H | congruence].
Qed.

(** ** [errorSilent] *)

Lemma lor_swap (x f g : Z) : Z.lor (Z.lor x f) g = Z.lor (Z.lor x g) f.
Proof. rewrite <- !Z.lor_assoc. f_equal. apply Z.lor_comm. Qed.

Lemma add_silent_flags cm1 cm2 f :
  add_silent cm1 = add_silent cm2 ->
  add_silent (with_flags cm1 (Z.lor (cmod_flags cm1) f))
  = add_silent (with_flags cm2 (Z.lor (cmod_flags cm2) f)).
Proof.
  destruct cm1, cm2. unfold add_silent, with_flags. simpl.
  intros [= H1 -> -> -> -> -> ->]. f_equal.
  rewrite (lor_swap cmod_flags0), (lor_swap cmod_flags1). congruence.
Qed.

Lemma has_lor_mono x f g k :
  g = 2 ^ k -> 0 <= k -> has x g = true -> has (Z.lor x f) g = true.
Proof. intros Hg Hk H. rewrite (has_lor _ _ g k), H by assumption. reflexivity. Qed.

Lemma OBJ_TO_CMOD_FLAG_rel e f v n cm1 cm2 :
  silent_rel e cm1 cm2 ->
  Result_rel (silent_rel e) (OBJ_TO_CMOD_FLAG f v n cm1) (OBJ_TO_CMOD_FLAG f v n cm2).
Proof.
  intros [Hs He]. unfold OBJ_TO_CMOD_FLAG.
  destruct (api_object_to_bool v n false) as [[|]|err]; simpl;
    [| split; assumption | reflexivity].
  split; [apply add_silent_flags, Hs |].
  intros ->. destruct (He eq_refl) as [H1 H2]. simpl.
  split; apply (has_lor_mono _ _ _ 2); (reflexivity || lia || assumption).
Qed.

(** The step for [emsg_silent] when it reads as true. *)
Lemma OBJ_TO_CMOD_FLAG_errsilent v n cm1 cm2 :
  api_object_to_bool v n false = Ok true ->
  silent_rel false cm1 cm2 ->
  Result_rel (silent_rel true) (OBJ_TO_CMOD_FLAG CMOD_ERRSILENT v n cm1)
             (OBJ_TO_CMOD_FLAG CMOD_ERRSILENT v n cm2).
Proof.
  intros Hv [Hs _]. unfold OBJ_TO_CMOD_FLAG. rewrite Hv. simpl.
  split; [apply add_silent_flags, Hs |].
  intros _. simpl.
  split; rewrite (has_lor _ _ CMOD_ERRSILENT 2) by (reflexivity || lia);
    apply orb_true_r.
Qed.

(** The step for [silent] itself, on the same modifiers and two values that
    both read as booleans. *)
Lemma OBJ_TO_CMOD_FLAG_silent v1 v2 n cm :
  is_ok (api_object_to_bool v1 n false) = true ->
  is_ok (api_object_to_bool v2 n false) = true ->
  Result_rel (silent_rel false) (OBJ_TO_CMOD_FLAG CMOD_SILENT v1 n cm)
             (OBJ_TO_CMOD_FLAG CMOD_SILENT v2 n cm).
Proof.
  unfold OBJ_TO_CMOD_FLAG.
  destruct (api_object_to_bool v1 n false) as [b1|]; [| discriminate].
  destruct (api_object_to_bool v2 n false) as [b2|]; [| discriminate].
  intros _ _. simpl. split; [| discriminate].
  destruct cm. unfold add_silent, with_flags.
  destruct b1, b2; simpl; f_equal;
    rewrite <- ?Z.lor_assoc, ?Z.lor_diag; reflexivity.
Qed.

Lemma errsilent_implies_silent_rel cm1 cm2 :
  silent_rel true cm1 cm2 ->
  errsilent_implies_silent cm1 = errsilent_implies_silent cm2.
Proof.
  intros [Hs He]. destruct (He eq_refl) as [H1 H2].
  unfold errsilent_implies_silent. rewrite H1, H2. exact Hs.
Qed.

(** With [emsg_silent] true, the value of [silent] does not matter to the
    modifier checks, as long as it reads as a boolean. *)
Lemma cmd_mods_fields_silent ed ea mods1 mods2 cm :
  agree_except "silent" mods1 mods2 ->
  api_object_to_bool (field mods1 "emsg_silent") "'mods.emsg_silent'" false = Ok true ->
  is_ok (api_object_to_bool (field mods1 "silent") "'mods.silent'" false) = true ->
  is_ok (api_object_to_bool (field mods2 "silent") "'mods.silent'" false) = true ->
  cmd_mods_fields ed ea mods1 cm = cmd_mods_fields ed ea mods2 cm.
Proof.
  intros Hagree Hes Hs1 Hs2. unfold cmd_mods_fields.
  rewrite <- !(Hagree "filter"), <- !(Hagree "tab"), <- !(Hagree "verbose"),
    <- !(Hagree "vertical"), <- !(Hagree "horizontal"), <- !(Hagree "split"),
    <- !(Hagree "emsg_silent"), <- !(Hagree "unsilent"), <- !(Hagree "sandbox"),
    <- !(Hagree "noautocmd"), <- !(Hagree "browse"), <- !(Hagree "confirm"),
    <- !(Hagree "hide"), <- !(Hagree "keepalt"), <- !(Hagree "keepjumps"),
    <- !(Hagree "keepmarks"), <- !(Hagree "keeppatterns"), <- !(Hagree "lockmarks"),
    <- !(Hagree "noswapfile") by discriminate.
  destruct (mods_filter ed _ cm) as [cm1|]; [simpl | reflexivity].
  destruct (mods_tab _ cm1) as [cm2|]; [simpl | reflexivity].
  destruct (mods_verbose _ cm2) as [cm3|]; [simpl | reflexivity].
  destruct (api_object_to_bool (field mods1 "vertical") _ _) as [vertical|];
    [simpl | reflexivity].
  destruct (api_object_to_bool (field mods1 "horizontal") _ _) as [horizontal|];
    [simpl | reflexivity].
  destruct (mods_split _ _) as [cm4|]; [simpl | reflexivity].
  eapply Result_rel_bind; [apply OBJ_TO_CMOD_FLAG_silent; assumption |].
  intros a b Hab.
  eapply Result_rel_bind; [apply OBJ_TO_CMOD_FLAG_errsilent; assumption |].
  clear a b Hab. intros a b Hab.
  do 12 (eapply Result_rel_bind; [apply OBJ_TO_CMOD_FLAG_rel, Hab |];
         clear a b Hab; intros a b Hab).
  rewrite (errsilent_implies_silent_rel a b Hab). reflexivity.
Qed.

Lemma OBJ_TO_CMOD_FLAG_mono f v n cm cm' g k :
  OBJ_TO_CMOD_FLAG f v n cm = Ok cm' -> g = 2 ^ k -> 0 <= k ->
  has (cmod_flags cm) g = true -> has (cmod_flags cm') g = true.
Proof.
  unfold OBJ_TO_CMOD_FLAG. intros H Hg Hk Hcm.
  destruct (api_object_to_bool v n false) as [[|]|]; simpl in H;
    try discriminate; injection H as <-; [| exact Hcm].
  simpl. apply (has_lor_mono _ _ _ k); assumption.
Qed.

(** What a successful run of the modifier checks leaves in [cmod_flags] when
    [emsg_silent] reads as true. *)
Lemma cmd_mods_fields_errsilent ed ea mods cm0 cm :
  cmd_mods_fields ed ea mods cm0 = Ok cm ->
  api_object_to_bool (field mods "emsg_silent") "'mods.emsg_silent'" false = Ok true ->
  has (cmod_flags cm) CMOD_ERRSILENT = true /\ has (cmod_flags cm) CMOD_SILENT = true.
Proof.
  unfold cmd_mods_fields. intros H Hes.
  do 9 (apply bind_Ok in H as (? & _ & H)).
  apply bind_Ok in H as (cme & He & H).
  unfold OBJ_TO_CMOD_FLAG in He. rewrite Hes in He. simpl in He.
  assert (has (cmod_flags cme) CMOD_ERRSILENT = true) as Hflag.
  { injection He as <-. simpl.
    rewrite (has_lor _ _ CMOD_ERRSILENT 2) by (reflexivity || lia).
    apply orb_true_r. }
  clear He.
  do 12 (let cmn := fresh "cm" in let Hn := fresh "Hn" in
         apply bind_Ok in H as (cmn & Hn & H);
         apply (fun Hs => OBJ_TO_CMOD_FLAG_mono _ _ _ _ _ CMOD_ERRSILENT 2 Hs
                            eq_refl ltac:(lia) Hflag) in Hn;
         clear Hflag; rename Hn into Hflag).
  destruct (_ && _); [discriminate |]. injection H as <-.
  unfold errsilent_implies_silent. rewrite Hflag. simpl. split.
  - apply (has_lor_mono _ _ _ 2); (reflexivity || lia || assumption).
  - rewrite (has_lor _ _ CMOD_SILENT 1) by (reflexivity || lia). apply orb_true_r.
Qed.

(** A numeral does not start with a letter. *)
Lemma decimal_not_silent z suffix : decimal z +:+ suffix <> "silent ".
Proof.
  unfold decimal. destruct (Z.to_int z) as [u|u]; simpl; [| discriminate].
  destruct u; simpl; discriminate.
Qed.

Lemma In_APPEND_IF x cond str : In x (APPEND_IF cond str) -> x = str.
Proof. unfold APPEND_IF. destruct cond; simpl; intros []; [congruence | contradiction]. Qed.

Lemma Forall_APPEND_IF (P : string -> Prop) cond str :
  P str -> Forall P (APPEND_IF cond str).
Proof. unfold APPEND_IF. destruct cond; repeat constructor; assumption. Qed.

Lemma cmdline_other_mods_not_silent cm : ~ In "silent " (cmdline_other_mods cm).
Proof.
  assert (Forall (fun s => s <> "silent ") (cmdline_other_mods cm)) as H.
  { unfold cmdline_other_mods.
    repeat (apply Forall_app; split);
      first [ apply Forall_APPEND_IF; discriminate
            | repeat destruct (_ =? _); repeat constructor; discriminate ]. }
  intros Hin. rewrite Forall_forall in H. apply (H _ (proj2 (list_elem_of_In _ _) Hin)).
  reflexivity.
Qed.

Lemma cmdline_mods_errsilent cm :
  has (cmod_flags cm) CMOD_ERRSILENT = true ->
  cmdline_silent cm = ["silent! "] /\ In "silent! " (cmdline_mods cm)
  /\ ~ In "silent " (cmdline_mods cm).
Proof.
  intros H. unfold cmdline_mods, cmdline_silent. rewrite H.
  split; [reflexivity |]. split.
  - apply in_or_app. right. apply in_or_app. right. left. reflexivity.
  - intros Hin.
    apply in_app_or in Hin as [Hin | Hin];
      [apply In_APPEND_IF in Hin; symmetry in Hin;
       exact (decimal_not_silent _ _ Hin) |].
    apply in_app_or in Hin as [Hin | Hin];
      [apply In_APPEND_IF in Hin; symmetry in Hin;
       exact (decimal_not_silent _ _ Hin) |].
    destruct Hin as [Hin | Hin]; [discriminate Hin |].
    exact (cmdline_other_mods_not_silent cm Hin).
Qed.

Lemma append_assoc (s1 s2 s3 : string) : (s1 +:+ s2) +:+ s3 = s1 +:+ (s2 +:+ s3).
Proof.
  induction s1 as [|c s1 IH]; [reflexivity |].
  change (String c ((s1 +:+ s2) +:+ s3) = String c (s1 +:+ (s2 +:+ s3))).
  rewrite IH. reflexivity.
Qed.

Lemma string_length_app s1 s2 :
  String.length (s1 +:+ s2) = (String.length s1 + String.length s2)%nat.
Proof.
  induction s1 as [|c s1 IH]; [reflexivity|].
  change (S (String.length (s1 +:+ s2)) = S (String.length s1 + String.length s2)).
  rewrite IH. reflexivity.
Qed.

Lemma string_drop_app s1 s2 : string_drop (String.length s1) (s1 +:+ s2) = s2.
Proof.
  induction s1 as [|c s1 IH]; [reflexivity|].
  change (string_drop (String.length s1) (s1 +:+ s2) = s2). exact IH.
Qed.

Lemma string_take_app s1 s2 : string_take (String.length s1) (s1 +:+ s2) = s1.
Proof.
  induction s1 as [|c s1 IH]; [destruct s2; reflexivity|].
  change (String c (string_take (String.length s1) (s1 +:+ s2)) = String c s1).
  rewrite IH. reflexivity.
Qed.

Lemma string_drop_empty n : string_drop n EmptyString = EmptyString.
Proof. destruct n; reflexivity. Qed.

Lemma string_drop_add n m s :
  string_drop (n + m) s = string_drop m (string_drop n s).
Proof.
  revert s. induction n as [|n IH]; intros s; [reflexivity|].
  destruct s as [|c s]; simpl; [rewrite string_drop_empty; reflexivity | apply IH].
Qed.

Lemma kv_concat_all_app l1 l2 :
  kv_concat_all (l1 ++ l2) = kv_concat_all l1 +:+ kv_concat_all l2.
Proof.
  induction l1 as [|s l1 IH]; [reflexivity |].
  change (s +:+ kv_concat_all (l1 ++ l2)
          = (s +:+ kv_concat_all l1) +:+ kv_concat_all l2).
  rewrite IH. symmetry. apply append_assoc.
Qed.

(** The command line of [nvim_cmd] is the text of [build_cmdline_str], unless
    [replace_makeprg] has replaced it for this command; the command name is
    after the modifiers and the range of that text in both cases. *)
Lemma nvim_cmd_line ed c o p :
  nvim_cmd ed c o = Ok p ->
  exists v,
    nvim_cmd_validate ed c o = Ok v
    /\ p_cmdinfo p = v_cmdinfo v
    /\ cmd (p_ea p)
       = ptr (cmdline_text (v_ea v) (v_cmdinfo v) (v_args v))
             (String.length (kv_concat_all (cmdline_mods (cmdmod (v_cmdinfo v)))
                             +:+ cmdline_range (v_ea v)))
    /\ (p_cmdline p = cmdline_text (v_ea v) (v_cmdinfo v) (v_args v)
        \/ exists ea q,
             cmdidx ea = cmdidx (p_ea p)
             /\ replace_makeprg ed ea
                  (cmdline_text (v_ea v) (v_cmdinfo v) (v_args v))
                = Some (q, p_cmdline p)).
Proof.
  unfold nvim_cmd. intros H. apply bind_Ok in H as (v & Hv & H).
  exists v. split; [exact Hv |].
  unfold build_cmdline_str in H.
  match type of H with
  | context [replace_makeprg ed ?ea ?t] =>
      destruct (replace_makeprg ed ea t) as [[q line]|] eqn:Hhook
  end; injection H as <-; simpl.
  - split; [reflexivity |]. split; [reflexivity |]. right.
    match type of Hhook with
    | replace_makeprg _ ?ea _ = _ => exists ea, q
    end.
    split; [| exact Hhook]. destruct (_ && _); reflexivity.
  - split; [reflexivity |]. split; [reflexivity |]. left. reflexivity.
Qed.

Lemma cmd_mods_dictionary ed ea items mods cm0 :
  api_dict_to_keydict cmd_mods_keys ∅ items = Ok mods ->
  cmd_mods ed ea (DICTIONARY_OBJ items) cm0 = cmd_mods_fields ed ea mods cm0.
Proof. intros H. unfold cmd_mods. simpl. rewrite H. reflexivity. Qed.

(** The validation of two descriptors that differ only in "mods", when the
    modifier checks agree on them. *)
Lemma nvim_cmd_validate_mods ed c o m1 m2 :
  (forall ea cm0, cmd_mods ed ea m1 cm0 = cmd_mods ed ea m2 cm0) ->
  nvim_cmd_validate ed (with_mods c m1) o = nvim_cmd_validate ed (with_mods c m2) o.
Proof.
  intros H. unfold nvim_cmd_validate. simpl.
  destruct (api_object_to_bool o _ _); [simpl | reflexivity].
  destruct (cmd_name _); [simpl | reflexivity].
  destruct (resolve_cmd _ _); [simpl | reflexivity].
  destruct (cmd_args _ _); [simpl | reflexivity].
  destruct (cmd_range _ _ _); [simpl | reflexivity].
  destruct (cmd_count _ _ _); [simpl | reflexivity].
  destruct (cmd_reg _ _ _); [simpl | reflexivity].
  destruct (cmd_bang _ _); [simpl | reflexivity].
  destruct (cmd_magic _ _) as [[ea mg]|]; [simpl | reflexivity].
  rewrite H. reflexivity.
Qed.

Lemma with_mods_same c : with_mods c (k_mods c) = c.
Proof. destruct c; reflexivity. Qed.

(** C4, as amended.  For every descriptor whose [emsg_silent] is true, a call
    of [nvim_cmd] that succeeds leaves both [CMOD_ERRSILENT] and [CMOD_SILENT]
    set, and the command line it returns is the one [build_cmdline_str]
    wrote: the [tab] and [verbose] pieces, then "silent! ", then the other
    modifiers and the rest, with "silent! " and never the bare "silent " among
    the modifier pieces; the exception is a command whose line
    [replace_makeprg] replaces, for which the line returned is the one
    [replace_makeprg] gave.  Forcing [silent] is never an error: giving
    [silent] as true or false on top changes nothing in the result of
    [nvim_cmd], provided the [silent] already given (if any) is a boolean. *)
Theorem nvim_cmd_errsilent ed c o mods :
  says_emsg_silent c mods ->
  (forall p, nvim_cmd ed c o = Ok p ->
     has (cmod_flags (cmdmod (p_cmdinfo p))) CMOD_SILENT = true
     /\ has (cmod_flags (cmdmod (p_cmdinfo p))) CMOD_ERRSILENT = true
     /\ In "silent! " (cmdline_mods (cmdmod (p_cmdinfo p)))
     /\ ~ In "silent " (cmdline_mods (cmdmod (p_cmdinfo p)))
     /\ kv_concat_all (cmdline_mods (cmdmod (p_cmdinfo p)))
        = kv_concat_all (cmdline_tab (cmdmod (p_cmdinfo p))
                         ++ cmdline_verbose (cmdmod (p_cmdinfo p)))
          +:+ "silent! "
          +:+ kv_concat_all (cmdline_other_mods (cmdmod (p_cmdinfo p)))
     /\ exists rest,
          p_cmdline p = kv_concat_all (cmdline_mods (cmdmod (p_cmdinfo p))) +:+ rest
          \/ exists ea q,
               cmdidx ea = cmdidx (p_ea p)
               /\ replace_makeprg ed ea
                    (kv_concat_all (cmdline_mods (cmdmod (p_cmdinfo p))) +:+ rest)
                  = Some (q, p_cmdline p))
  /\ (is_ok (api_object_to_bool (field mods "silent") "'mods.silent'" false) = true ->
      forall b, nvim_cmd ed (add_mod c "silent" (BOOLEAN_OBJ b)) o = nvim_cmd ed c o).
Proof.
  intros (items & Hk & Hitems & Hes). split.
  - intros p Hp. apply nvim_cmd_line in Hp as (v & Hv & Hci & _ & Hline).
    rewrite Hci. apply nvim_cmd_validate_run in Hv.
    destruct Hv as [output cmdname ea0 a ea2 ea4 ea5 ea6 ea7 mg cm'
                      H1 H2 H3 H4 H5 H6 H7 H8 H9 H10].
    simpl in *.
    rewrite Hk, (cmd_mods_dictionary _ _ _ _ _ Hitems) in H10.
    destruct (cmd_mods_fields_errsilent _ _ _ _ _ H10 Hes) as [He Hs].
    destruct (cmdline_mods_errsilent cm' He) as (Hsil & Hin & Hnot).
    repeat (split; [assumption |]). split.
    + unfold cmdline_mods. rewrite Hsil.
      rewrite !app_assoc, !kv_concat_all_app. simpl.
      rewrite !append_assoc. reflexivity.
    + exists (cmdline_range ea7 +:+ cmdline_name ea7 +:+ cmdline_args a).
      unfold cmdline_text in Hline. simpl in Hline.
      rewrite !append_assoc in Hline. exact Hline.
  - intros Hsilent b. unfold nvim_cmd.
    replace (nvim_cmd_validate ed (add_mod c "silent" (BOOLEAN_OBJ b)) o)
      with (nvim_cmd_validate ed c o); [reflexivity |].
    unfold add_mod. rewrite Hk. rewrite <- (with_mods_same c) at 1. rewrite Hk.
    apply nvim_cmd_validate_mods. intros ea cm0.
    unfold cmd_mods at 2. simpl.
    rewrite api_dict_to_keydict_app by (apply list_elem_of_In; simpl; tauto).
    rewrite (cmd_mods_dictionary _ _ _ _ _ Hitems), Hitems. simpl.
    apply cmd_mods_fields_silent.
    + intros k' Hne. rewrite field_insert_ne by congruence. reflexivity.
    + exact Hes.
    + exact Hsilent.
    + rewrite field_insert_eq. reflexivity.
Qed.

Lemma nvim_cmd_errsilent_witness :
  says_emsg_silent Demo.echo_errsilent (Demo.mods_of Demo.errsilent_items)
  /\ (exists p,
        nvim_cmd Demo.ed Demo.echo_errsilent NIL = Ok p
        /\ p_cmdline p = "1tab silent! unsilent echo 1"
        /\ has (cmod_flags (cmdmod (p_cmdinfo p))) CMOD_SILENT = true
        /\ ~ In "silent " (cmdline_mods (cmdmod (p_cmdinfo p))))
  /\ is_ok (api_object_to_bool (field (Demo.mods_of Demo.errsilent_items) "silent")
                               "'mods.silent'" false) = true
  /\ forall b,
       nvim_cmd Demo.ed (add_mod Demo.echo_errsilent "silent" (BOOLEAN_OBJ b)) NIL
       = nvim_cmd Demo.ed Demo.echo_errsilent NIL.
Proof.
  assert (says_emsg_silent Demo.echo_errsilent (Demo.mods_of Demo.errsilent_items))
    as Hsays.
  { exists Demo.errsilent_items. split; [reflexivity |].
    split; vm_compute; reflexivity. }
  destruct (nvim_cmd_errsilent Demo.ed Demo.echo_errsilent NIL _ Hsays)
    as [Hline Hsilent].
  split; [exact Hsays |]. split.
  { eexists. split; [vm_compute; reflexivity |]. split; [reflexivity |].
    match goal with
    | |- has (cmod_flags (cmdmod (p_cmdinfo ?p))) _ = _ /\ _ =>
        destruct (Hline p ltac:(vm_compute; reflexivity)) as (Hs & _ & _ & Hnot & _)
    end.
    split; [exact Hs | exact Hnot]. }
  split; [vm_compute; reflexivity |].
  apply Hsilent. vm_compute. reflexivity.
Defined.

(** C4 as stated fails for [:make]: the descriptor has [emsg_silent] set and
    the flags are forced, but [replace_makeprg] replaces the line that
    [build_cmdline_str] wrote by the program line, which has no "silent! ". *)
Lemma nvim_cmd_errsilent_counterexample :
  says_emsg_silent Cases.make_errsilent
                   (Demo.mods_of [("emsg_silent", BOOLEAN_OBJ true)])
  /\ (exists p,
        nvim_cmd Cases.ed_make Cases.make_errsilent NIL = Ok p
        /\ has (cmod_flags (cmdmod (p_cmdinfo p))) CMOD_ERRSILENT = true
        /\ has (cmod_flags (cmdmod (p_cmdinfo p))) CMOD_SILENT = true
        /\ p_cmdline p = "make -k")
  /\ ~ exists before after, "make -k" = before +:+ "silent! " +:+ after.
Proof.
  split.
  { exists [("emsg_silent", BOOLEAN_OBJ true)]. split; [reflexivity |].
    split; vm_compute; reflexivity. }
  split.
  { eexists. split; [vm_compute; reflexivity |]. repeat split. }
  intros (before & after & H).
  assert (Hlen : String.length "make -k"
                 = String.length (before +:+ "silent! " +:+ after)) by (rewrite <- H; reflexivity).
  rewrite !string_length_app in Hlen. simpl in Hlen. lia.
Qed.

Example errsilent_demo :
  match nvim_cmd Demo.ed Demo.echo_errsilent NIL with
  | Ok p => Some (p_cmdline p, has (cmod_flags (cmdmod (p_cmdinfo p))) CMOD_SILENT)
  | Err _ => None
  end
  = Some ("1tab silent! unsilent echo 1", true).
Proof. vm_compute. reflexivity. Qed.

(** ** Negative [tab] and [verbose] *)

Lemma mods_filter_tab_verbose ed o cm cm' :
  mods_filter ed o cm = Ok cm' ->
  cmod_tab cm' = cmod_tab cm /\ cmod_verbose cm' = cmod_verbose cm.
Proof. unfold mods_filter. intros H. step_cases H; injection H as <-; split; reflexivity. Qed.

Lemma mods_split_tab_verbose o cm cm' :
  mods_split o cm = Ok cm' ->
  cmod_tab cm' = cmod_tab cm /\ cmod_verbose cm' = cmod_verbose cm.
Proof. unfold mods_split. intros H. step_cases H; injection H as <-; split; reflexivity. Qed.

Lemma OBJ_TO_CMOD_FLAG_tab_verbose f v n cm cm' :
  OBJ_TO_CMOD_FLAG f v n cm = Ok cm' ->
  cmod_tab cm' = cmod_tab cm /\ cmod_verbose cm' = cmod_verbose cm.
Proof.
  unfold OBJ_TO_CMOD_FLAG. intros H. step_cases H. injection H as <-.
  destruct a; split; reflexivity.
Qed.

Lemma mods_tab_verbose o cm cm' :
  mods_tab o cm = Ok cm' -> cmod_verbose cm' = cmod_verbose cm.
Proof. unfold mods_tab. intros H. step_cases H; injection H as <-; reflexivity. Qed.

Lemma mods_verbose_tab o cm cm' :
  mods_verbose o cm = Ok cm' -> cmod_tab cm' = cmod_tab cm.
Proof. unfold mods_verbose. intros H. step_cases H; injection H as <-; reflexivity. Qed.



(** The values of [cmod_tab] and [cmod_verbose] after the modifier checks are
    those stored by the [tab] and the [verbose] check. *)
Lemma cmd_mods_fields_tab_verbose ed ea mods cm0 cm :
  cmd_mods_fields ed ea mods cm0 = Ok cm ->
  exists cm1 cm2 cm3,
    cmod_tab cm1 = cmod_tab cm0 /\ cmod_verbose cm1 = cmod_verbose cm0
    /\ mods_tab (field mods "tab") cm1 = Ok cm2
    /\ mods_verbose (field mods "verbose") cm2 = Ok cm3
    /\ cmod_tab cm = cmod_tab cm3 /\ cmod_verbose cm = cmod_verbose cm3.
Proof.
  unfold cmd_mods_fields. intros H.
  apply bind_Ok in H as (cm1 & H1 & H). apply mods_filter_tab_verbose in H1 as [Ht1 Hv1].
  apply bind_Ok in H as (cm2 & H2 & H).
  apply bind_Ok in H as (cm3 & H3 & H).
  exists cm1, cm2, cm3. do 4 (split; [assumption |]).
  apply bind_Ok in H as (vertical & _ & H).
  apply bind_Ok in H as (cm4 & [= <-] & H).
  apply bind_Ok in H as (horizontal & _ & H).
  apply bind_Ok in H as (cm5 & [= <-] & H).
  apply bind_Ok in H as (cm6 & H6 & H). apply mods_split_tab_verbose in H6 as [Ht Hv].
  simpl in Ht, Hv.
  do 14 (let cmn := fresh "cm" in let Hn := fresh "Hn" in
         apply bind_Ok in H as (cmn & Hn & H);
         apply OBJ_TO_CMOD_FLAG_tab_verbose in Hn as [? ?]).
  destruct (_ && _); [discriminate |]. injection H as <-.
  unfold errsilent_implies_silent.
  destruct (has _ CMOD_ERRSILENT); simpl; split; congruence.
Qed.









(** *** Occurrences of a word in a line *)


Lemma occurs_cons w c s :
  occurs w (String c s) = String.prefix w (String c s) || occurs w s.
Proof. reflexivity. Qed.



Lemma in_word_chars w c : In c (chars w) -> in_word w c = true.
Proof.
  intros H. unfold in_word. apply existsb_exists. exists c.
  split; [exact H | apply Ascii.eqb_refl].
Qed.

(** A word does not begin where the line has a character that is not in it. *)
Lemma prefix_outside w c s :
  w <> EmptyString -> in_word w c = false -> String.prefix w (String c s) = false.
Proof.
  intros Hw Hc. destruct w as [|a w]; [congruence |]. simpl.
  destruct (ascii_dec a c) as [-> |]; [| reflexivity].
  rewrite in_word_chars in Hc; [discriminate | left; reflexivity].
Qed.

Lemma occurs_outside w s1 s2 :
  w <> EmptyString -> outside w s1 = true -> occurs w (s1 +:+ s2) = occurs w s2.
Proof.
  intros Hw. induction s1 as [|c s1 IH]; intros H; [reflexivity |].
  unfold outside in H. simpl in H. apply andb_true_iff in H as [Hc H].
  change (String c s1 +:+ s2) with (String c (s1 +:+ s2)).
  rewrite occurs_cons, prefix_outside, IH;
    [reflexivity | exact H | exact Hw | apply negb_true_iff; exact Hc].
Qed.






















(** *** A tokenizer that reads the modifiers *)









Example minus_one_demo :
  match nvim_cmd Demo.ed Demo.echo_minus_one NIL with
  | Ok p =>
      match nvim_parse_cmd Demo.st Cases.tk_mods 10 (p_cmdline p) [] with
      | Some (Ok d) => Some (p_cmdline p, parsed_mod "tab" d, parsed_mod "verbose" d,
                             dict_get "args" d)
      | _ => None
      end
  | Err _ => None
  end
  = Some ("echo 1", Some (INTEGER_OBJ (-1)), Some (INTEGER_OBJ (-1)),
          Some (ARRAY_OBJ [STRING_OBJ "1"])).
Proof. vm_compute. reflexivity. Qed.

(** The same tokenizer reads back the modifiers that are written. *)
Example tab_two_demo :
  match nvim_cmd Demo.ed Cases.echo_tab_two NIL with
  | Ok p =>
      match nvim_parse_cmd Demo.st Cases.tk_mods 10 (p_cmdline p) [] with
      | Some (Ok d) => Some (p_cmdline p, parsed_mod "tab" d, parsed_mod "verbose" d,
                             dict_get "args" d)
      | _ => None
      end
  | Err _ => None
  end
  = Some ("2tab 0verbose echo 1", Some (INTEGER_OBJ 2), Some (INTEGER_OBJ 0),
          Some (ARRAY_OBJ [STRING_OBJ "1"])).
Proof. vm_compute. reflexivity. Qed.


(** ** The arguments of a parsed line *)

Lemma cstr_idem s : cstr (cstr s) = cstr s.
Proof.
  induction s as [|c s IH]; simpl; [reflexivity |].
  destruct (Ascii.eqb c NUL) eqn:Hc; simpl; [reflexivity |].
  rewrite Hc, IH. reflexivity.
Qed.

Lemma string_take_length s : string_take (String.length s) s = s.
Proof. induction s as [|c s IH]; simpl; [reflexivity | rewrite IH; reflexivity]. Qed.

Lemma cstr_at_cstr p : cstr (cstr_at p) = cstr_at p.
Proof. destruct p; simpl; [reflexivity | apply cstr_idem]. Qed.

Lemma cstr_first_char s : Ascii.eqb (first_char (cstr s)) NUL = true -> cstr s = EmptyString.
Proof.
  destruct s as [|c s]; simpl; [reflexivity |].
  destruct (Ascii.eqb c NUL) eqn:Hc; simpl; [reflexivity |]. congruence.
Qed.

Lemma cstr_at_first_char p :
  Ascii.eqb (first_char (cstr_at p)) NUL = true -> cstr_at p = EmptyString.
Proof. destruct p; simpl; [reflexivity | apply cstr_first_char]. Qed.

Lemma single_argument_flags argt :
  single_argument (arity_of argt) <->
  has argt EX_EXTRA = true /\ has argt EX_NOSPC = true.
Proof.
  unfold single_argument, arity_of.
  destruct (has argt EX_EXTRA), (has argt EX_NOSPC), (has argt EX_NEEDARG);
    split; intros H; try (destruct H as [H | H]; discriminate H);
    try (destruct H as [H1 H2]; discriminate); auto.
Qed.

(** The whole text as one argument. *)
Lemma parse_args_single tk fuel ea :
  has (argt ea) EX_NOSPC = true ->
  parse_args tk fuel ea
  = Some (match cstr_at (arg ea) with
          | EmptyString => []
          | text => [text]
          end).
Proof.
  intros H. unfold parse_args. rewrite H.
  destruct (Ascii.eqb (first_char (cstr_at (arg ea))) NUL) eqn:Hc; simpl.
  - rewrite (cstr_at_first_char _ Hc). reflexivity.
  - unfold cstrn_to_string. rewrite string_take_length, cstr_at_cstr.
    destruct (cstr_at (arg ea)); [discriminate Hc | reflexivity].
Qed.

(** The loop ends within [length - e + 1] turns and yields the segments of
    the calls in order. *)
Lemma split_args_run tk text : splitter_advances tk text ->
  forall fuel e buf len,
    (String.length text - e < fuel)%nat ->
    exists segs,
      split_args tk fuel text (String.length text) e buf len = Some segs
      /\ split_run tk text e buf len segs.
Proof.
  intros Hadv. induction fuel as [|fuel IH]; intros e buf len Hfuel; [lia |].
  simpl.
  destruct (uc_split_args_iter tk text (String.length text) e buf len)
    as [done [[e' buf'] len']] eqn:Hcall.
  destruct done.
  - eexists. split; [reflexivity |]. eapply split_last, Hcall.
  - pose proof (Hadv _ _ _ _ _ _ Hcall) as Hlt.
    destruct (IH e' buf' len') as (segs & Hsegs & Hrun); [lia |].
    rewrite Hsegs. eexists. split; [reflexivity |].
    eapply split_next; eassumption.
Qed.

Lemma dict_get_args st tk ea ci a :
  dict_get "args" (parsed_dict st tk ea ci a) = Some (ARRAY_OBJ (map STRING_OBJ a)).
Proof.
  unfold parsed_dict, dict_get.
  destruct (has (argt ea) EX_RANGE), (has (argt ea) EX_COUNT),
    (has (argt ea) EX_REGSTR); reflexivity.
Qed.

(** C9.  For every line the tokenizer parses: when the arity of the contract
    is exactlyOne or zeroOrOne, "args" is the whole trailing text as one
    element, and is empty when the text is empty; for every other arity, the
    loop over the splitter ends (the splitter moves forward and the turns are
    more than the length of the text) and "args" is the sequence of the
    segments of its calls, in order. *)
Theorem nvim_parse_cmd_args st tk fuel line ea ci :
  parse_cmdline tk (cstr line) = inl (ea, ci) ->
  (single_argument (arity_of (argt ea)) ->
   exists d,
     nvim_parse_cmd st tk fuel line [] = Some (Ok d)
     /\ dict_get "args" d
        = Some (ARRAY_OBJ (match cstr_at (arg ea) with
                           | EmptyString => []
                           | text => [STRING_OBJ text]
                           end)))
  /\ (~ single_argument (arity_of (argt ea)) ->
      nospc_has_extra (argt ea) ->
      splitter_advances tk (cstr_at (arg ea)) ->
      (String.length (cstr_at (arg ea)) < fuel)%nat ->
      exists d segs,
        nvim_parse_cmd st tk fuel line [] = Some (Ok d)
        /\ split_run tk (cstr_at (arg ea)) 0
                     (zeroed (String.length (cstr_at (arg ea)))) 0 segs
        /\ dict_get "args" d = Some (ARRAY_OBJ (map STRING_OBJ segs))).
Proof.
  intros Hparse. unfold nvim_parse_cmd. simpl. rewrite Hparse. split.
  - intros Hsingle. apply single_argument_flags in Hsingle as [_ Hnospc].
    rewrite (parse_args_single tk fuel ea Hnospc).
    eexists. split; [reflexivity |]. rewrite dict_get_args.
    destruct (cstr_at (arg ea)); reflexivity.
  - intros Hsplit Hwf Hadv Hfuel.
    assert (has (argt ea) EX_NOSPC = false) as Hnospc.
    { destruct (has (argt ea) EX_NOSPC) eqn:Hn; [| reflexivity].
      exfalso. apply Hsplit, single_argument_flags. split; [apply Hwf, Hn | exact Hn]. }
    unfold parse_args. rewrite Hnospc.
    destruct (split_args_run tk _ Hadv fuel 0%nat
                (zeroed (String.length (cstr_at (arg ea)))) 0%nat)
      as (segs & Hsegs & Hrun); [lia |].
    rewrite Hsegs. exists (parsed_dict st tk ea ci segs), segs.
    split; [reflexivity |]. split; [exact Hrun | apply dict_get_args].
Qed.

Example parse_args_demo :
  (match nvim_parse_cmd Demo.st Demo.tk 10 "echo  a b   c" [] with
   | Some (Ok d) => dict_get "args" d
   | _ => None
   end,
   match nvim_parse_cmd Demo.st Demo.tk 10 "edit  a b   c" [] with
   | Some (Ok d) => dict_get "args" d
   | _ => None
   end,
   match nvim_parse_cmd Demo.st Demo.tk 10 "edit" [] with
   | Some (Ok d) => dict_get "args" d
   | _ => None
   end)
  = (Some (ARRAY_OBJ [STRING_OBJ "a"; STRING_OBJ "b"; STRING_OBJ "c"]),
     Some (ARRAY_OBJ [STRING_OBJ "a b   c"]),
     Some (ARRAY_OBJ [])).
Proof. vm_compute. reflexivity. Qed.

Lemma demo_splitter_advances : splitter_advances Demo.tk "a b".
Proof.
  intros e buf len e' buf' len' H.
  destruct e as [|[|[|[|e]]]]; vm_compute in H; try discriminate H.
  injection H as <- _ _. simpl. lia.
Qed.

Lemma nvim_parse_cmd_args_witness :
  (exists ea ci,
     parse_cmdline Demo.tk (cstr "echo a b") = inl (ea, ci)
     /\ ~ single_argument (arity_of (argt ea))
     /\ nospc_has_extra (argt ea)
     /\ splitter_advances Demo.tk (cstr_at (arg ea))
     /\ (String.length (cstr_at (arg ea)) < 4)%nat
     /\ exists d segs,
          nvim_parse_cmd Demo.st Demo.tk 4 "echo a b" [] = Some (Ok d)
          /\ split_run Demo.tk (cstr_at (arg ea)) 0
                       (zeroed (String.length (cstr_at (arg ea)))) 0 segs
          /\ dict_get "args" d = Some (ARRAY_OBJ (map STRING_OBJ segs)))
  /\ (exists ea ci,
        parse_cmdline Demo.tk (cstr "edit a b") = inl (ea, ci)
        /\ single_argument (arity_of (argt ea))
        /\ exists d,
             nvim_parse_cmd Demo.st Demo.tk 0 "edit a b" [] = Some (Ok d)
             /\ dict_get "args" d
                = Some (ARRAY_OBJ (match cstr_at (arg ea) with
                                   | EmptyString => []
                                   | text => [STRING_OBJ text]
                                   end))).
Proof.
  split.
  - eexists. eexists.
    assert (forall (x : exarg_T * CmdParseInfo),
              parse_cmdline Demo.tk (cstr "echo a b") = inl x ->
              parse_cmdline Demo.tk (cstr "echo a b") = inl (fst x, snd x)) as Hpair
      by (intros [? ?] Hx; exact Hx).
    split; [apply Hpair; vm_compute; reflexivity |]. simpl fst.
    assert (~ single_argument (arity_of (Z.lor EX_EXTRA EX_SBOXOK))) as Hns
      by (intros [H | H]; vm_compute in H; discriminate H).
    assert (nospc_has_extra (Z.lor EX_EXTRA EX_SBOXOK)) as Hwf
      by (intros _; vm_compute; reflexivity).
    split; [exact Hns |]. split; [exact Hwf |].
    split; [exact demo_splitter_advances |].
    split; [vm_compute; lia |].
    refine (proj2 (nvim_parse_cmd_args Demo.st Demo.tk 4 "echo a b" _ _ eq_refl)
              Hns Hwf demo_splitter_advances _).
    vm_compute. lia.
  - eexists. eexists.
    assert (forall (x : exarg_T * CmdParseInfo),
              parse_cmdline Demo.tk (cstr "edit a b") = inl x ->
              parse_cmdline Demo.tk (cstr "edit a b") = inl (fst x, snd x)) as Hpair
      by (intros [? ?] Hx; exact Hx).
    split; [apply Hpair; vm_compute; reflexivity |]. simpl fst.
    assert (single_argument
              (arity_of (Z.lor EX_BANG (Z.lor EX_EXTRA (Z.lor EX_XFILE
                                                     (Z.lor EX_NOSPC EX_TRLBAR))))))
      as Hs by (right; vm_compute; reflexivity).
    split; [exact Hs |].
    exact (proj1 (nvim_parse_cmd_args Demo.st Demo.tk 0 "edit a b" _ _ eq_refl) Hs).
Defined.

(** ** The registry *)

Lemma uc_replace_find t name u old :
  uc_find t name = Some old ->
  exists t', uc_replace t name u = Some t' /\ length t' = length t
    /\ (uc_name u = name -> uc_find t' name = Some u)
    /\ (forall n, n <> name -> uc_name u = name -> uc_find t' n = uc_find t n).
Proof.
  unfold uc_find. induction t as [|x t IH]; simpl; [discriminate |].
  destruct (String.eqb_spec (uc_name x) name) as [Hx | Hx].
  - intros _. eexists. split; [reflexivity |]. split; [reflexivity |]. split.
    + intros Hu. simpl. rewrite Hu, String.eqb_refl. reflexivity.
    + intros n Hn Hu. simpl. rewrite Hu, Hx.
      destruct (String.eqb_spec name n); [congruence | reflexivity].
  - intros H. destruct (IH H) as (t' & -> & Hlen & Hfind & Hother).
    eexists. split; [reflexivity |]. split; [simpl; congruence |]. split.
    + intros Hu. simpl. destruct (String.eqb_spec (uc_name x) name); [contradiction |].
      apply Hfind, Hu.
    + intros n Hn Hu. simpl. destruct (String.eqb (uc_name x) n); [reflexivity |].
      apply Hother; assumption.
Qed.

Lemma uc_table_set st flags t : uc_table (set_uc_table st flags t) flags = t.
Proof.
  unfold uc_table, set_uc_table. destruct (has flags UC_BUFFER); simpl; [| reflexivity].
  rewrite lookup_insert_eq. reflexivity.
Qed.

(** The request of a call does not depend on [force], except for its [force]
    field. *)
Lemma create_user_command_request_force df name command opts f r :
  create_user_command_request df name command (with_force opts (BOOLEAN_OBJ true)) = Ok r ->
  create_user_command_request df name command (with_force opts f)
  = api_object_to_bool f "force" true ≫= (fun b => Ok (with_r_force r b)).
Proof.
  unfold create_user_command_request. simpl.
  destruct (negb (uc_validate_name df (cstr name))); [discriminate |].
  destruct (mb_islower df (first_char name)); [discriminate |].
  destruct (HAS_KEY (o_range opts) && HAS_KEY (o_count opts)); [discriminate |].
  destruct (opt_nargs _ _) as [argt0|]; [simpl | discriminate].
  destruct (HAS_KEY (o_complete opts) && (argt0 =? 0)); [discriminate |].
  destruct (opt_range _ _ _ _) as [[[argt1 def1] addr1]|]; [simpl | discriminate].
  destruct (opt_count _ _ _ _) as [[[argt2 def2] addr2]|]; [simpl | discriminate].
  destruct (opt_addr _ _ _ _) as [[argt3 addr3]|]; [simpl | discriminate].
  destruct (opt_flag (o_bang opts) _ _ _) as [argt4|]; [simpl | discriminate].
  destruct (opt_flag (o_bar opts) _ _ _) as [argt5|]; [simpl | discriminate].
  destruct (opt_flag (o_register_ opts) _ _ _) as [argt6|]; [simpl | discriminate].
  destruct (opt_flag (o_keepscript opts) _ _ _) as [argt7|]; [simpl | discriminate].
  destruct (opt_complete _ _ _) as [[[[compl argt8] compl_arg] compl_luaref]|];
    [simpl | discriminate].
  destruct (opt_preview _ _ _) as [[argt9 preview_luaref]|]; [simpl | discriminate].
  destruct (opt_command _ _ _) as [[luaref rep]|]; [simpl | discriminate].
  intros [= <-]. destruct (api_object_to_bool f "force" true); reflexivity.
Qed.

(** C2, as amended.  For every user command name already registered in the
    scope of the call, and every call that is valid but for [force]: with
    [force = false] the call fails with the exception "Failed to create user
    command" and leaves the registry as it was; with [force = true], and
    likewise without [force], whose default is true, it succeeds and replaces
    the entry of that name, leaving the entries of the other names alone. *)
Theorem create_user_command_force df st name command opts flags old r :
  uc_find (uc_table st flags) (cstr name) = Some old ->
  create_user_command_request df name command (with_force opts (BOOLEAN_OBJ true)) = Ok r ->
  create_user_command df st name command (with_force opts (BOOLEAN_OBJ false)) flags
  = (st, Some (api_set_error kErrorTypeException "Failed to create user command"))
  /\ (exists st',
        create_user_command df st name command (with_force opts (BOOLEAN_OBJ true)) flags
        = (st', None)
        /\ create_user_command df st name command (with_force opts NIL) flags
           = (st', None)
        /\ uc_find (uc_table st' flags) (cstr name) = Some (entry_of (cstr name) r)
        /\ length (uc_table st' flags) = length (uc_table st flags)
        /\ forall n, n <> cstr name ->
                     uc_find (uc_table st' flags) n = uc_find (uc_table st flags) n).
Proof.
  intros Hold Hreq.
  pose proof (uc_replace_find _ _ (entry_of (cstr name) r) _ Hold)
    as (t' & Hrep & Hlen & Hfind & Hother).
  assert (r_force r = true) as Hforce.
  { pose proof (create_user_command_request_force _ _ _ _ (BOOLEAN_OBJ true) _ Hreq) as H.
    rewrite Hreq in H. simpl in H. injection H as H. rewrite H. reflexivity. }
  unfold create_user_command.
  rewrite (create_user_command_request_force _ _ _ _ (BOOLEAN_OBJ false) _ Hreq).
  rewrite (create_user_command_request_force _ _ _ _ NIL _ Hreq).
  rewrite Hreq. simpl. unfold uc_add_command.
  fold (entry_of (cstr name) r). rewrite Hrep, Hforce. split; [reflexivity |].
  exists (set_uc_table st flags t'). rewrite uc_table_set.
  split; [reflexivity |]. split; [reflexivity |].
  split; [apply Hfind; reflexivity |]. split; [exact Hlen |].
  intros n Hn. apply Hother; [exact Hn | reflexivity].
Qed.

Lemma create_user_command_force_witness :
  uc_find (uc_table Demo.st_hello 0) (cstr "Hello") = Some Demo.hello_old
  /\ create_user_command_request Demo.df "Hello" (STRING_OBJ "echo 2")
       (with_force Demo.no_opts (BOOLEAN_OBJ true)) = Ok Demo.hello_request
  /\ create_user_command Demo.df Demo.st_hello "Hello" (STRING_OBJ "echo 2")
       (with_force Demo.no_opts (BOOLEAN_OBJ false)) 0
     = (Demo.st_hello,
        Some (api_set_error kErrorTypeException "Failed to create user command")).
Proof.
  assert (uc_find (uc_table Demo.st_hello 0) (cstr "Hello") = Some Demo.hello_old)
    as Hold by (vm_compute; reflexivity).
  assert (create_user_command_request Demo.df "Hello" (STRING_OBJ "echo 2")
            (with_force Demo.no_opts (BOOLEAN_OBJ true)) = Ok Demo.hello_request)
    as Hreq by (vm_compute; reflexivity).
  split; [exact Hold |]. split; [exact Hreq |].
  exact (proj1 (create_user_command_force Demo.df Demo.st_hello "Hello"
                  (STRING_OBJ "echo 2") Demo.no_opts 0 _ _ Hold Hreq)).
Defined.

(** C2 as stated fails: a second definition of [Hello] that does not pass
    [force] at all succeeds and overwrites the entry, since [force] defaults
    to true; and when [force] is false the error is the exception "Failed to
    create user command", not an error about the name. *)
Lemma create_user_command_force_counterexample :
  HAS_KEY (o_force Demo.no_opts) = false
  /\ (uc_rep <$> uc_find (ucmds Demo.st_hello) "Hello") = Some "echo 1"
  /\ (exists st',
        nvim_create_user_command Demo.df Demo.st_hello "Hello" (STRING_OBJ "echo 2")
                                 Demo.no_opts
        = (st', None)
        /\ (uc_rep <$> uc_find (ucmds st') "Hello") = Some "echo 2")
  /\ snd (nvim_create_user_command Demo.df Demo.st_hello "Hello" (STRING_OBJ "echo 2")
            (with_force Demo.no_opts (BOOLEAN_OBJ false)))
     = Some (api_set_error kErrorTypeException "Failed to create user command").
Proof.
  split; [reflexivity |]. split; [vm_compute; reflexivity |]. split.
  - eexists. split; vm_compute; reflexivity.
  - vm_compute. reflexivity.
Qed.

Example lowercase_name_demo :
  snd (nvim_create_user_command Demo.df Demo.st "hello" (STRING_OBJ "echo 1")
                                Demo.no_opts)
  = Some (api_set_error kErrorTypeValidation
            "'name' must begin with an uppercase letter").
Proof. vm_compute. reflexivity. Qed.

(** ** Listing *)

(** C8, as amended.  Listing the global scope with [builtin = true] fails with
    the validation error "builtin=true not implemented" before any listing;
    listing the scope of a buffer with [builtin = true] is not an error and
    returns an empty listing; with [builtin = false] the listing is the user
    command entries of the scope, global or of the buffer. *)
Theorem nvim_buf_get_commands_builtin st buffer o builtin :
  api_object_to_bool o "builtin" false = Ok builtin ->
  (buffer = -1 ->
   nvim_buf_get_commands st buffer o
   = if builtin then VALIDATION_ERROR "builtin=true not implemented"
     else Ok (ucmds st))
  /\ (buffer <> -1 ->
      forall buf, find_buffer_by_handle st buffer = Ok buf ->
      nvim_buf_get_commands st buffer o
      = if builtin then Ok [] else Ok (default [] (b_ucmds st !! buf)))
  /\ (buffer <> -1 ->
      forall e, find_buffer_by_handle st buffer = Err e ->
      nvim_buf_get_commands st buffer o = Err e).
Proof.
  intros Hb. unfold nvim_buf_get_commands. rewrite Hb. simpl.
  split; [| split].
  - intros ->. simpl. destruct builtin; reflexivity.
  - intros Hne buf Hbuf. destruct (Z.eqb_spec buffer (-1)); [contradiction |].
    rewrite Hbuf. simpl. destruct builtin; reflexivity.
  - intros Hne e Hbuf. destruct (Z.eqb_spec buffer (-1)); [contradiction |].
    rewrite Hbuf. reflexivity.
Qed.

Lemma nvim_buf_get_commands_builtin_witness :
  api_object_to_bool (BOOLEAN_OBJ true) "builtin" false = Ok true
  /\ nvim_buf_get_commands Demo.st_hello (-1) (BOOLEAN_OBJ true)
     = VALIDATION_ERROR "builtin=true not implemented"
  /\ nvim_buf_get_commands Demo.st_hello 1 (BOOLEAN_OBJ true) = Ok [].
Proof.
  split; [reflexivity |].
  destruct (nvim_buf_get_commands_builtin Demo.st_hello (-1) (BOOLEAN_OBJ true) true
              eq_refl) as (Hglobal & _ & _).
  destruct (nvim_buf_get_commands_builtin Demo.st_hello 1 (BOOLEAN_OBJ true) true
              eq_refl) as (_ & Hlocal & _).
  split; [exact (Hglobal eq_refl) |].
  refine (Hlocal _ 1 _); [discriminate | vm_compute; reflexivity].
Defined.

(** C8 as stated fails for the scope of a buffer: buffer 1 has the user
    command [Hello], and listing it with [builtin = true] is no error, it
    returns the empty listing. *)
Lemma nvim_buf_get_commands_builtin_counterexample :
  (uc_name <$> default [] (b_ucmds Demo.st_hello !! 1)) = ["Hello"]
  /\ nvim_buf_get_commands Demo.st_hello 1 (BOOLEAN_OBJ true) = Ok []
  /\ ~ is_validation_error (nvim_buf_get_commands Demo.st_hello 1 (BOOLEAN_OBJ true))
  /\ (fmap (M := list) uc_name <$>
        (match nvim_buf_get_commands Demo.st_hello 1 (BOOLEAN_OBJ false) with
         | Ok l => Some l
         | Err _ => None
         end)) = Some ["Hello"].
Proof.
  split; [vm_compute; reflexivity |]. split; [vm_compute; reflexivity |]. split.
  - intros [msg H]. vm_compute in H. discriminate H.
  - vm_compute. reflexivity.
Qed.

(** * Further properties of the code *)

(** ** Deleting a user command *)

Lemma del_ucmd_None gap name :
  del_ucmd gap name = None <-> Forall (fun cmd => ~ named name cmd) gap.
Proof.
  unfold named. induction gap as [|cmd rest IH]; simpl.
  - split; [constructor | reflexivity].
  - destruct (String.eqb (cstr name) (cstr (uc_name cmd))) eqn:Hcmp.
    + apply String.eqb_eq in Hcmp. split; [discriminate|].
      intros H. inversion H; subst. congruence.
    + apply String.eqb_neq in Hcmp.
      destruct (del_ucmd rest name) as [rest'|].
      * split; [discriminate|]. intros H. inversion H; subst.
        destruct IH as [_ IH]. specialize (IH H3). discriminate.
      * split; [|reflexivity]. intros _. constructor; [congruence|].
        apply IH. reflexivity.
Qed.

Lemma del_ucmd_Some gap name gap' :
  del_ucmd gap name = Some gap' ->
  exists i, first_named gap name i /\ gap' = delete i gap.
Proof.
  unfold first_named, named. revert gap'.
  induction gap as [|cmd rest IH]; simpl; intros gap' H; [discriminate|].
  destruct (String.eqb (cstr name) (cstr (uc_name cmd))) eqn:Hcmp.
  - apply String.eqb_eq in Hcmp. injection H as <-. exists 0%nat.
    split; [split|reflexivity].
    + exists cmd. split; [reflexivity | congruence].
    + intros j c Hj. lia.
  - apply String.eqb_neq in Hcmp.
    destruct (del_ucmd rest name) as [rest'|]; [|discriminate].
    injection H as <-. destruct (IH rest' eq_refl) as [i [[Hi Hfirst] ->]].
    exists (S i). split; [split|reflexivity].
    + exact Hi.
    + intros [|j] c Hj Hc; simpl in Hc.
      * injection Hc as <-. congruence.
      * apply (Hfirst j c); [lia | exact Hc].
Qed.

Lemma first_named_unique gap name i j :
  first_named gap name i -> first_named gap name j -> i = j.
Proof.
  intros [(ci & Hi & Hni) Hfi] [(cj & Hj & Hnj) Hfj].
  destruct (Nat.lt_trichotomy i j) as [Hlt | [Heq | Hgt]]; [|exact Heq|].
  - destruct (Hfj i ci Hlt Hi Hni).
  - destruct (Hfi j cj Hgt Hj Hnj).
Qed.

Lemma first_named_del_ucmd gap name i :
  first_named gap name i -> del_ucmd gap name = Some (delete i gap).
Proof.
  intros Hfirst. destruct (del_ucmd gap name) as [gap'|] eqn:Hdel.
  - destruct (del_ucmd_Some _ _ _ Hdel) as (j & Hj & ->).
    rewrite (first_named_unique _ _ _ _ Hfirst Hj). reflexivity.
  - apply del_ucmd_None in Hdel. destruct Hfirst as [(cmd & Hcmd & Hnamed) _].
    rewrite Forall_forall in Hdel.
    destruct (Hdel cmd (proj2 (list_elem_of_In _ _) (proj1 (list_elem_of_In _ _)
                (list_elem_of_lookup_2 _ _ _ Hcmd))) Hnamed).
Qed.

(** X1. A deletion that reports an error changed nothing: the state is the one
    before the call, the error is the exception "No such user-defined command:
    <name>", and for the global scope no entry of the table has that name. *)
Theorem nvim_buf_del_user_command_failure st buffer name st' e :
  nvim_buf_del_user_command st buffer name = Some (st', Some e) ->
  st' = st /\ e = no_such_command name /\
  (buffer = -1 -> Forall (fun cmd => ~ named name cmd) (ucmds st)).
Proof.
  unfold nvim_buf_del_user_command, no_such_command.
  destruct (buffer =? -1) eqn:Hglobal.
  - destruct (del_ucmd (ucmds st) name) eqn:Hdel; [discriminate|].
    intros H. injection H as <- <-. repeat split.
    intros _. apply del_ucmd_None. exact Hdel.
  - destruct (find_buffer_by_handle st buffer) as [buf|]; [|discriminate].
    destruct (del_ucmd _ name); [discriminate|].
    intros H. injection H as <- <-. repeat split.
    intros ->. discriminate.
Qed.

Lemma nvim_buf_del_user_command_failure_witness :
  nvim_buf_del_user_command Cases.st (-1) "Local"
  = Some (Cases.st, Some (no_such_command "Local"))
  /\ Forall (fun cmd => ~ named "Local" cmd) (ucmds Cases.st).
Proof.
  assert (H : nvim_buf_del_user_command Cases.st (-1) "Local"
              = Some (Cases.st, Some (no_such_command "Local")))
    by (vm_compute; reflexivity).
  split; [exact H|].
  exact (proj2 (proj2 (nvim_buf_del_user_command_failure _ _ _ _ _ H)) eq_refl).
Defined.

(** X2. Deleting a global command that exists removes exactly the first entry
    of the global table with that name: the entries before and after it stay,
    in their order, every buffer's table is untouched and no error is set. *)
Theorem nvim_del_user_command_removes st name i :
  first_named (ucmds st) name i ->
  nvim_del_user_command st name
  = Some (mk_state (delete i (ucmds st)) (b_ucmds st) (curbuf st), None).
Proof.
  intros Hfirst. unfold nvim_del_user_command, nvim_buf_del_user_command.
  change (-1 =? -1) with true. cbv iota.
  rewrite (first_named_del_ucmd _ _ _ Hfirst). reflexivity.
Qed.

Lemma first_named_head cmd rest name :
  named name cmd -> first_named (cmd :: rest) name 0.
Proof.
  intros H. split; [exists cmd; split; [reflexivity | exact H]|].
  intros j c Hj. lia.
Qed.

Lemma nvim_del_user_command_removes_witness :
  first_named (ucmds Cases.st) "Hello" 0
  /\ nvim_del_user_command Cases.st "Hello"
     = Some (mk_state [Cases.entry "Bye" "echo 2"] (b_ucmds Cases.st) 1, None).
Proof.
  split; [apply first_named_head; reflexivity|].
  apply (nvim_del_user_command_removes Cases.st "Hello" 0).
  apply first_named_head; reflexivity.
Defined.

(** X3. Deleting a command of a buffer removes the first entry with that name
    from the table of that buffer only: the global table and the table of
    every other buffer are the ones before the call. *)
Theorem nvim_buf_del_user_command_local st buffer buf name i :
  buffer <> -1 ->
  find_buffer_by_handle st buffer = Ok buf ->
  first_named (default [] (b_ucmds st !! buf)) name i ->
  exists st',
    nvim_buf_del_user_command st buffer name = Some (st', None)
    /\ b_ucmds st' !! buf = Some (delete i (default [] (b_ucmds st !! buf)))
    /\ ucmds st' = ucmds st
    /\ curbuf st' = curbuf st
    /\ forall other, other <> buf -> b_ucmds st' !! other = b_ucmds st !! other.
Proof.
  intros Hlocal Hbuf Hfirst. unfold nvim_buf_del_user_command.
  destruct (buffer =? -1) eqn:Hcmp; [apply Z.eqb_eq in Hcmp; contradiction|].
  rewrite Hbuf, (first_named_del_ucmd _ _ _ Hfirst).
  eexists. split; [reflexivity|]. simpl. split; [apply lookup_insert_eq|].
  split; [reflexivity|]. split; [reflexivity|].
  intros other Hother. apply lookup_insert_ne. congruence.
Qed.

Lemma nvim_buf_del_user_command_local_witness :
  exists st',
    nvim_buf_del_user_command Cases.st 0 "Hello" = Some (st', None)
    /\ b_ucmds st' !! 1 = Some [Cases.entry "Local" "echo 3"]
    /\ ucmds st' = ucmds Cases.st
    /\ curbuf st' = 1
    /\ forall other, other <> 1 -> b_ucmds st' !! other = b_ucmds Cases.st !! other.
Proof.
  refine (nvim_buf_del_user_command_local Cases.st 0 1 "Hello" 1 _ _ _).
  - discriminate.
  - reflexivity.
  - split.
    + exists (Cases.entry "Hello" "echo 4"). split; reflexivity.
    + intros [|j] cmd Hj Hcmd; [|lia]. vm_compute in Hcmd.
      injection Hcmd as <-. discriminate.
Defined.

Lemma unique_names_delete gap name i :
  unique_names gap -> first_named gap name i ->
  Forall (fun cmd => ~ named name cmd) (delete i gap).
Proof.
  unfold unique_names, first_named, named. revert i.
  induction gap as [|cmd rest IH]; intros i Hnodup [(c & Hc & Hnamed) Hfirst].
  - constructor.
  - rewrite fmap_cons in Hnodup. apply NoDup_cons in Hnodup as [Hnotin Hnodup].
    destruct i as [|i]; simpl in *.
    + injection Hc as ->. apply Forall_forall. intros x Hx Hxn.
      apply Hnotin. rewrite Hnamed, <- Hxn.
      apply list_elem_of_fmap. exists x. split; [reflexivity | exact Hx].
    + constructor.
      * apply (Hfirst 0%nat cmd); [lia | reflexivity].
      * apply IH; [exact Hnodup|]. split; [exists c; split; assumption|].
        intros j c' Hj Hc'. apply (Hfirst (S j) c'); [lia | exact Hc'].
Qed.

(** X4. When the names of the global table are unique, a second deletion of
    the same name fails: after a deletion that succeeded, deleting the name
    again reports "No such user-defined command" and changes nothing. *)
Theorem nvim_del_user_command_twice st name st' :
  unique_names (ucmds st) ->
  nvim_del_user_command st name = Some (st', None) ->
  nvim_del_user_command st' name = Some (st', Some (no_such_command name)).
Proof.
  intros Hunique. unfold nvim_del_user_command, nvim_buf_del_user_command.
  change (-1 =? -1) with true. cbv iota.
  destruct (del_ucmd (ucmds st) name) as [gap'|] eqn:Hdel; [|discriminate].
  intros H. injection H as <-. simpl.
  destruct (del_ucmd_Some _ _ _ Hdel) as (i & Hfirst & ->).
  pose proof (unique_names_delete _ _ _ Hunique Hfirst) as Hgone.
  apply del_ucmd_None in Hgone. rewrite Hgone. reflexivity.
Qed.

Lemma nvim_del_user_command_twice_witness :
  unique_names (ucmds Cases.st)
  /\ nvim_del_user_command Cases.st "Bye"
     = Some (mk_state [Cases.entry "Hello" "echo 1"] (b_ucmds Cases.st) 1, None)
  /\ nvim_del_user_command
       (mk_state [Cases.entry "Hello" "echo 1"] (b_ucmds Cases.st) 1) "Bye"
     = Some (mk_state [Cases.entry "Hello" "echo 1"] (b_ucmds Cases.st) 1,
             Some (no_such_command "Bye")).
Proof.
  assert (Hunique : unique_names (ucmds Cases.st)).
  { unfold unique_names. simpl. apply NoDup_cons. split.
    - intros H. apply list_elem_of_In in H. simpl in H.
      destruct H as [H|[]]. discriminate.
    - apply NoDup_cons. split; [intros H; inversion H | constructor]. }
  split; [exact Hunique|]. split; [reflexivity|].
  exact (nvim_del_user_command_twice Cases.st "Bye" _ Hunique eq_refl).
Defined.

(** ** The layout of the command line *)

Lemma cmdline_args_cons s a :
  cmdline_args (s :: a) = String " " (s +:+ cmdline_args a).
Proof. reflexivity. Qed.

Lemma arg_ptrs_located cmdline a : forall offset,
  string_drop offset cmdline = cmdline_args a ->
  Forall2 (fun p s => points_into cmdline p /\ bytes_at p (String.length s) = s)
          (arg_ptrs cmdline offset (map String.length a)) a.
Proof.
  induction a as [|s a IH]; intros offset Hoff; simpl; [constructor|].
  rewrite cmdline_args_cons in Hoff.
  assert (Hs : string_drop (S offset) cmdline = s +:+ cmdline_args a).
  { replace (S offset) with (offset + 1)%nat by lia.
    rewrite string_drop_add, Hoff. reflexivity. }
  constructor.
  - split; [eexists; reflexivity|]. unfold bytes_at. rewrite Hs.
    apply string_take_app.
  - apply IH. change (S (offset + String.length s)) with (S offset + String.length s)%nat.
    rewrite string_drop_add, Hs. apply string_drop_app.
Qed.

Lemma arg_ptrs_length cmdline lens : forall offset,
  length (arg_ptrs cmdline offset lens) = length lens.
Proof.
  induction lens as [|len lens IH]; intros offset; simpl;
    [reflexivity | rewrite IH; reflexivity].
Qed.

(** X5. The pointers [build_cmdline_str] leaves in [eap] locate the pieces of
    the line it built: [cmd] points at the command name, [args[i]] and
    [arglens[i]] delimit the text of argument [i], [argc] counts the
    arguments, and [arg] is [args[0]], or the end of the line when there is no
    argument.  The exception is a line that [replace_makeprg] rewrote, where
    the argument arrays are cleared and [argc] is 0. *)
Theorem build_cmdline_str_layout ed ea cmdinfo a cmdline ea' :
  build_cmdline_str ed ea cmdinfo a = (cmdline, ea') ->
  (cmdline = cmdline_text ea cmdinfo a
   /\ argc ea' = length a
   /\ arglens ea' = map String.length a
   /\ Forall2 (fun p s => points_into cmdline p /\ bytes_at p (String.length s) = s)
              (args ea') a
   /\ points_into cmdline (cmd ea')
   /\ bytes_at (cmd ea') (String.length (cstr_at (cmd ea))) = cstr_at (cmd ea)
   /\ arg ea' = hd (ptr cmdline (String.length cmdline)) (args ea'))
  \/ (args ea' = [] /\ arglens ea' = [] /\ argc ea' = 0%nat
      /\ exists e, replace_makeprg ed e (cmdline_text ea cmdinfo a) <> None).
Proof.
  unfold build_cmdline_str.
  set (prefix := kv_concat_all (cmdline_mods (cmdmod cmdinfo)) +:+ cmdline_range ea).
  match goal with
  | |- context [replace_makeprg ed ?e ?l] =>
      destruct (replace_makeprg ed e l) as [[p cmdline']|] eqn:Hmake
  end.
  - intros [= <- <-]. right. repeat split. eexists. rewrite Hmake. discriminate.
  - intros [= <- <-]. left. simpl. split; [reflexivity|]. split; [reflexivity|].
    split; [reflexivity|]. split.
    + apply arg_ptrs_located. unfold cmdline_text. fold prefix.
      rewrite <- append_assoc. apply string_drop_app.
    + split; [eexists; reflexivity|]. split.
      * unfold cmdline_text, cmdline_name. fold prefix.
        rewrite string_drop_app, !append_assoc. apply string_take_app.
      * destruct a; reflexivity.
Qed.

Lemma build_cmdline_str_layout_witness :
  exists cmdline ea',
    build_cmdline_str Demo.ed (with_cmd ea_clear (ptr "echo" 0))
                      (mk_cmdinfo cmdmod_clear (mk_magic false false)) ["a b"; "c"]
    = (cmdline, ea')
    /\ cmdline = "echo a b c"
    /\ argc ea' = 2%nat
    /\ arglens ea' = [3; 1]%nat
    /\ Forall2 (fun p s => points_into cmdline p /\ bytes_at p (String.length s) = s)
               (args ea') ["a b"; "c"].
Proof.
  eexists. eexists. split; [vm_compute; reflexivity|].
  destruct (build_cmdline_str_layout Demo.ed (with_cmd ea_clear (ptr "echo" 0))
              (mk_cmdinfo cmdmod_clear (mk_magic false false)) ["a b"; "c"]
              _ _ ltac:(vm_compute; reflexivity)) as [(H1 & H2 & H3 & H4 & _) | (H & _)].
  - split; [reflexivity|]. split; [reflexivity|]. split; [reflexivity|]. exact H4.
  - discriminate H.
Defined.

(** ** No NUL byte in the command line *)

Lemma no_NUL_cstr s : no_NUL (cstr s).
Proof. apply cstr_idem. Qed.

Lemma no_NUL_app s1 s2 : no_NUL s1 -> no_NUL s2 -> no_NUL (s1 +:+ s2).
Proof.
  unfold no_NUL. induction s1 as [|c s1 IH]; intros H1 H2; [exact H2|].
  simpl in H1. change (cstr (String c (s1 +:+ s2)) = String c (s1 +:+ s2)).
  simpl. destruct (Ascii.eqb c NUL); [discriminate H1|].
  injection H1 as H1. rewrite (IH H1 H2). reflexivity.
Qed.

Lemma no_NUL_uint u : no_NUL (NilEmpty.string_of_uint u).
Proof.
  unfold no_NUL. induction u; simpl; [reflexivity | rewrite IHu; reflexivity ..].
Qed.

Lemma no_NUL_decimal z : no_NUL (decimal z).
Proof.
  unfold decimal, NilZero.string_of_int, NilZero.string_of_uint.
  destruct (Z.to_int z) as [u|u].
  - destruct u; try reflexivity; apply no_NUL_uint.
  - apply (no_NUL_app "-"); [reflexivity|].
    destruct u; try reflexivity; apply no_NUL_uint.
Qed.

Lemma no_NUL_kv_concat_all pieces :
  Forall no_NUL pieces -> no_NUL (kv_concat_all pieces).
Proof.
  induction 1 as [|s pieces Hs _ IH]; [reflexivity|].
  apply no_NUL_app; assumption.
Qed.

Lemma no_NUL_cmdline_mods cm : Forall no_NUL (cmdline_mods cm).
Proof.
  unfold cmdline_mods, cmdline_tab, cmdline_verbose, cmdline_silent,
    cmdline_other_mods.
  repeat (apply Forall_app; split);
    first [ apply Forall_APPEND_IF;
            first [ reflexivity | apply no_NUL_app; [apply no_NUL_decimal | reflexivity] ]
          | repeat destruct (has _ _); repeat constructor; reflexivity
          | repeat destruct (_ =? _); repeat constructor; reflexivity ].
Qed.

Lemma no_NUL_cmdline_range ea : no_NUL (cmdline_range ea).
Proof.
  unfold cmdline_range. destruct (has _ _); [|reflexivity].
  destruct (_ =? _); [apply no_NUL_decimal|].
  destruct (_ <? _); [|reflexivity].
  apply no_NUL_app; [apply no_NUL_decimal|].
  apply (no_NUL_app ","); [reflexivity | apply no_NUL_decimal].
Qed.

Lemma no_NUL_cmdline_name ea : no_NUL (cmdline_name ea).
Proof.
  unfold cmdline_name. apply no_NUL_app; [apply cstr_at_cstr|].
  apply no_NUL_app; [destruct (_ && _); reflexivity|].
  destruct (has _ _); [|reflexivity]. simpl.
  destruct (Ascii.eqb (regname ea) NUL) eqn:Hreg; [reflexivity|].
  unfold no_NUL. simpl. rewrite Hreg. reflexivity.
Qed.

Lemma no_NUL_cmdline_args a : Forall no_NUL a -> no_NUL (cmdline_args a).
Proof.
  intros H. apply no_NUL_kv_concat_all. apply Forall_forall.
  intros x Hx. apply list_elem_of_In, in_map_iff in Hx as (s & <- & Hs).
  apply (no_NUL_app " "); [reflexivity|].
  rewrite Forall_forall in H. apply H, list_elem_of_In, Hs.
Qed.

Lemma converted_no_NUL elem s : converted elem s -> no_NUL s.
Proof.
  intros []; try reflexivity; try apply no_NUL_decimal. apply no_NUL_cstr.
Qed.

Lemma cmd_args_no_NUL argt args a : cmd_args argt args = Ok a -> Forall no_NUL a.
Proof.
  unfold cmd_args. destruct (HAS_KEY args); [|intros [= <-]; constructor].
  destruct args; try discriminate. intros H.
  apply bind_Ok in H as (a' & Ha' & H).
  destruct (argc_valid argt (length a')); [|discriminate]. injection H as <-.
  apply args_to_strings_converted in Ha'.
  induction Ha' as [|elem s items a' Hs _ IH]; constructor;
    [exact (converted_no_NUL _ _ Hs) | exact IH].
Qed.

(** X6. The command line built for a descriptor that passed the validation
    holds no NUL byte: read as a C string it is the whole text, whatever
    bytes the strings of the descriptor held. *)
Theorem nvim_cmd_validate_no_NUL ed c o v :
  nvim_cmd_validate ed c o = Ok v ->
  no_NUL (cmdline_text (v_ea v) (v_cmdinfo v) (v_args v)).
Proof.
  intros Hv. apply nvim_cmd_validate_run in Hv.
  destruct (validation_run_args _ _ _ _ Hv) as (cmdname & ea0 & _ & _ & Hargs).
  unfold cmdline_text. apply no_NUL_app.
  - apply no_NUL_app;
      [apply no_NUL_kv_concat_all, no_NUL_cmdline_mods | apply no_NUL_cmdline_range].
  - apply no_NUL_app; [apply no_NUL_cmdline_name|].
    apply no_NUL_cmdline_args. exact (cmd_args_no_NUL _ _ _ Hargs).
Qed.

Lemma nvim_cmd_validate_no_NUL_witness :
  exists v,
    nvim_cmd_validate Demo.ed Cases.echo_nul NIL = Ok v
    /\ cmdline_text (v_ea v) (v_cmdinfo v) (v_args v) = "echo a 7"
    /\ no_NUL (cmdline_text (v_ea v) (v_cmdinfo v) (v_args v)).
Proof.
  eexists. split; [vm_compute; reflexivity|]. split; [reflexivity|].
  refine (nvim_cmd_validate_no_NUL Demo.ed Cases.echo_nul NIL _ _).
  vm_compute; reflexivity.
Defined.

(** ** An explicit range *)

(** What the blocks after the range leave of it when no count is given. *)
Lemma validation_run_range ed c o v :
  validation_run ed c o v ->
  HAS_KEY (k_count c) = false ->
  exists cmdname ea0 ea2,
    cmd_name (k_cmd c) = Ok cmdname /\ resolve_cmd ed cmdname = Ok ea0
    /\ cmd_range ed (with_addr_type ea0 (set_cmd_addr_type ed ea0 (head (v_args v))))
                 (k_range c) = Ok ea2
    /\ same_range (default_range ed ea2) (v_ea v).
Proof.
  intros [output cmdname ea0 a ea2 ea4 ea5 ea6 ea7 mg cm
            H1 H2 H3 H4 H5 H6 H7 H8 H9 H10] Hcount.
  exists cmdname, ea0, ea2. simpl. split; [exact H2|]. split; [exact H3|].
  split; [exact H5|].
  unfold cmd_count in H6. rewrite Hcount in H6. injection H6 as <-.
  apply cmd_reg_same_range in H7. apply cmd_bang_same_range in H8.
  apply cmd_magic_same in H9.
  destruct H7 as (A1 & A2 & A3), H8 as (B1 & B2 & B3),
    H9 as (_ & _ & _ & C1 & C2 & C3 & _).
  repeat split; congruence.
Qed.

Lemma cmd_range_items ed ea items ea' :
  items <> [] ->
  cmd_range ed ea (ARRAY_OBJ items) = Ok ea' ->
  has (argt ea) EX_RANGE = true
  /\ (length items <= 2)%nat
  /\ forallb range_elem_ok items = true
  /\ argt ea' = argt ea
  /\ addr_count ea' = Z.of_nat (length items)
  /\ line1 ea' = to_linenr (integer_of (hd NIL items))
  /\ line2 ea' = to_linenr (integer_of (List.last items NIL)).
Proof.
  intros Hne. unfold cmd_range. simpl.
  destruct (has (argt ea) EX_RANGE); [simpl | discriminate].
  destruct (2 <? length items)%nat eqn:Hlen; [discriminate|].
  apply Nat.ltb_ge in Hlen.
  destruct (forallb range_elem_ok items); [simpl | discriminate].
  destruct items as [|first rest]; [contradiction|].
  destruct (invalid_range ed _); [discriminate|].
  intros [= <-]. simpl argt. simpl addr_count. simpl line1. simpl line2.
  repeat split; [exact Hlen|].
  destruct rest as [|x [|y rest]]; try reflexivity. simpl in Hlen. lia.
Qed.

(** X7. A range given for a command that passes the validation, without a
    count, is an array of one or two non-negative integers; the command has
    as many addresses as the array has elements, its first line is the first
    element and its last line the last element, each cut to 32 bits, in the
    order given; the line built has them before the command name, "l2" for
    one address and "l1,l2" for two. *)
Theorem nvim_cmd_validate_range ed c o v items :
  nvim_cmd_validate ed c o = Ok v ->
  k_range c = ARRAY_OBJ items ->
  items <> [] ->
  HAS_KEY (k_count c) = false ->
  (length items <= 2)%nat
  /\ Forall (fun elem => exists i, elem = INTEGER_OBJ i /\ 0 <= i) items
  /\ has (argt (v_ea v)) EX_RANGE = true
  /\ addr_count (v_ea v) = Z.of_nat (length items)
  /\ line1 (v_ea v) = to_linenr (integer_of (hd NIL items))
  /\ line2 (v_ea v) = to_linenr (integer_of (List.last items NIL))
  /\ cmdline_range (v_ea v)
     = if (length items =? 1)%nat then decimal (line2 (v_ea v))
       else decimal (line1 (v_ea v)) +:+ "," +:+ decimal (line2 (v_ea v)).
Proof.
  intros Hv Hrange Hne Hcount. apply nvim_cmd_validate_run in Hv.
  destruct (validation_run_range _ _ _ _ Hv Hcount)
    as (cmdname & ea0 & ea2 & Hname & Hres & Hr & Hsame).
  destruct (validation_run_command _ _ _ _ Hv)
    as (cmdname' & ea0' & Hname' & Hres' & _ & _ & _ & _ & Hbits).
  rewrite Hname in Hname'. injection Hname' as <-.
  rewrite Hres in Hres'. injection Hres' as <-.
  rewrite Hrange in Hr.
  destruct (cmd_range_items _ _ _ _ Hne Hr) as (Hhas & Hlen & Hok & Hargt & Hn & Hl1 & Hl2).
  simpl in Hhas.
  assert (Hcount2 : (addr_count ea2 =? 0) = false).
  { rewrite Hn. apply Z.eqb_neq. destruct items; [contradiction | simpl; lia]. }
  unfold default_range in Hsame. rewrite Hcount2 in Hsame.
  destruct Hsame as (S1 & S2 & S3).
  assert (Hrange_bit : has (argt (v_ea v)) EX_RANGE = true).
  { rewrite (Hbits EX_RANGE 0) by (reflexivity || lia). exact Hhas. }
  split; [exact Hlen|]. split.
  { apply Forall_forall. intros elem Hin.
    rewrite forallb_forall in Hok. specialize (Hok elem (proj1 (list_elem_of_In _ _) Hin)).
    destruct elem; try discriminate Hok. eexists. split; [reflexivity|].
    simpl in Hok. apply Z.leb_le, Hok. }
  split; [exact Hrange_bit|]. split; [congruence|]. split; [congruence|].
  split; [congruence|].
  unfold cmdline_range. rewrite Hrange_bit, S1, Hn.
  destruct items as [|x [|y [|z rest]]]; [contradiction | reflexivity | reflexivity |].
  simpl in Hlen. lia.
Qed.

Lemma nvim_cmd_validate_range_witness :
  exists v,
    nvim_cmd_validate Demo.ed Cases.yank_5_3 NIL = Ok v
    /\ addr_count (v_ea v) = 2
    /\ line1 (v_ea v) = 3 /\ line2 (v_ea v) = 5
    /\ cmdline_range (v_ea v) = "3,5".
Proof.
  eexists. split; [vm_compute; reflexivity|].
  destruct (nvim_cmd_validate_range Demo.ed Cases.yank_5_3 NIL _
              [INTEGER_OBJ 3; INTEGER_OBJ 5] ltac:(vm_compute; reflexivity) eq_refl)
    as (_ & _ & _ & Hn & Hl1 & Hl2 & Htext); [discriminate | reflexivity |].
  split; [exact Hn|]. split; [exact Hl1|]. split; [exact Hl2|]. exact Htext.
Defined.

(** ** The boolean modifiers *)

Lemma mods_filter_flags ed o cm cm' :
  mods_filter ed o cm = Ok cm' ->
  cmod_flags cm' = cmod_flags cm /\ cmod_split cm' = cmod_split cm.
Proof. unfold mods_filter. intros H. step_cases H; injection H as <-; split; reflexivity. Qed.

Lemma mods_tab_flags o cm cm' :
  mods_tab o cm = Ok cm' ->
  cmod_flags cm' = cmod_flags cm /\ cmod_split cm' = cmod_split cm.
Proof. unfold mods_tab. intros H. step_cases H; injection H as <-; split; reflexivity. Qed.

Lemma mods_verbose_flags o cm cm' :
  mods_verbose o cm = Ok cm' ->
  cmod_flags cm' = cmod_flags cm /\ cmod_split cm' = cmod_split cm.
Proof. unfold mods_verbose. intros H. step_cases H; injection H as <-; split; reflexivity. Qed.

Lemma mods_split_flags o cm cm' :
  mods_split o cm = Ok cm' -> cmod_flags cm' = cmod_flags cm.
Proof. unfold mods_split. intros H. step_cases H; injection H as <-; reflexivity. Qed.

Lemma OBJ_TO_CMOD_FLAG_flags f v n cm cm' :
  OBJ_TO_CMOD_FLAG f v n cm = Ok cm' ->
  exists b, api_object_to_bool v n false = Ok b
            /\ cmod_split cm' = cmod_split cm
            /\ cmod_flags cm'
               = if b : bool then Z.lor (cmod_flags cm) f else cmod_flags cm.
Proof.
  unfold OBJ_TO_CMOD_FLAG. intros H. apply bind_Ok in H as (b & Hb & H).
  injection H as <-. exists b. destruct b; repeat split; assumption.
Qed.

Lemma has_if_lor (b : bool) (x f g k : Z) :
  g = 2 ^ k -> 0 <= k ->
  has (if b then Z.lor x f else x) g = has x g || (b && has f g).
Proof.
  intros Hg Hk. destruct b.
  - apply (has_lor _ _ _ k); assumption.
  - rewrite orb_false_r. reflexivity.
Qed.

(** Evaluates the tests [has f g] of two constants. *)
Ltac fold_has :=
  repeat match goal with
  | |- context [has ?f ?g] =>
      let v := eval vm_compute in (has f g) in
      match v with
      | true => change (has f g) with true
      | false => change (has f g) with false
      end
  end.

(** X8. The boolean modifiers of a descriptor that passes the modifier checks
    come back from the report of [nvim_parse_cmd]: each of the fourteen flag
    modifiers reads as a boolean, its flag is set in [cmod_flags] exactly when
    it reads as true, [silent] also when [emsg_silent] does, and the "mods"
    dictionary of [nvim_parse_cmd] reports that flag under the same key. *)
Theorem cmd_mods_fields_flags ed ea mods cm k f :
  cmd_mods_fields ed ea mods cmdmod_clear = Ok cm ->
  In (k, f) flag_mods ->
  exists b,
    api_object_to_bool (field mods k) (mods_varname k) false = Ok b
    /\ has (cmod_flags cm) f
       = b || (bool_decide (k = "silent") && has (cmod_flags cm) CMOD_ERRSILENT)
    /\ dict_get k (parsed_mods cm) = Some (BOOLEAN_OBJ (has (cmod_flags cm) f)).
Proof.
  unfold cmd_mods_fields. intros H Hin.
  apply bind_Ok in H as (cm1 & H1 & H). apply mods_filter_flags in H1 as [F1 _].
  apply bind_Ok in H as (cm2 & H2 & H). apply mods_tab_flags in H2 as [F2 _].
  apply bind_Ok in H as (cm3 & H3 & H). apply mods_verbose_flags in H3 as [F3 _].
  apply bind_Ok in H as (bv & _ & H). apply bind_Ok in H as (cm4 & [= <-] & H).
  apply bind_Ok in H as (bh & _ & H). apply bind_Ok in H as (cm5 & [= <-] & H).
  apply bind_Ok in H as (cm6 & H6 & H). apply mods_split_flags in H6. simpl in H6.
  assert (F0 : cmod_flags cm6 = 0) by (rewrite H6, F3, F2, F1; reflexivity).
  clear H6 F3 F2 F1.
  apply bind_Ok in H as (c1 & S1 & H).
  apply OBJ_TO_CMOD_FLAG_flags in S1 as (b1 & B1 & _ & G1).
  apply bind_Ok in H as (c2 & S2 & H).
  apply OBJ_TO_CMOD_FLAG_flags in S2 as (b2 & B2 & _ & G2).
  apply bind_Ok in H as (c3 & S3 & H).
  apply OBJ_TO_CMOD_FLAG_flags in S3 as (b3 & B3 & _ & G3).
  apply bind_Ok in H as (c4 & S4 & H).
  apply OBJ_TO_CMOD_FLAG_flags in S4 as (b4 & B4 & _ & G4).
  apply bind_Ok in H as (c5 & S5 & H).
  apply OBJ_TO_CMOD_FLAG_flags in S5 as (b5 & B5 & _ & G5).
  apply bind_Ok in H as (c6 & S6 & H).
  apply OBJ_TO_CMOD_FLAG_flags in S6 as (b6 & B6 & _ & G6).
  apply bind_Ok in H as (c7 & S7 & H).
  apply OBJ_TO_CMOD_FLAG_flags in S7 as (b7 & B7 & _ & G7).
  apply bind_Ok in H as (c8 & S8 & H).
  apply OBJ_TO_CMOD_FLAG_flags in S8 as (b8 & B8 & _ & G8).
  apply bind_Ok in H as (c9 & S9 & H).
  apply OBJ_TO_CMOD_FLAG_flags in S9 as (b9 & B9 & _ & G9).
  apply bind_Ok in H as (c10 & S10 & H).
  apply OBJ_TO_CMOD_FLAG_flags in S10 as (b10 & B10 & _ & G10).
  apply bind_Ok in H as (c11 & S11 & H).
  apply OBJ_TO_CMOD_FLAG_flags in S11 as (b11 & B11 & _ & G11).
  apply bind_Ok in H as (c12 & S12 & H).
  apply OBJ_TO_CMOD_FLAG_flags in S12 as (b12 & B12 & _ & G12).
  apply bind_Ok in H as (c13 & S13 & H).
  apply OBJ_TO_CMOD_FLAG_flags in S13 as (b13 & B13 & _ & G13).
  apply bind_Ok in H as (c14 & S14 & H).
  apply OBJ_TO_CMOD_FLAG_flags in S14 as (b14 & B14 & _ & G14).
  destruct (has (cmod_flags (errsilent_implies_silent c14)) CMOD_SANDBOX
            && negb (has (argt ea) EX_SBOXOK)); [discriminate|].
  injection H as <-.
  assert (Hflags : cmod_flags (errsilent_implies_silent c14)
                   = if has (cmod_flags c14) CMOD_ERRSILENT
                     then Z.lor (cmod_flags c14) CMOD_SILENT else cmod_flags c14).
  { unfold errsilent_implies_silent. destruct (has _ _); reflexivity. }
  assert (Hes : has (cmod_flags c14) CMOD_ERRSILENT = b2).
  { rewrite G14, G13, G12, G11, G10, G9, G8, G7, G6, G5, G4, G3, G2, G1, F0.
    repeat (rewrite (fun b x f => has_if_lor b x f _ 2) by (reflexivity || lia)).
    fold_has. rewrite ?andb_false_r, ?andb_true_r, ?orb_false_r, ?orb_false_l.
    reflexivity. }
  assert (Hvalue : forall g j, g = 2 ^ j -> 0 <= j ->
            has (cmod_flags (errsilent_implies_silent c14)) g
            = has (Z.lor 0 0) g
              || (b1 && has CMOD_SILENT g) || (b2 && has CMOD_ERRSILENT g)
              || (b3 && has CMOD_UNSILENT g) || (b4 && has CMOD_SANDBOX g)
              || (b5 && has CMOD_NOAUTOCMD g) || (b6 && has CMOD_BROWSE g)
              || (b7 && has CMOD_CONFIRM g) || (b8 && has CMOD_HIDE g)
              || (b9 && has CMOD_KEEPALT g) || (b10 && has CMOD_KEEPJUMPS g)
              || (b11 && has CMOD_KEEPMARKS g) || (b12 && has CMOD_KEEPPATTERNS g)
              || (b13 && has CMOD_LOCKMARKS g) || (b14 && has CMOD_NOSWAPFILE g)
              || (b2 && has CMOD_SILENT g)).
  { intros g j Hg Hj. rewrite Hflags, Hes.
    rewrite G14, G13, G12, G11, G10, G9, G8, G7, G6, G5, G4, G3, G2, G1, F0.
    rewrite !(fun b x f => has_if_lor b x f g j Hg Hj). reflexivity. }
  simpl in Hin.
  repeat match type of Hin with
  | _ \/ _ => destruct Hin as [Hin | Hin]
  end; try contradiction; injection Hin as <- <-.
  all: eexists; split; [eassumption|]; split; [|reflexivity].
  all: first [ rewrite (bool_decide_eq_true_2 _ eq_refl)
             | rewrite bool_decide_eq_false_2 by discriminate ].
  all: rewrite ?(Hvalue CMOD_ERRSILENT 2) by (reflexivity || lia).
  all: try match goal with
       | |- has _ ?g = _ =>
           let j := eval vm_compute in (Z.log2 g) in
           rewrite !(Hvalue _ j) by (reflexivity || lia)
       end.
  all: fold_has; rewrite ?andb_false_r, ?andb_true_r, ?orb_false_r, ?orb_false_l.
  all: try reflexivity.
  all: destruct b1, b2; reflexivity.
Qed.

Lemma cmd_mods_fields_flags_witness :
  exists cm,
    cmd_mods_fields Demo.ed ea_clear (Demo.mods_of Cases.flag_items) cmdmod_clear = Ok cm
    /\ In ("keepalt", CMOD_KEEPALT) flag_mods
    /\ api_object_to_bool (field (Demo.mods_of Cases.flag_items) "keepalt")
                          (mods_varname "keepalt") false = Ok true
    /\ dict_get "keepalt" (parsed_mods cm) = Some (BOOLEAN_OBJ true).
Proof.
  assert (Hin : In ("keepalt", CMOD_KEEPALT) flag_mods) by (simpl; tauto).
  eexists. split; [vm_compute; reflexivity|]. split; [exact Hin|].
  split; [reflexivity|].
  destruct (cmd_mods_fields_flags Demo.ed ea_clear (Demo.mods_of Cases.flag_items)
              _ "keepalt" CMOD_KEEPALT ltac:(vm_compute; reflexivity) Hin)
    as (b & _ & _ & Hget).
  exact Hget.
Defined.

(** ** The split modifiers *)

Lemma OBJ_TO_CMOD_FLAG_split f v n cm cm' :
  OBJ_TO_CMOD_FLAG f v n cm = Ok cm' -> cmod_split cm' = cmod_split cm.
Proof.
  intros H. apply OBJ_TO_CMOD_FLAG_flags in H as (b & _ & H & _). exact H.
Qed.

(** The split modifiers after the modifier checks: [vertical], [horizontal],
    then the direction. *)
Lemma cmd_mods_fields_split ed ea mods cm :
  cmd_mods_fields ed ea mods cmdmod_clear = Ok cm ->
  exists bv bh cm5 cm6,
    api_object_to_bool (field mods "vertical") "'mods.vertical'" false = Ok bv
    /\ api_object_to_bool (field mods "horizontal") "'mods.horizontal'" false = Ok bh
    /\ cmod_split cm5
       = Z.lor (Z.lor 0 (if bv then WSP_VERT else 0)) (if bh then WSP_HOR else 0)
    /\ mods_split (field mods "split") cm5 = Ok cm6
    /\ cmod_split cm = cmod_split cm6.
Proof.
  unfold cmd_mods_fields. intros H.
  apply bind_Ok in H as (cm1 & H1 & H). apply mods_filter_flags in H1 as [_ F1].
  apply bind_Ok in H as (cm2 & H2 & H). apply mods_tab_flags in H2 as [_ F2].
  apply bind_Ok in H as (cm3 & H3 & H). apply mods_verbose_flags in H3 as [_ F3].
  apply bind_Ok in H as (bv & Hv & H). apply bind_Ok in H as (cm4 & [= <-] & H).
  apply bind_Ok in H as (bh & Hh & H). apply bind_Ok in H as (cm5 & [= <-] & H).
  apply bind_Ok in H as (cm6 & H6 & H).
  exists bv, bh. eexists. exists cm6.
  split; [exact Hv|]. split; [exact Hh|]. split; [|split; [exact H6|]].
  - simpl. rewrite F3, F2, F1. reflexivity.
  - repeat match type of H with
    | (OBJ_TO_CMOD_FLAG _ _ _ _ ≫= _) = Ok _ =>
        let S := fresh "S" in
        apply bind_Ok in H as (? & S & H); apply OBJ_TO_CMOD_FLAG_split in S
    end.
    destruct (_ && _); [discriminate|]. injection H as <-.
    unfold errsilent_implies_silent. destruct (has _ CMOD_ERRSILENT); simpl; congruence.
Qed.

Lemma first_char_empty s :
  Ascii.eqb (first_char (cstr s)) NUL = String.eqb (cstr s) EmptyString.
Proof.
  destruct s as [|c s]; simpl; [reflexivity|].
  destruct (Ascii.eqb c NUL) eqn:Hc; simpl; [reflexivity | exact Hc].
Qed.

(** X9. The split modifiers of a descriptor that passes the modifier checks
    come back from the report of [nvim_parse_cmd]: "vertical" and
    "horizontal" as the booleans given, and a "split" string as one of
    "aboveleft", "belowright", "topleft", "botright" or the empty string, the
    synonyms "leftabove" and "rightbelow" under the first two names; a
    direction that is not empty is in the line built, followed by a space. *)
Theorem cmd_mods_fields_split_reported ed ea mods cm s :
  cmd_mods_fields ed ea mods cmdmod_clear = Ok cm ->
  field mods "split" = STRING_OBJ s ->
  exists bv bh name,
    api_object_to_bool (field mods "vertical") "'mods.vertical'" false = Ok bv
    /\ api_object_to_bool (field mods "horizontal") "'mods.horizontal'" false = Ok bh
    /\ reported_split (cstr s) = Some name
    /\ dict_get "vertical" (parsed_mods cm) = Some (BOOLEAN_OBJ bv)
    /\ dict_get "horizontal" (parsed_mods cm) = Some (BOOLEAN_OBJ bh)
    /\ dict_get "split" (parsed_mods cm) = Some (STRING_OBJ name)
    /\ (name <> EmptyString -> In (name +:+ " ") (cmdline_other_mods cm)).
Proof.
  intros H Hsplit.
  destruct (cmd_mods_fields_split _ _ _ _ H) as (bv & bh & cm5 & cm6 & Hv & Hh & H5 & H6 & Hcm).
  exists bv, bh. rewrite Hsplit in H6. unfold mods_split in H6. simpl in H6.
  rewrite first_char_empty in H6. unfold reported_split.
  change (dict_get "vertical" (parsed_mods cm))
    with (Some (BOOLEAN_OBJ (has (cmod_split cm) WSP_VERT))).
  change (dict_get "horizontal" (parsed_mods cm))
    with (Some (BOOLEAN_OBJ (has (cmod_split cm) WSP_HOR))).
  change (dict_get "split" (parsed_mods cm))
    with (Some (STRING_OBJ (split_name (cmod_split cm)))).
  unfold cmdline_other_mods. rewrite Hcm.
  destruct (String.eqb (cstr s) EmptyString).
  { injection H6 as <-. rewrite H5. eexists.
    split; [exact Hv|]. split; [exact Hh|]. split; [reflexivity|].
    destruct bv, bh; (repeat split; try reflexivity); intros Hne; contradiction. }
  destruct (String.eqb (cstr s) "aboveleft" || String.eqb (cstr s) "leftabove").
  { injection H6 as <-. simpl. rewrite H5. eexists.
    split; [exact Hv|]. split; [exact Hh|]. split; [reflexivity|].
    destruct bv, bh; (repeat split; try reflexivity); intros _;
      apply in_or_app; right; apply in_or_app; left; left; reflexivity. }
  destruct (String.eqb (cstr s) "belowright" || String.eqb (cstr s) "rightbelow").
  { injection H6 as <-. simpl. rewrite H5. eexists.
    split; [exact Hv|]. split; [exact Hh|]. split; [reflexivity|].
    destruct bv, bh; (repeat split; try reflexivity); intros _;
      apply in_or_app; right; apply in_or_app; left; left; reflexivity. }
  destruct (String.eqb (cstr s) "topleft").
  { injection H6 as <-. simpl. rewrite H5. eexists.
    split; [exact Hv|]. split; [exact Hh|]. split; [reflexivity|].
    destruct bv, bh; (repeat split; try reflexivity); intros _;
      apply in_or_app; right; apply in_or_app; left; left; reflexivity. }
  destruct (String.eqb (cstr s) "botright"); [|discriminate].
  injection H6 as <-. simpl. rewrite H5. eexists.
  split; [exact Hv|]. split; [exact Hh|]. split; [reflexivity|].
  destruct bv, bh; (repeat split; try reflexivity); intros _;
    apply in_or_app; right; apply in_or_app; left; left; reflexivity.
Qed.

Lemma cmd_mods_fields_split_reported_witness :
  exists cm,
    cmd_mods_fields Demo.ed ea_clear (Demo.mods_of Cases.flag_items) cmdmod_clear = Ok cm
    /\ field (Demo.mods_of Cases.flag_items) "split" = STRING_OBJ "leftabove"
    /\ dict_get "split" (parsed_mods cm) = Some (STRING_OBJ "aboveleft")
    /\ dict_get "vertical" (parsed_mods cm) = Some (BOOLEAN_OBJ true)
    /\ In "aboveleft " (cmdline_other_mods cm).
Proof.
  eexists. split; [vm_compute; reflexivity|]. split; [reflexivity|].
  destruct (cmd_mods_fields_split_reported Demo.ed ea_clear
              (Demo.mods_of Cases.flag_items) _ "leftabove"
              ltac:(vm_compute; reflexivity) ltac:(vm_compute; reflexivity))
    as (bv & bh & name & Hv & _ & Hname & Hvert & _ & Hsplit & Hin).
  injection Hname as <-. injection Hv as <-.
  split; [exact Hsplit|]. split; [exact Hvert|]. apply Hin. discriminate.
Defined.

(** ** [tab] and [verbose] that are not negative *)

Lemma to_int_small z : - 2 ^ 31 <= z < 2 ^ 31 -> to_int z = z.
Proof.
  intros H. unfold to_int, wrap.
  change (2 ^ (32 - 1)) with (2 ^ 31). rewrite Z.mod_small; lia.
Qed.

(** X10. A "tab" (resp. "verbose") of a descriptor that is an integer [n]
    with 0 <= n < 2^31 - 1 is stored as [n + 1]; the line built begins the
    modifier as "<n>tab " (resp. "<n>verbose "), also for [n = 0], and the
    report of [nvim_parse_cmd] for these modifiers gives [n] back. *)
Theorem cmd_mods_fields_tab_verbose_reported ed ea mods cm :
  cmd_mods_fields ed ea mods cmdmod_clear = Ok cm ->
  (forall n, field mods "tab" = INTEGER_OBJ n -> 0 <= n < 2 ^ 31 - 1 ->
             cmod_tab cm = n + 1
             /\ cmdline_tab cm = [decimal n +:+ "tab "]
             /\ dict_get "tab" (parsed_mods cm) = Some (INTEGER_OBJ n))
  /\ (forall n, field mods "verbose" = INTEGER_OBJ n -> 0 <= n < 2 ^ 31 - 1 ->
                cmod_verbose cm = n + 1
                /\ cmdline_verbose cm = [decimal n +:+ "verbose "]
                /\ dict_get "verbose" (parsed_mods cm) = Some (INTEGER_OBJ n)).
Proof.
  intros H.
  destruct (cmd_mods_fields_tab_verbose _ _ _ _ _ H)
    as (cm1 & cm2 & cm3 & Ht1 & Hv1 & H2 & H3 & Ht & Hv).
  simpl in Ht1, Hv1. split.
  - intros n Htab Hn. rewrite Htab in H2. unfold mods_tab in H2. simpl in H2.
    rewrite (to_int_small n) in H2 by lia.
    destruct (Z.leb_spec 0 n); [|lia]. injection H2 as <-.
    apply mods_verbose_tab in H3. simpl in H3.
    rewrite to_int_small in H3 by lia.
    assert (Hcm : cmod_tab cm = n + 1) by congruence.
    split; [exact Hcm|].
    change (dict_get "tab" (parsed_mods cm)) with (Some (INTEGER_OBJ (cmod_tab cm - 1))).
    unfold cmdline_tab. rewrite Hcm.
    replace (n + 1 - 1) with n by lia. rewrite to_int_small by lia.
    destruct (Z.eqb_spec (n + 1) 0); [lia|]. split; reflexivity.
  - intros n Hverbose Hn. apply mods_tab_verbose in H2.
    rewrite Hverbose in H3. unfold mods_verbose in H3. simpl in H3.
    rewrite (to_int_small n) in H3 by lia.
    destruct (Z.leb_spec 0 n); [|lia]. injection H3 as <-. simpl in Hv.
    rewrite to_int_small in Hv by lia.
    split; [exact Hv|].
    change (dict_get "verbose" (parsed_mods cm))
      with (Some (INTEGER_OBJ (cmod_verbose cm - 1))).
    unfold cmdline_verbose. rewrite Hv.
    replace (n + 1 - 1) with n by lia. rewrite to_int_small by lia.
    destruct (Z.ltb_spec 0 (n + 1)); [|lia]. split; reflexivity.
Qed.

Lemma cmd_mods_fields_tab_verbose_reported_witness :
  exists cm,
    cmd_mods_fields Demo.ed ea_clear (Demo.mods_of Cases.flag_items) cmdmod_clear = Ok cm
    /\ field (Demo.mods_of Cases.flag_items) "tab" = INTEGER_OBJ 2
    /\ cmod_tab cm = 3
    /\ cmdline_tab cm = ["2tab "]
    /\ dict_get "tab" (parsed_mods cm) = Some (INTEGER_OBJ 2).
Proof.
  eexists. split; [vm_compute; reflexivity|]. split; [reflexivity|].
  refine (proj1 (cmd_mods_fields_tab_verbose_reported Demo.ed ea_clear
                   (Demo.mods_of Cases.flag_items) _ _) 2 _ _);
    [vm_compute; reflexivity | vm_compute; reflexivity | lia].
Defined.

(** ** Magic *)

Lemma cmd_magic_file ea m ea' mg :
  cmd_magic ea m = Ok (ea', mg) ->
  magic_file mg = has (argt ea') EX_XFILE
  /\ (HAS_KEY m = false -> argt ea' = argt ea
                           /\ magic_bar mg = has (argt ea) EX_TRLBAR).
Proof.
  unfold cmd_magic. destruct (HAS_KEY m) eqn:Hkey.
  - intros H. split; [|discriminate].
    destruct m; try discriminate.
    apply bind_Ok in H as (keys & _ & H).
    apply bind_Ok in H as (file & _ & H).
    apply bind_Ok in H as (bar & _ & H).
    injection H as <- <-. simpl. destruct file.
    + rewrite (has_lor _ _ EX_XFILE 3) by (reflexivity || lia).
      symmetry. apply orb_true_r.
    + rewrite (has_ldiff _ _ EX_XFILE 3) by (reflexivity || lia).
      symmetry. apply andb_false_r.
  - intros [= <- <-]. simpl. auto.
Qed.

(** X11. After the validation the "file" magic of a command and the
    file-expansion flag of its contract agree: [magic.file] is set exactly
    when [EX_XFILE] is, whether the descriptor gave "magic" or not; without
    "magic", [magic.bar] is the [EX_TRLBAR] flag of the contract. *)
Theorem nvim_cmd_validate_magic ed c o v :
  nvim_cmd_validate ed c o = Ok v ->
  magic_file (magic (v_cmdinfo v)) = has (argt (v_ea v)) EX_XFILE
  /\ (HAS_KEY (k_magic c) = false ->
      magic_bar (magic (v_cmdinfo v)) = has (argt (v_ea v)) EX_TRLBAR).
Proof.
  intros Hv. apply nvim_cmd_validate_run in Hv.
  destruct Hv as [output cmdname ea0 a ea2 ea4 ea5 ea6 ea7 mg cm
                    H1 H2 H3 H4 H5 H6 H7 H8 H9 H10].
  simpl. destruct (cmd_magic_file _ _ _ _ H9) as [Hfile Hbar].
  split; [exact Hfile|]. intros Hkey. destruct (Hbar Hkey) as [-> ->]. reflexivity.
Qed.

Lemma nvim_cmd_validate_magic_witness :
  exists v,
    nvim_cmd_validate Demo.ed Cases.edit_no_file NIL = Ok v
    /\ magic_file (magic (v_cmdinfo v)) = false
    /\ has (argt (v_ea v)) EX_XFILE = false.
Proof.
  eexists. split; [vm_compute; reflexivity|]. split; [reflexivity|].
  rewrite <- (proj1 (nvim_cmd_validate_magic Demo.ed Cases.edit_no_file NIL _
                       ltac:(vm_compute; reflexivity))).
  reflexivity.
Defined.

(** ** What a validated command never carries *)

Lemma cmd_range_keeps ed ea o ea' :
  cmd_range ed ea o = Ok ea' -> regname ea' = regname ea /\ forceit ea' = forceit ea.
Proof. unfold cmd_range. intros H. step_cases H; same_fields H. Qed.

Lemma default_range_keeps ed ea :
  regname (default_range ed ea) = regname ea
  /\ forceit (default_range ed ea) = forceit ea.
Proof.
  unfold default_range. destruct (addr_count ea =? 0); [|split; reflexivity].
  destruct (has (argt ea) EX_DFLALL).
  - destruct (set_cmd_dflall_range ed ea). split; reflexivity.
  - simpl. destruct (bool_decide _); split; reflexivity.
Qed.

Lemma cmd_count_keeps ed ea o ea' :
  cmd_count ed ea o = Ok ea' -> regname ea' = regname ea /\ forceit ea' = forceit ea.
Proof. unfold cmd_count. intros H. step_cases H; same_fields H. Qed.

Lemma cmd_reg_keeps ed ea o ea' :
  cmd_reg ed ea o = Ok ea' ->
  forceit ea' = forceit ea
  /\ (regname ea' = regname ea \/ has (argt ea) EX_REGSTR = true).
Proof.
  unfold cmd_reg. intros H. destruct (HAS_KEY o).
  - destruct (has (argt ea) EX_REGSTR); [|discriminate].
    step_cases H. injection H as <-. split; [reflexivity | right; reflexivity].
  - injection H as <-. split; [reflexivity | left; reflexivity].
Qed.

Lemma cmd_bang_forceit ea o ea' :
  cmd_bang ea o = Ok ea' -> forceit ea' = true -> has (argt ea) EX_BANG = true.
Proof.
  unfold cmd_bang. intros H. apply bind_Ok in H as (b & _ & H).
  destruct (has (argt ea) EX_BANG); [reflexivity|].
  destruct b; [discriminate|]. injection H as <-. simpl. discriminate.
Qed.

Lemma cmd_mods_sandbox ed ea o cm :
  cmd_mods ed ea o cmdmod_clear = Ok cm ->
  has (cmod_flags cm) CMOD_SANDBOX = true -> has (argt ea) EX_SBOXOK = true.
Proof.
  unfold cmd_mods. destruct (HAS_KEY o); [|intros [= <-]; discriminate].
  destruct o; try discriminate. intros H.
  apply bind_Ok in H as (mods & _ & H). unfold cmd_mods_fields in H.
  do 22 (apply bind_Ok in H as (? & _ & H)).
  destruct (has (argt ea) EX_SBOXOK); [reflexivity|].
  rewrite andb_true_r in H.
  destruct (has (cmod_flags (errsilent_implies_silent _)) CMOD_SANDBOX) eqn:Hs;
    [discriminate|].
  injection H as <-. congruence.
Qed.

(** X12. A command that passed the validation carries nothing its contract
    forbids: a bang only with [EX_BANG], a register only with [EX_REGSTR],
    the sandbox modifier only with [EX_SBOXOK], a given range only with
    [EX_RANGE] and a given count only with [EX_COUNT]. *)
Theorem nvim_cmd_validate_contract ed c o v :
  nvim_cmd_validate ed c o = Ok v ->
  (forceit (v_ea v) = true -> has (argt (v_ea v)) EX_BANG = true)
  /\ (regname (v_ea v) <> NUL -> has (argt (v_ea v)) EX_REGSTR = true)
  /\ (has (cmod_flags (cmdmod (v_cmdinfo v))) CMOD_SANDBOX = true ->
      has (argt (v_ea v)) EX_SBOXOK = true)
  /\ (HAS_KEY (k_range c) = true -> has (argt (v_ea v)) EX_RANGE = true)
  /\ (HAS_KEY (k_count c) = true -> has (argt (v_ea v)) EX_COUNT = true).
Proof.
  intros Hv. apply nvim_cmd_validate_run in Hv.
  destruct Hv as [output cmdname ea0 a ea2 ea4 ea5 ea6 ea7 mg cm
                    H1 H2 H3 H4 H5 H6 H7 H8 H9 H10].
  simpl.
  destruct (resolve_cmd_fresh _ _ _ H3) as (_ & _ & _ & Hreg0 & Hforce0 & _).
  pose proof (cmd_range_same _ _ _ _ H5) as (_ & A2 & _).
  pose proof (default_range_same ed ea2) as (_ & A3 & _).
  pose proof (cmd_count_same _ _ _ _ H6) as (_ & A4 & _).
  pose proof (cmd_reg_same _ _ _ _ H7) as (_ & A5 & _).
  pose proof (cmd_bang_same _ _ _ H8) as (_ & A6 & _).
  pose proof (fun f k => cmd_magic_has _ _ _ _ f k H9) as A7.
  destruct (cmd_magic_same _ _ _ _ H9) as (_ & _ & _ & _ & _ & _ & M1 & M2 & _).
  destruct (cmd_range_keeps _ _ _ _ H5) as [R1 R2].
  destruct (default_range_keeps ed ea2) as [D1 D2].
  destruct (cmd_count_keeps _ _ _ _ H6) as [C1 C2].
  destruct (cmd_reg_keeps _ _ _ _ H7) as [G1 G2].
  simpl in A2, R1, R2.
  split; [|split; [|split; [|split]]].
  - intros Hforce. rewrite (A7 EX_BANG 1) by (reflexivity || lia).
    rewrite M2 in Hforce. rewrite A6. exact (cmd_bang_forceit _ _ _ H8 Hforce).
  - intros Hreg. rewrite (A7 EX_REGSTR 9) by (reflexivity || lia).
    rewrite A6. rewrite M1, (cmd_bang_regname _ _ _ H8) in Hreg.
    destruct G2 as [G2 | G2]; [|rewrite A5; exact G2].
    destruct Hreg. congruence.
  - exact (cmd_mods_sandbox _ _ _ _ H10).
  - intros Hkey. rewrite (A7 EX_RANGE 0) by (reflexivity || lia).
    rewrite A6, A5, A4, A3, A2. exact (cmd_range_given _ _ _ _ Hkey H5).
  - intros Hkey. rewrite (A7 EX_COUNT 10) by (reflexivity || lia).
    rewrite A6, A5, A4. exact (cmd_count_given _ _ _ _ Hkey H6).
Qed.

Lemma nvim_cmd_validate_contract_witness :
  exists v,
    nvim_cmd_validate Demo.ed Cases.put_bang NIL = Ok v
    /\ forceit (v_ea v) = true
    /\ has (argt (v_ea v)) EX_BANG = true
    /\ regname (v_ea v) = "a"%char
    /\ has (argt (v_ea v)) EX_REGSTR = true.
Proof.
  eexists. split; [vm_compute; reflexivity|].
  destruct (nvim_cmd_validate_contract Demo.ed Cases.put_bang NIL _
              ltac:(vm_compute; reflexivity)) as (Hbang & Hreg & _).
  split; [reflexivity|]. split; [exact (Hbang eq_refl)|].
  split; [reflexivity|]. apply Hreg. discriminate.
Defined.

(** ** The report of [nvim_parse_cmd] *)

(** X13. When [nvim_parse_cmd] reports both a "range" that is not empty and a
    "count", the count is the last element of the range; the range has at
    most two elements. *)
Theorem nvim_parse_cmd_count_range st tk fuel str d r n :
  nvim_parse_cmd st tk fuel str [] = Some (Ok d) ->
  dict_get "range" d = Some (ARRAY_OBJ r) ->
  r <> [] ->
  dict_get "count" d = Some (INTEGER_OBJ n) ->
  List.last r NIL = INTEGER_OBJ n /\ (length r <= 2)%nat.
Proof.
  unfold nvim_parse_cmd. simpl.
  destruct (parse_cmdline tk (cstr str)) as [[ea ci]|[msg|]]; try discriminate.
  destruct (parse_args tk fuel ea) as [a|]; [|discriminate].
  intros [= <-]. unfold parsed_dict, dict_get.
  destruct (has (argt ea) EX_RANGE), (has (argt ea) EX_COUNT),
    (has (argt ea) EX_REGSTR), (0 <? addr_count ea), (1 <? addr_count ea);
    simpl; intros Hr Hne Hc; try discriminate;
    injection Hr as <-; try contradiction;
    injection Hc as <-; split; (reflexivity || (simpl; lia)).
Qed.

Lemma nvim_parse_cmd_count_range_witness :
  exists d,
    nvim_parse_cmd Demo.st Cases.tk_yank 5 "3,5yank a" [] = Some (Ok d)
    /\ dict_get "range" d = Some (ARRAY_OBJ [INTEGER_OBJ 3; INTEGER_OBJ 5])
    /\ dict_get "count" d = Some (INTEGER_OBJ 5)
    /\ List.last [INTEGER_OBJ 3; INTEGER_OBJ 5] NIL = INTEGER_OBJ 5.
Proof.
  eexists. split; [vm_compute; reflexivity|]. split; [reflexivity|].
  split; [reflexivity|].
  refine (proj1 (nvim_parse_cmd_count_range Demo.st Cases.tk_yank 5 "3,5yank a" _
                   [INTEGER_OBJ 3; INTEGER_OBJ 5] 5 _ _ _ _));
    [vm_compute; reflexivity | reflexivity | discriminate | reflexivity].
Defined.

(** ** The contract of a user command *)

Lemma create_user_command_request_run df name command opts r :
  create_user_command_request df name command opts = Ok r ->
  request_run df name command opts r.
Proof.
  unfold create_user_command_request.
  destruct (uc_validate_name df (cstr name)) eqn:E1; [simpl | discriminate].
  destruct (mb_islower df (first_char name)) eqn:E2; [discriminate |].
  destruct (HAS_KEY (o_range opts) && HAS_KEY (o_count opts)) eqn:E3; [discriminate |].
  destruct (opt_nargs _ _) as [a0|] eqn:E4; [simpl | discriminate].
  destruct (HAS_KEY (o_complete opts) && (a0 =? 0)) eqn:E5; [discriminate |].
  destruct (opt_range _ _ _ _) as [[[a1 d1] t1]|] eqn:E6; [simpl | discriminate].
  destruct (opt_count _ _ _ _) as [[[a2 d2] t2]|] eqn:E7; [simpl | discriminate].
  destruct (opt_addr _ _ _ _) as [[a3 t3]|] eqn:E8; [simpl | discriminate].
  destruct (opt_flag (o_bang opts) _ _ _) as [a4|] eqn:E9; [simpl | discriminate].
  destruct (opt_flag (o_bar opts) _ _ _) as [a5|] eqn:E10; [simpl | discriminate].
  destruct (opt_flag (o_register_ opts) _ _ _) as [a6|] eqn:E11; [simpl | discriminate].
  destruct (opt_flag (o_keepscript opts) _ _ _) as [a7|] eqn:E12; [simpl | discriminate].
  destruct (api_object_to_bool (o_force opts) _ _) as [force|] eqn:E13;
    [simpl | discriminate].
  destruct (opt_complete _ _ _) as [[[[compl a8] compl_arg] compl_luaref]|] eqn:E14;
    [simpl | discriminate].
  destruct (opt_preview _ _ _) as [[a9 preview_luaref]|] eqn:E15; [simpl | discriminate].
  destruct (opt_command _ _ _) as [[luaref rep]|] eqn:E16; [simpl | discriminate].
  intros [= <-]. econstructor; eassumption.
Qed.

Lemma opt_range_kept o a d t a' d' t' g k :
  opt_range o a d t = Ok (a', d', t') -> g = 2 ^ k -> 0 <= k ->
  has EX_RANGE g = false -> has EX_DFLALL g = false -> has EX_ZEROR g = false ->
  has a' g = has a g.
Proof.
  intros H Hg Hk H1 H2 H3. unfold opt_range in H.
  step_cases H; injection H as <- _ _;
    rewrite ?(has_lor _ _ g k), ?H1, ?H2, ?H3, ?orb_false_r by assumption;
    reflexivity.
Qed.

Lemma opt_count_kept o a d t a' d' t' g k :
  opt_count o a d t = Ok (a', d', t') -> g = 2 ^ k -> 0 <= k ->
  has EX_RANGE g = false -> has EX_COUNT g = false -> has EX_ZEROR g = false ->
  has a' g = has a g.
Proof.
  intros H Hg Hk H1 H2 H3. unfold opt_count in H.
  step_cases H; injection H as <- _ _;
    rewrite ?(has_lor _ _ g k), ?H1, ?H2, ?H3, ?orb_false_r by assumption;
    reflexivity.
Qed.

Lemma opt_addr_kept df o a t a' t' g k :
  opt_addr df o a t = Ok (a', t') -> g = 2 ^ k -> 0 <= k ->
  has EX_ZEROR g = false -> has a' g = has a g.
Proof.
  intros H Hg Hk H1. unfold opt_addr in H.
  step_cases H; injection H as <- _;
    rewrite ?(has_lor _ _ g k), ?H1, ?orb_false_r by assumption; reflexivity.
Qed.

Lemma opt_flag_kept o what f a a' g k :
  opt_flag o what f a = Ok a' -> g = 2 ^ k -> 0 <= k ->
  has f g = false -> has a' g = has a g.
Proof.
  intros H Hg Hk H1. unfold opt_flag in H.
  apply bind_Ok in H as ([|] & _ & H); injection H as <-;
    rewrite ?(has_lor _ _ g k), ?H1, ?orb_false_r by assumption; reflexivity.
Qed.

Lemma opt_complete_kept df o a compl a' compl_arg compl_luaref :
  (forall s, o <> STRING_OBJ s) ->
  opt_complete df o a = Ok (compl, a', compl_arg, compl_luaref) -> a' = a.
Proof.
  intros Hno H. unfold opt_complete in H.
  destruct o; try discriminate; try (injection H as _ <- _ _; reflexivity).
  destruct (Hno s eq_refl).
Qed.

Lemma opt_preview_kept df o a a' pl g k :
  opt_preview df o a = Ok (a', pl) -> g = 2 ^ k -> 0 <= k ->
  has EX_PREVIEW g = false -> has a' g = has a g.
Proof.
  intros H Hg Hk H1. unfold opt_preview in H.
  step_cases H; injection H as <- _;
    rewrite ?(has_lor _ _ g k), ?H1, ?orb_false_r by assumption; reflexivity.
Qed.

(** A flag that only one option sets keeps, after that option, the value it
    has then. *)
Lemma request_run_kept df name command opts r g k :
  request_run df name command opts r ->
  no_named_completion opts ->
  g = 2 ^ k -> 0 <= k ->
  has EX_RANGE g = false -> has EX_DFLALL g = false -> has EX_ZEROR g = false ->
  has EX_COUNT g = false -> has EX_BANG g = false -> has EX_TRLBAR g = false ->
  has EX_REGSTR g = false -> has EX_KEEPSCRIPT g = false ->
  has EX_PREVIEW g = false ->
  exists a0, opt_nargs (o_nargs opts) 0 = Ok a0 /\ has (r_argt r) g = has a0 g.
Proof.
  intros [a0 a1 d1 t1 a2 d2 t2 a3 t3 a4 a5 a6 a7 force compl a8 compl_arg
            compl_luaref a9 preview_luaref luaref rep
            E1 E2 E3 E4 E5 E6 E7 E8 E9 E10 E11 E12 E13 E14 E15 E16]
         Hno Hg Hk G1 G2 G3 G4 G5 G6 G7 G8 G9.
  exists a0. split; [exact E4|]. simpl.
  rewrite (opt_preview_kept _ _ _ _ _ g k E15),
    (opt_complete_kept _ _ _ _ _ _ _ Hno E14),
    (opt_flag_kept _ _ _ _ _ g k E12), (opt_flag_kept _ _ _ _ _ g k E11),
    (opt_flag_kept _ _ _ _ _ g k E10), (opt_flag_kept _ _ _ _ _ g k E9),
    (opt_addr_kept _ _ _ _ _ _ g k E8), (opt_count_kept _ _ _ _ _ _ _ g k E7),
    (opt_range_kept _ _ _ _ _ _ _ g k E6) by assumption.
  reflexivity.
Qed.

Lemma opt_nargs_text o a0 :
  opt_nargs o 0 = Ok a0 -> nargs_char (arity_of a0) = nargs_text o.
Proof.
  unfold opt_nargs. intros H. destruct o; try discriminate.
  - injection H as <-. reflexivity.
  - destruct (Z.eqb_spec i 0) as [->|]; [injection H as <-; reflexivity|].
    destruct (Z.eqb_spec i 1) as [->|]; [injection H as <-; reflexivity|].
    discriminate.
  - destruct s as [|c [|c' s]]; try discriminate; simpl in H.
    destruct (Ascii.eqb_spec c "*") as [->|]; [injection H as <-; reflexivity|].
    destruct (Ascii.eqb_spec c "?") as [->|]; [injection H as <-; reflexivity|].
    destruct (Ascii.eqb_spec c "+") as [->|]; [injection H as <-; reflexivity|].
    discriminate.
Qed.

(** The arity of the contract is the one the "nargs" option gives. *)
Lemma request_run_nargs df name command opts r :
  request_run df name command opts r ->
  no_named_completion opts ->
  nargs_char (arity_of (r_argt r)) = nargs_text (o_nargs opts).
Proof.
  intros H Hno.
  destruct (request_run_kept _ _ _ _ _ EX_EXTRA 2 H Hno) as (a0 & H0 & He);
    try reflexivity; try lia.
  destruct (request_run_kept _ _ _ _ _ EX_NOSPC 4 H Hno) as (a0' & H0' & Hn);
    try reflexivity; try lia.
  destruct (request_run_kept _ _ _ _ _ EX_NEEDARG 7 H Hno) as (a0'' & H0'' & Hd);
    try reflexivity; try lia.
  rewrite H0 in H0', H0''. injection H0' as <-. injection H0'' as <-.
  rewrite <- (opt_nargs_text _ _ H0). unfold arity_of. rewrite He, Hn, Hd.
  reflexivity.
Qed.

(** X14. The "nargs" option of a definition is what [nvim_parse_cmd] reports
    as "nargs" for the contract the definition builds: 0 and 1 as "0" and
    "1", the strings "*", "?" and "+" as themselves, a missing option as "0",
    whatever the other options are (the completion not being given by name). *)
Theorem create_user_command_request_nargs df name command opts r :
  create_user_command_request df name command opts = Ok r ->
  no_named_completion opts ->
  nargs_char (arity_of (r_argt r)) = nargs_text (o_nargs opts).
Proof.
  intros H Hno. apply create_user_command_request_run in H.
  exact (request_run_nargs _ _ _ _ _ H Hno).
Qed.

Lemma create_user_command_request_nargs_witness :
  exists r,
    create_user_command_request Demo.df "Hello" (STRING_OBJ "echo 1") Cases.count_opts
    = Ok r
    /\ no_named_completion Cases.count_opts
    /\ nargs_char (arity_of (r_argt r)) = "?".
Proof.
  assert (Hno : no_named_completion Cases.count_opts) by (intros s; discriminate).
  eexists. split; [vm_compute; reflexivity|]. split; [exact Hno|].
  exact (create_user_command_request_nargs Demo.df "Hello" (STRING_OBJ "echo 1")
           Cases.count_opts _ ltac:(vm_compute; reflexivity) Hno).
Defined.

Lemma opt_nargs_kept o a0 g k :
  opt_nargs o 0 = Ok a0 -> g = 2 ^ k -> 0 <= k ->
  has EX_EXTRA g = false -> has EX_NOSPC g = false -> has EX_NEEDARG g = false ->
  has a0 g = false.
Proof.
  intros H Hg Hk H1 H2 H3. unfold opt_nargs in H.
  assert (H0 : has 0 g = false) by reflexivity.
  step_cases H; injection H as <-;
    rewrite ?(has_lor _ _ g k), ?H0, ?H1, ?H2, ?H3 by assumption; reflexivity.
Qed.

(** X15. The contract of a definition has [EX_COUNT] exactly when its "count"
    option is [true] or an integer (the completion not being given by name);
    such a contract also has [EX_RANGE], so the command accepts a range as
    well as a count; its default count is the integer given, 0 for [true],
    and its address type is [ADDR_OTHER] unless "addr" is given. *)
Theorem create_user_command_request_count df name command opts r :
  create_user_command_request df name command opts = Ok r ->
  no_named_completion opts ->
  (has (r_argt r) EX_COUNT = true <-> counted (o_count opts))
  /\ (counted (o_count opts) ->
      has (r_argt r) EX_RANGE = true
      /\ r_def r = match o_count opts with INTEGER_OBJ n => n | _ => 0 end
      /\ (o_addr opts = NIL -> r_addr_type r = ADDR_OTHER)).
Proof.
  intros H Hno. apply create_user_command_request_run in H.
  destruct H as [a0 a1 d1 t1 a2 d2 t2 a3 t3 a4 a5 a6 a7 force compl a8 compl_arg
                   compl_luaref a9 preview_luaref luaref rep
                   E1 E2 E3 E4 E5 E6 E7 E8 E9 E10 E11 E12 E13 E14 E15 E16].
  simpl.
  assert (Htail : forall g k, g = 2 ^ k -> 0 <= k ->
            has EX_ZEROR g = false -> has EX_BANG g = false ->
            has EX_TRLBAR g = false -> has EX_REGSTR g = false ->
            has EX_KEEPSCRIPT g = false -> has EX_PREVIEW g = false ->
            has a9 g = has a2 g).
  { intros g k Hg Hk G1 G2 G3 G4 G5 G6.
    rewrite (opt_preview_kept _ _ _ _ _ g k E15),
      (opt_complete_kept _ _ _ _ _ _ _ Hno E14),
      (opt_flag_kept _ _ _ _ _ g k E12), (opt_flag_kept _ _ _ _ _ g k E11),
      (opt_flag_kept _ _ _ _ _ g k E10), (opt_flag_kept _ _ _ _ _ g k E9),
      (opt_addr_kept _ _ _ _ _ _ g k E8) by assumption.
    reflexivity. }
  assert (Hbefore : has a1 EX_COUNT = false).
  { rewrite (opt_range_kept _ _ _ _ _ _ _ EX_COUNT 10 E6) by (reflexivity || lia).
    apply (opt_nargs_kept _ _ EX_COUNT 10 E4); (reflexivity || lia). }
  rewrite (Htail EX_COUNT 10), (Htail EX_RANGE 0) by (reflexivity || lia).
  unfold counted, opt_count in *. split; [split|].
  - intros Hc. destruct (o_count opts) as [|[|]| | | | | | | | |]; try discriminate;
      try (injection E7 as <- _ _; congruence); eauto.
  - intros [Hc | [n Hc]]; rewrite Hc in E7; injection E7 as <- _ _;
      rewrite (has_lor _ _ EX_COUNT 10) by (reflexivity || lia);
      apply orb_true_r.
  - intros Hc.
    assert (Hr : o_range opts = NIL).
    { destruct (o_range opts); try reflexivity;
        destruct Hc as [Hc | [n Hc]]; rewrite Hc in E3; discriminate E3. }
    rewrite Hr in E6. injection E6 as <- <- <-.
    assert (Hcount : a2 = Z.lor a0 (Z.lor EX_COUNT (Z.lor EX_ZEROR EX_RANGE))
                     /\ d2 = match o_count opts with INTEGER_OBJ n => n | _ => 0 end
                     /\ t2 = ADDR_OTHER).
    { destruct Hc as [Hc | [n Hc]]; rewrite Hc in E7 |- *;
        injection E7 as <- <- <-; repeat split. }
    destruct Hcount as (-> & -> & ->).
    split; [|split; [reflexivity|]].
    + rewrite (has_lor _ _ EX_RANGE 0) by (reflexivity || lia). apply orb_true_r.
    + intros Haddr. rewrite Haddr in E8. injection E8 as _ <-. reflexivity.
Qed.

Lemma create_user_command_request_count_witness :
  exists r,
    create_user_command_request Demo.df "Hello" (STRING_OBJ "echo 1") Cases.count_opts
    = Ok r
    /\ no_named_completion Cases.count_opts
    /\ counted (o_count Cases.count_opts)
    /\ has (r_argt r) EX_COUNT = true
    /\ has (r_argt r) EX_RANGE = true
    /\ r_def r = 4.
Proof.
  assert (Hno : no_named_completion Cases.count_opts) by (intros s; discriminate).
  assert (Hc : counted (o_count Cases.count_opts)) by (right; exists 4; reflexivity).
  eexists. split; [vm_compute; reflexivity|]. split; [exact Hno|]. split; [exact Hc|].
  destruct (create_user_command_request_count Demo.df "Hello" (STRING_OBJ "echo 1")
              Cases.count_opts _ ltac:(vm_compute; reflexivity) Hno) as [Hiff Hrest].
  destruct (Hrest Hc) as (Hrange & Hdef & _).
  split; [exact (proj2 Hiff Hc)|]. split; [exact Hrange | exact Hdef].
Defined.

(** ** Whitespace before a NUL byte *)

Lemma whitespace_only_cstr w rest :
  whitespace_only w -> cstr (w +:+ String NUL rest) = w.
Proof.
  unfold whitespace_only. induction w as [|c w IH]; intros H; [reflexivity|].
  inversion H as [|? ? Hc Hw]; subst.
  change (cstr (String c (w +:+ String NUL rest)) = String c w). simpl.
  rewrite (IH Hw). destruct Hc as [-> | ->]; reflexivity.
Qed.

Lemma whitespace_only_NUL w rest :
  whitespace_only w -> string_iswhite (w +:+ String NUL rest) = false.
Proof.
  unfold whitespace_only. induction w as [|c w IH]; intros H; [reflexivity|].
  inversion H as [|? ? Hc Hw]; subst.
  change (string_iswhite (String c (w +:+ String NUL rest)) = false). simpl.
  rewrite (IH Hw). destruct Hc as [-> | ->]; reflexivity.
Qed.

(** X16. The whitespace check of an argument does not stop at a NUL byte: a
    string of whitespace followed by a NUL byte passes it, since NUL is not
    whitespace, and the argument it becomes is the text before the NUL, which
    is whitespace only (or empty). *)
Theorem arg_to_string_white_before_NUL w rest :
  whitespace_only w ->
  arg_to_string (STRING_OBJ (w +:+ String NUL rest)) = Ok w.
Proof.
  intros H. unfold arg_to_string.
  rewrite (whitespace_only_NUL w rest H), (whitespace_only_cstr w rest H).
  reflexivity.
Qed.

Lemma arg_to_string_white_before_NUL_witness :
  whitespace_only "  "
  /\ arg_to_string (STRING_OBJ (String " " (String " " (String NUL "x")))) = Ok "  "
  /\ is_validation_error (arg_to_string (STRING_OBJ "  ")).
Proof.
  assert (H : whitespace_only "  ") by (repeat constructor).
  split; [exact H|]. split.
  - exact (arg_to_string_white_before_NUL "  " "x" H).
  - eexists. reflexivity.
Defined.

(** ** The filter modifier *)

Lemma mods_tab_filter o cm cm' :
  mods_tab o cm = Ok cm' ->
  cmod_filter_pat cm' = cmod_filter_pat cm
  /\ cmod_filter_force cm' = cmod_filter_force cm.
Proof. unfold mods_tab. intros H. step_cases H; injection H as <-; split; reflexivity. Qed.

Lemma mods_verbose_filter o cm cm' :
  mods_verbose o cm = Ok cm' ->
  cmod_filter_pat cm' = cmod_filter_pat cm
  /\ cmod_filter_force cm' = cmod_filter_force cm.
Proof. unfold mods_verbose. intros H. step_cases H; injection H as <-; split; reflexivity. Qed.

Lemma mods_split_filter o cm cm' :
  mods_split o cm = Ok cm' ->
  cmod_filter_pat cm' = cmod_filter_pat cm
  /\ cmod_filter_force cm' = cmod_filter_force cm.
Proof. unfold mods_split. intros H. step_cases H; injection H as <-; split; reflexivity. Qed.

Lemma OBJ_TO_CMOD_FLAG_filter f v n cm cm' :
  OBJ_TO_CMOD_FLAG f v n cm = Ok cm' ->
  cmod_filter_pat cm' = cmod_filter_pat cm
  /\ cmod_filter_force cm' = cmod_filter_force cm.
Proof.
  unfold OBJ_TO_CMOD_FLAG. intros H. apply bind_Ok in H as ([|] & _ & H);
    injection H as <-; split; reflexivity.
Qed.

(** The filter after the modifier checks is the one the filter check stored. *)
Lemma cmd_mods_fields_filter ed ea mods cm0 cm :
  cmd_mods_fields ed ea mods cm0 = Ok cm ->
  exists cm1,
    mods_filter ed (field mods "filter") cm0 = Ok cm1
    /\ cmod_filter_pat cm = cmod_filter_pat cm1
    /\ cmod_filter_force cm = cmod_filter_force cm1.
Proof.
  unfold cmd_mods_fields. intros H.
  apply bind_Ok in H as (cm1 & H1 & H). exists cm1. split; [exact H1|].
  apply bind_Ok in H as (cm2 & H2 & H). apply mods_tab_filter in H2 as [P2 F2].
  apply bind_Ok in H as (cm3 & H3 & H). apply mods_verbose_filter in H3 as [P3 F3].
  apply bind_Ok in H as (bv & _ & H). apply bind_Ok in H as (cm4 & [= <-] & H).
  apply bind_Ok in H as (bh & _ & H). apply bind_Ok in H as (cm5 & [= <-] & H).
  apply bind_Ok in H as (cm6 & H6 & H). apply mods_split_filter in H6 as [P6 F6].
  simpl in P6, F6.
  assert (Hrest : exists c14,
            cmod_filter_pat c14 = cmod_filter_pat cm6
            /\ cmod_filter_force c14 = cmod_filter_force cm6
            /\ cm = errsilent_implies_silent c14).
  { repeat match type of H with
    | (OBJ_TO_CMOD_FLAG _ _ _ _ ≫= _) = Ok _ =>
        let S := fresh "S" in
        apply bind_Ok in H as (? & S & H); apply OBJ_TO_CMOD_FLAG_filter in S as [? ?]
    end.
    destruct (_ && _); [discriminate|]. injection H as <-.
    eexists. split; [|split; [|reflexivity]]; congruence. }
  destruct Hrest as (c14 & P & F & ->).
  unfold errsilent_implies_silent. destruct (has _ CMOD_ERRSILENT); simpl;
    split; congruence.
Qed.

(** X17. The filter modifier is stored and never written.  For a filter with
    a pattern string, [force] is stored as given, and the pattern (up to its
    first NUL) is stored if it is not empty or [force] is set, and not stored
    otherwise.  A filter without a pattern is ignored, its [force] included.
    The line and the layout [build_cmdline_str] computes do not depend on the
    filter: they are those of the same modifiers without it. *)
Theorem cmd_mods_fields_filter_stored ed ea mods cm items f :
  cmd_mods_fields ed ea mods cmdmod_clear = Ok cm ->
  field mods "filter" = DICTIONARY_OBJ items ->
  api_dict_to_keydict cmd_mods_filter_keys ∅ items = Ok f ->
  (forall pat, field f "pattern" = STRING_OBJ pat ->
     exists force,
       api_object_to_bool (field f "force") "'mods.filter.force'" false = Ok force
       /\ cmod_filter_force cm = force
       /\ (cstr pat <> EmptyString \/ force = true ->
           cmod_filter_pat cm = Some (cstr pat))
       /\ (cstr pat = EmptyString -> force = false -> cmod_filter_pat cm = None))
  /\ (field f "pattern" = NIL ->
      cmod_filter_pat cm = None /\ cmod_filter_force cm = false)
  /\ (forall ea' mg a,
        build_cmdline_str ed ea' (mk_cmdinfo cm mg) a
        = build_cmdline_str ed ea'
            (mk_cmdinfo (with_filter cm None None false) mg) a).
Proof.
  intros H Hfilter Hitems.
  destruct (cmd_mods_fields_filter _ _ _ _ _ H) as (cm1 & H1 & P & F).
  rewrite Hfilter in H1. unfold mods_filter in H1. simpl in H1.
  rewrite Hitems in H1. simpl in H1.
  rewrite P, F. split; [| split].
  - intros pat Hpat. rewrite Hpat in H1. simpl in H1.
    apply bind_Ok in H1 as (force & Hforce & H1). exists force.
    split; [exact Hforce|].
    pose proof (first_char_empty pat) as Hempty.
    assert (Hfirst : Ascii.eqb (first_char pat) NUL = String.eqb (cstr pat) EmptyString).
    { rewrite <- Hempty. destruct pat as [|c pat]; simpl; [reflexivity|].
      destruct (Ascii.eqb c NUL) eqn:Hc; simpl; [reflexivity | rewrite Hc; reflexivity]. }
    rewrite Hfirst in H1.
    destruct (String.eqb_spec (cstr pat) EmptyString) as [He | He]; simpl in H1.
    + destruct force; injection H1 as <-; simpl; rewrite He.
      * split; [reflexivity|]. split; [reflexivity | discriminate].
      * split; [reflexivity|]. split; [intros [Hp | Hf]; congruence | reflexivity].
    + injection H1 as <-. simpl. split; [reflexivity|].
      split; [reflexivity | contradiction].
  - intros Hpat. rewrite Hpat in H1. simpl in H1. injection H1 as <-.
    split; reflexivity.
  - intros ea' mg a. reflexivity.
Qed.

Lemma cmd_mods_fields_filter_stored_witness :
  exists cm,
    cmd_mods_fields Demo.ed ea_clear (Demo.mods_of Cases.filter_items) cmdmod_clear = Ok cm
    /\ cmod_filter_force cm = true
    /\ cmod_filter_pat cm = Some "x"
    /\ forall ea mg a,
         build_cmdline_str Demo.ed ea (mk_cmdinfo cm mg) a
         = build_cmdline_str Demo.ed ea
             (mk_cmdinfo (with_filter cm None None false) mg) a.
Proof.
  eexists. split; [vm_compute; reflexivity|].
  destruct (cmd_mods_fields_filter_stored Demo.ed ea_clear
              (Demo.mods_of Cases.filter_items) _
              [("force", BOOLEAN_OBJ true); ("pattern", STRING_OBJ "x")]
              (<["pattern" := STRING_OBJ "x"]> (<["force" := BOOLEAN_OBJ true]> ∅))
              ltac:(vm_compute; reflexivity) ltac:(vm_compute; reflexivity)
              ltac:(vm_compute; reflexivity))
    as (Hpattern & _ & Hline).
  destruct (Hpattern "x" ltac:(vm_compute; reflexivity))
    as (force & Hforce & Hstored & Hpat & _).
  vm_compute in Hforce. injection Hforce as <-.
  split; [exact Hstored |]. split; [| exact Hline].
  exact (Hpat (or_intror eq_refl)).
Defined.

(** The line of [:echo] under [filter! /x/] has no filter, and parsing it
    reports the empty filter. *)
Example filter_not_written_demo :
  match nvim_cmd Demo.ed Cases.echo_filter NIL with
  | Ok p =>
      match nvim_parse_cmd Demo.st Cases.tk_mods 10 (p_cmdline p) [] with
      | Some (Ok d) =>
          Some (p_cmdline p, cmod_filter_pat (cmdmod (p_cmdinfo p)),
                cmod_filter_force (cmdmod (p_cmdinfo p)),
                match dict_get "mods" d with
                | Some (DICTIONARY_OBJ m) => dict_get "filter" m
                | _ => None
                end)
      | _ => None
      end
  | Err _ => None
  end
  = Some ("echo", Some "x", true, Some (reported_filter EmptyString false)).
Proof. vm_compute. reflexivity. Qed.

(** ** The command name, the bang and the register in the line *)

Lemma cmd_name_string c cmdname :
  cmd_name c = Ok cmdname ->
  exists s, c = STRING_OBJ s /\ cmdname = cstr s /\ cstr s <> EmptyString.
Proof.
  unfold cmd_name. destruct c; try discriminate.
  destruct (Ascii.eqb (first_char s) NUL) eqn:Hc; [discriminate|].
  intros [= <-]. exists s. split; [reflexivity|]. split; [reflexivity|].
  destruct s as [|c s]; simpl in *; [discriminate|]. rewrite Hc. discriminate.
Qed.

Lemma cmd_reg_text ed ea reg ea' :
  regname ea = NUL ->
  cmd_reg ed ea reg = Ok ea' ->
  (if has (argt ea) EX_REGSTR && negb (Ascii.eqb (regname ea') NUL)
   then String " " (String (regname ea') EmptyString) else EmptyString)
  = reg_text reg.
Proof.
  intros Hfresh. unfold cmd_reg. destruct (HAS_KEY reg) eqn:Hkey.
  - destruct (has (argt ea) EX_REGSTR); [simpl | discriminate].
    destruct reg; try discriminate.
    destruct (String.length s =? 1)%nat eqn:Hlen; [simpl | discriminate].
    destruct (Ascii.eqb (first_char s) "="); [discriminate|].
    destruct (valid_yank_reg ed _ _); [simpl | discriminate].
    intros [= <-]. simpl. rewrite (string_length_one _ Hlen). simpl.
    destruct (Ascii.eqb (first_char s) NUL); reflexivity.
  - intros [= <-]. rewrite Hfresh. destruct reg; try discriminate.
    simpl. rewrite andb_false_r. reflexivity.
Qed.

(** X18. The part of the line built for a validated command that names the
    command is the name given (up to its first NUL), then "!" exactly when
    "bang" reads as true, then a space and the register when one is given. *)
Theorem nvim_cmd_validate_name ed c o v :
  nvim_cmd_validate ed c o = Ok v ->
  exists s bang,
    k_cmd c = STRING_OBJ s
    /\ cstr s <> EmptyString
    /\ api_object_to_bool (k_bang c) "'bang'" false = Ok bang
    /\ cmdline_name (v_ea v)
       = cstr s +:+ (if bang : bool then "!" else EmptyString) +:+ reg_text (k_reg c).
Proof.
  intros Hv. apply nvim_cmd_validate_run in Hv.
  destruct Hv as [output cmdname ea0 a ea2 ea4 ea5 ea6 ea7 mg cm
                    H1 H2 H3 H4 H5 H6 H7 H8 H9 H10].
  simpl.
  destruct (cmd_name_string _ _ H2) as (s & Hs & -> & Hne).
  destruct (resolve_cmd_fresh _ _ _ H3) as (_ & _ & _ & Hreg0 & Hforce0 & Hcmd0).
  pose proof (cmd_range_same _ _ _ _ H5) as (_ & A2 & _ & B2).
  pose proof (default_range_same ed ea2) as (_ & A3 & _ & B3).
  pose proof (cmd_count_same _ _ _ _ H6) as (_ & A4 & _ & B4).
  pose proof (cmd_reg_same _ _ _ _ H7) as (_ & A5 & _ & B5).
  pose proof (cmd_bang_same _ _ _ H8) as (_ & A6 & _ & B6).
  pose proof (fun f k => cmd_magic_has _ _ _ _ f k H9) as A7.
  destruct (cmd_magic_same _ _ _ _ H9) as (_ & _ & B7 & _ & _ & _ & M1 & M2 & _).
  destruct (cmd_range_keeps _ _ _ _ H5) as [R1 _].
  destruct (default_range_keeps ed ea2) as [D1 _].
  destruct (cmd_count_keeps _ _ _ _ H6) as [C1 _].
  simpl in A2, B2, R1.
  assert (Hfresh : regname ea4 = NUL) by congruence.
  pose proof (cmd_reg_text _ _ _ _ Hfresh H7) as Hreg.
  exists s. unfold cmd_bang in H8. apply bind_Ok in H8 as (bang & Hbang & H8).
  exists bang. split; [exact Hs|]. split; [exact Hne|]. split; [exact Hbang|].
  unfold cmdline_name.
  rewrite (A7 EX_BANG 1), (A7 EX_REGSTR 9) by (reflexivity || lia).
  rewrite M1, M2, B7, B6, B5, B4, B3, B2, Hcmd0. simpl cstr_at. rewrite cstr_idem.
  destruct (bang && negb (has (argt ea5) EX_BANG)) eqn:Hb; [discriminate|].
  injection H8 as <-. simpl forceit. simpl regname. simpl argt.
  rewrite A5 in Hb |- *. rewrite Hreg.
  replace (has (argt ea4) EX_BANG && bang) with bang; [reflexivity|].
  destruct bang; [|symmetry; apply andb_false_r].
  simpl in Hb. destruct (has (argt ea4) EX_BANG); [reflexivity | discriminate].
Qed.

Lemma nvim_cmd_validate_name_witness :
  exists v,
    nvim_cmd_validate Demo.ed Cases.put_bang NIL = Ok v
    /\ cmdline_name (v_ea v) = "put! a".
Proof.
  eexists. split; [vm_compute; reflexivity|].
  destruct (nvim_cmd_validate_name Demo.ed Cases.put_bang NIL _
              ltac:(vm_compute; reflexivity)) as (s & bang & Hs & _ & Hbang & Hname).
  injection Hs as <-. injection Hbang as <-. exact Hname.
Defined.

(** ** A command without a range *)

Lemma default_range_addr_count ed ea :
  addr_count (default_range ed ea) = addr_count ea.
Proof.
  unfold default_range. destruct (addr_count ea =? 0); [|reflexivity].
  destruct (has (argt ea) EX_DFLALL).
  - destruct (set_cmd_dflall_range ed ea). reflexivity.
  - simpl. destruct (bool_decide _); reflexivity.
Qed.

(** X19. The default range of a command is not written to the line: for a
    descriptor without a range (the key missing, or the empty array) and
    without a count that passes the validation, the command has no address
    and the line built has no range text before the command name. *)
Theorem nvim_cmd_validate_no_range ed c o v :
  nvim_cmd_validate ed c o = Ok v ->
  no_explicit_range (k_range c) ->
  HAS_KEY (k_count c) = false ->
  addr_count (v_ea v) = 0 /\ cmdline_range (v_ea v) = EmptyString.
Proof.
  intros Hv Hrange Hcount. apply nvim_cmd_validate_run in Hv.
  destruct (validation_run_range _ _ _ _ Hv Hcount)
    as (cmdname & ea0 & ea2 & Hname & Hres & Hr & Hsame).
  destruct (resolve_cmd_fresh _ _ _ Hres) as (H0 & _).
  pose proof (cmd_range_absent _ _ _ _ Hrange Hr H0) as H2.
  destruct Hsame as (S1 & _). rewrite default_range_addr_count, H2 in S1.
  split; [exact S1|]. unfold cmdline_range. rewrite S1.
  destruct (has _ EX_RANGE); reflexivity.
Qed.

Lemma nvim_cmd_validate_no_range_witness :
  exists v,
    nvim_cmd_validate Demo.ed
      (Demo.with_range (Demo.just "yank") (ARRAY_OBJ [])) NIL = Ok v
    /\ no_explicit_range (ARRAY_OBJ [])
    /\ line1 (v_ea v) = 7 /\ line2 (v_ea v) = 7
    /\ addr_count (v_ea v) = 0 /\ cmdline_range (v_ea v) = EmptyString.
Proof.
  assert (Hno : no_explicit_range (ARRAY_OBJ [])) by (right; reflexivity).
  eexists. split; [vm_compute; reflexivity|]. split; [exact Hno|].
  split; [reflexivity|]. split; [reflexivity|].
  exact (nvim_cmd_validate_no_range Demo.ed
           (Demo.with_range (Demo.just "yank") (ARRAY_OBJ [])) NIL _
           ltac:(vm_compute; reflexivity) Hno eq_refl).
Defined.

(** ** The "range" option and the boolean options of a definition *)

Lemma opt_flag_value o what f a a' k :
  opt_flag o what f a = Ok a' -> f = 2 ^ k -> 0 <= k ->
  exists b, api_object_to_bool o what false = Ok b /\ has a' f = has a f || b.
Proof.
  intros H Hf Hk. unfold opt_flag in H. apply bind_Ok in H as (b & Hb & H).
  exists b. split; [exact Hb|]. destruct b; injection H as <-.
  - rewrite (has_lor _ _ f k) by assumption.
    assert (Hff : has f f = true).
    { rewrite (has_testbit f f k) by assumption. subst f. apply Z.pow2_bits_true, Hk. }
    rewrite Hff. reflexivity.
  - symmetry. apply orb_false_r.
Qed.

(** X20. The contract of a definition has [EX_RANGE] exactly when its "range"
    option is [true], "%" or an integer, or its "count" option asks for a
    count; it has [EX_DFLALL], the whole file as default, exactly when
    "range" is "%"; an integer "range" is the default count, with the address
    type [ADDR_LINES] unless "addr" is given. *)
Theorem create_user_command_request_range df name command opts r :
  create_user_command_request df name command opts = Ok r ->
  no_named_completion opts ->
  (has (r_argt r) EX_RANGE = true <-> ranged (o_range opts) \/ counted (o_count opts))
  /\ (has (r_argt r) EX_DFLALL = true <-> o_range opts = STRING_OBJ "%")
  /\ (forall n, o_range opts = INTEGER_OBJ n ->
        r_def r = n /\ (o_addr opts = NIL -> r_addr_type r = ADDR_LINES)).
Proof.
  intros H Hno. apply create_user_command_request_run in H.
  destruct H as [a0 a1 d1 t1 a2 d2 t2 a3 t3 a4 a5 a6 a7 force compl a8 compl_arg
                   compl_luaref a9 preview_luaref luaref rep
                   E1 E2 E3 E4 E5 E6 E7 E8 E9 E10 E11 E12 E13 E14 E15 E16].
  simpl.
  assert (Htail : forall g k, g = 2 ^ k -> 0 <= k ->
            has EX_ZEROR g = false -> has EX_BANG g = false ->
            has EX_TRLBAR g = false -> has EX_REGSTR g = false ->
            has EX_KEEPSCRIPT g = false -> has EX_PREVIEW g = false ->
            has a9 g = has a2 g).
  { intros g k Hg Hk G1 G2 G3 G4 G5 G6.
    rewrite (opt_preview_kept _ _ _ _ _ g k E15),
      (opt_complete_kept _ _ _ _ _ _ _ Hno E14),
      (opt_flag_kept _ _ _ _ _ g k E12), (opt_flag_kept _ _ _ _ _ g k E11),
      (opt_flag_kept _ _ _ _ _ g k E10), (opt_flag_kept _ _ _ _ _ g k E9),
      (opt_addr_kept _ _ _ _ _ _ g k E8) by assumption.
    reflexivity. }
  rewrite (Htail EX_RANGE 0), (Htail EX_DFLALL 5) by (reflexivity || lia).
  rewrite (opt_count_kept _ _ _ _ _ _ _ EX_DFLALL 5 E7) by (reflexivity || lia).
  pose proof (opt_nargs_kept _ _ EX_RANGE 0 E4 eq_refl ltac:(lia) eq_refl eq_refl eq_refl)
    as N0.
  pose proof (opt_nargs_kept _ _ EX_DFLALL 5 E4 eq_refl ltac:(lia) eq_refl eq_refl eq_refl)
    as N5.
  unfold ranged, counted, opt_range, opt_count in *.
  split; [split|split; [split|]].
  - intros Hr.
    destruct (o_count opts) as [|[|]| | | | | | | | |] eqn:Hc; try discriminate E7;
      try (right; eauto; fail); injection E7 as <- _ _;
      (destruct (o_range opts) as [|[|]| | |s| | | | | |] eqn:Hg; try discriminate E6;
       try (left; eauto; fail); injection E6 as <- _ _; congruence).
  - intros [Hr | Hc].
    + assert (H1 : has a1 EX_RANGE = true).
      { destruct Hr as [Hr | [[s Hr] | [n Hr]]]; rewrite Hr in E6.
        - injection E6 as <- _ _. rewrite (has_lor _ _ EX_RANGE 0) by (reflexivity || lia).
          apply orb_true_r.
        - cbv iota in E6.
          match type of E6 with
          | (if ?b then _ else _) = _ => destruct b; [|discriminate E6]
          end.
          injection E6 as <- _ _.
          rewrite (has_lor _ _ EX_RANGE 0) by (reflexivity || lia). apply orb_true_r.
        - injection E6 as <- _ _. rewrite (has_lor _ _ EX_RANGE 0) by (reflexivity || lia).
          apply orb_true_r. }
      destruct (o_count opts) as [|[|]| | | | | | | | |]; try discriminate E7;
        injection E7 as <- _ _; try exact H1;
        apply (has_lor_mono _ _ _ 0); (reflexivity || lia || exact H1).
    + destruct Hc as [Hc | [n Hc]]; rewrite Hc in E7; injection E7 as <- _ _;
        rewrite (has_lor _ _ EX_RANGE 0) by (reflexivity || lia); apply orb_true_r.
  - intros Hd.
    destruct (o_range opts) as [|[|]| | |s| | | | | |] eqn:Hg; try discriminate E6.
    + injection E6 as <- _ _. congruence.
    + injection E6 as <- _ _. rewrite (has_lor _ _ EX_DFLALL 5) in Hd by (reflexivity || lia).
      rewrite N5 in Hd. discriminate Hd.
    + injection E6 as <- _ _. congruence.
    + injection E6 as <- _ _. rewrite (has_lor _ _ EX_DFLALL 5) in Hd by (reflexivity || lia).
      rewrite N5 in Hd. discriminate Hd.
    + destruct (Ascii.eqb_spec (first_char s) "%") as [Hp|]; [|discriminate E6].
      destruct (String.length s =? 1)%nat eqn:Hlen; [|discriminate E6].
      rewrite (string_length_one _ Hlen), Hp. reflexivity.
  - intros Hr. rewrite Hr in E6. simpl in E6. injection E6 as <- _ _.
    rewrite (has_lor _ _ EX_DFLALL 5) by (reflexivity || lia). apply orb_true_r.
  - intros n Hr. rewrite Hr in E6, E3. injection E6 as _ <- <-.
    simpl in E3. destruct (o_count opts); try discriminate E3.
    injection E7 as _ <- <-. split; [reflexivity|].
    intros Haddr. unfold opt_addr in E8. rewrite Haddr in E8.
    injection E8 as _ <-. reflexivity.
Qed.

Lemma create_user_command_request_range_witness :
  exists r,
    create_user_command_request Demo.df "Hello" (STRING_OBJ "echo 1") Cases.range_opts
    = Ok r
    /\ no_named_completion Cases.range_opts
    /\ has (r_argt r) EX_RANGE = true
    /\ has (r_argt r) EX_DFLALL = true.
Proof.
  assert (Hno : no_named_completion Cases.range_opts) by (intros s; discriminate).
  eexists. split; [vm_compute; reflexivity|]. split; [exact Hno|].
  destruct (create_user_command_request_range Demo.df "Hello" (STRING_OBJ "echo 1")
              Cases.range_opts _ ltac:(vm_compute; reflexivity) Hno)
    as (Hrange & Hall & _).
  split.
  - apply Hrange. left. right. left. exists "%". reflexivity.
  - apply Hall. reflexivity.
Defined.

(** X21. Each of the boolean options "bang", "bar", "register" and
    "keepscript" of a definition reads as a boolean, and the contract has the
    flag of the option, [EX_BANG], [EX_TRLBAR], [EX_REGSTR] or
    [EX_KEEPSCRIPT], exactly when the option reads as true (the completion not
    being given by name). *)
Theorem create_user_command_request_flags df name command opts r o what f :
  create_user_command_request df name command opts = Ok r ->
  no_named_completion opts ->
  In (o, what, f) (flag_opts opts) ->
  exists b, api_object_to_bool o what false = Ok b /\ has (r_argt r) f = b.
Proof.
  intros H Hno Hin. apply create_user_command_request_run in H.
  destruct H as [a0 a1 d1 t1 a2 d2 t2 a3 t3 a4 a5 a6 a7 force compl a8 compl_arg
                   compl_luaref a9 preview_luaref luaref rep
                   E1 E2 E3 E4 E5 E6 E7 E8 E9 E10 E11 E12 E13 E14 E15 E16].
  simpl r_argt.
  assert (Hhead : forall g k, g = 2 ^ k -> 0 <= k ->
            has EX_EXTRA g = false -> has EX_NOSPC g = false ->
            has EX_NEEDARG g = false -> has EX_RANGE g = false ->
            has EX_DFLALL g = false -> has EX_ZEROR g = false ->
            has EX_COUNT g = false -> has a3 g = false).
  { intros g k Hg Hk G1 G2 G3 G4 G5 G6 G7.
    rewrite (opt_addr_kept _ _ _ _ _ _ g k E8), (opt_count_kept _ _ _ _ _ _ _ g k E7),
      (opt_range_kept _ _ _ _ _ _ _ g k E6) by assumption.
    apply (opt_nargs_kept _ _ g k E4); assumption. }
  rewrite (opt_complete_kept _ _ _ _ _ _ _ Hno E14) in E15.
  simpl in Hin.
  destruct Hin as [Hin | [Hin | [Hin | [Hin | []]]]]; injection Hin as <- <- <-.
  - destruct (opt_flag_value _ _ _ _ _ 1 E9) as (b & Hb & Hv); try (reflexivity || lia).
    exists b. split; [exact Hb|].
    rewrite (opt_preview_kept _ _ _ _ _ EX_BANG 1 E15),
      (opt_flag_kept _ _ _ _ _ EX_BANG 1 E12),
      (opt_flag_kept _ _ _ _ _ EX_BANG 1 E11),
      (opt_flag_kept _ _ _ _ _ EX_BANG 1 E10), Hv, (Hhead EX_BANG 1)
      by (reflexivity || lia).
    reflexivity.
  - destruct (opt_flag_value _ _ _ _ _ 8 E10) as (b & Hb & Hv); try (reflexivity || lia).
    exists b. split; [exact Hb|].
    rewrite (opt_preview_kept _ _ _ _ _ EX_TRLBAR 8 E15),
      (opt_flag_kept _ _ _ _ _ EX_TRLBAR 8 E12),
      (opt_flag_kept _ _ _ _ _ EX_TRLBAR 8 E11), Hv,
      (opt_flag_kept _ _ _ _ _ EX_TRLBAR 8 E9), (Hhead EX_TRLBAR 8)
      by (reflexivity || lia).
    reflexivity.
  - destruct (opt_flag_value _ _ _ _ _ 9 E11) as (b & Hb & Hv); try (reflexivity || lia).
    exists b. split; [exact Hb|].
    rewrite (opt_preview_kept _ _ _ _ _ EX_REGSTR 9 E15),
      (opt_flag_kept _ _ _ _ _ EX_REGSTR 9 E12), Hv,
      (opt_flag_kept _ _ _ _ _ EX_REGSTR 9 E10),
      (opt_flag_kept _ _ _ _ _ EX_REGSTR 9 E9), (Hhead EX_REGSTR 9)
      by (reflexivity || lia).
    reflexivity.
  - destruct (opt_flag_value _ _ _ _ _ 26 E12) as (b & Hb & Hv); try (reflexivity || lia).
    exists b. split; [exact Hb|].
    rewrite (opt_preview_kept _ _ _ _ _ EX_KEEPSCRIPT 26 E15), Hv,
      (opt_flag_kept _ _ _ _ _ EX_KEEPSCRIPT 26 E11),
      (opt_flag_kept _ _ _ _ _ EX_KEEPSCRIPT 26 E10),
      (opt_flag_kept _ _ _ _ _ EX_KEEPSCRIPT 26 E9), (Hhead EX_KEEPSCRIPT 26)
      by (reflexivity || lia).
    reflexivity.
Qed.

Lemma create_user_command_request_flags_witness :
  exists r,
    create_user_command_request Demo.df "Hello" (STRING_OBJ "echo 1") Cases.range_opts
    = Ok r
    /\ no_named_completion Cases.range_opts
    /\ In (o_bar Cases.range_opts, "bar", EX_TRLBAR) (flag_opts Cases.range_opts)
    /\ has (r_argt r) EX_TRLBAR = true.
Proof.
  assert (Hno : no_named_completion Cases.range_opts) by (intros s; discriminate).
  assert (Hin : In (o_bar Cases.range_opts, "bar", EX_TRLBAR)
                   (flag_opts Cases.range_opts)) by (simpl; tauto).
  eexists. split; [vm_compute; reflexivity|]. split; [exact Hno|]. split; [exact Hin|].
  destruct (create_user_command_request_flags Demo.df "Hello" (STRING_OBJ "echo 1")
              Cases.range_opts _ _ _ _ ltac:(vm_compute; reflexivity) Hno Hin)
    as (b & Hb & Hv).
  injection Hb as <-. exact Hv.
Defined.

(** ** Completion needs arguments *)

(** X22. A definition with a "complete" option is accepted only with a
    "nargs" option other than 0: for every request that passes the checks
    and gives "complete", "nargs" is 1, "*", "?" or "+"; with a Lua function
    as completion the contract takes arguments and the completion is
    [EXPAND_USER_LUA] with that function. *)
Theorem create_user_command_request_complete df name command opts r :
  create_user_command_request df name command opts = Ok r ->
  HAS_KEY (o_complete opts) = true ->
  nargs_text (o_nargs opts) <> "0"
  /\ (forall l, o_complete opts = LUAREF_OBJ l ->
        arity_of (r_argt r) <> none
        /\ r_compl r = EXPAND_USER_LUA
        /\ r_compl_luaref r = Some (api_new_luaref df l)).
Proof.
  intros H Hkey. apply create_user_command_request_run in H. pose proof H as Hrun.
  destruct H as [a0 a1 d1 t1 a2 d2 t2 a3 t3 a4 a5 a6 a7 force compl a8 compl_arg
                   compl_luaref a9 preview_luaref luaref rep
                   E1 E2 E3 E4 E5 E6 E7 E8 E9 E10 E11 E12 E13 E14 E15 E16].
  rewrite Hkey in E5. simpl in E5. apply Z.eqb_neq in E5.
  assert (Htext : nargs_text (o_nargs opts) <> "0").
  { rewrite <- (opt_nargs_text _ _ E4). intros Hzero. apply E5.
    unfold opt_nargs in E4.
    destruct (o_nargs opts) as [| |i| |s| | | | | |]; try discriminate E4.
    - injection E4 as <-. reflexivity.
    - destruct (i =? 0); [injection E4 as <-; reflexivity|].
      destruct (i =? 1); [injection E4 as <-; discriminate Hzero | discriminate E4].
    - destruct (1 <? String.length s)%nat; [discriminate E4|].
      destruct (Ascii.eqb (first_char s) "*");
        [injection E4 as <-; discriminate Hzero|].
      destruct (Ascii.eqb (first_char s) "?");
        [injection E4 as <-; discriminate Hzero|].
      destruct (Ascii.eqb (first_char s) "+");
        [injection E4 as <-; discriminate Hzero | discriminate E4]. }
  split; [exact Htext|]. intros l Hl.
  assert (Hno : no_named_completion opts) by (intros s Hs; congruence).
  pose proof (request_run_nargs _ _ _ _ _ Hrun Hno) as Hnargs.
  simpl in Hnargs |- *. rewrite Hl in E14. injection E14 as <- _ _ <-.
  split; [|split; reflexivity].
  intros Hnone. rewrite Hnone in Hnargs. apply Htext. symmetry. exact Hnargs.
Qed.

Lemma create_user_command_request_complete_witness :
  exists r,
    create_user_command_request Demo.df "Hello" (STRING_OBJ "echo 1")
                                Cases.complete_opts = Ok r
    /\ arity_of (r_argt r) = exactlyOne
    /\ r_compl r = EXPAND_USER_LUA.
Proof.
  eexists. split; [vm_compute; reflexivity|]. split; [reflexivity|].
  exact (proj1 (proj2 (proj2 (create_user_command_request_complete Demo.df "Hello"
                         (STRING_OBJ "echo 1") Cases.complete_opts _
                         ltac:(vm_compute; reflexivity) eq_refl) 3 eq_refl))).
Defined.
